(** * Grant-application assistant: voice validator, extraction engine,
      retrieval orchestrator and generation controller

    A shallow embedding of the Python sources

      - [src/generation/voice_guidelines.py]   (module [VoiceGuidelines])
      - [src/rag/enhanced_vector_store.py]     (module [EnhancedVectorStore])
      - [src/generation/enhanced_generator.py] (module [EnhancedGenerator])
      - [src/generation/generator.py]          (module [Generator])
      - [config/settings.py]                   (module [Settings])
      - [src/rag/embeddings.py]                (module [Embeddings])
      - [rebuild_enhanced_database.py]         (module [RebuildDatabase])

    The method [add_document_enhanced] of the vector store is module
    [Ingestion], [format_retrieval_for_prompt] is module [PromptContext],
    [validate_and_report] of the enhanced generator is module
    [Validation], and [generate_section] and [generate_full_application]
    of [generator.py] are module [BasicGenerator].  The dictionary literal
    of the extractors, with the metadata merged into it, is module
    [FragmentDict].

    Conventions of the embedding.

    - A Python [str] is a list of characters, [str := list ascii].  The
      embedding is exact on ASCII text: [lower] folds [A-Z] only, [\d] is
      [0-9], [\w] is [[A-Za-z0-9_]] and whitespace is the ASCII whitespace
      of [str.strip].  A non-ASCII character of a constant (the dash of one
      signature phrase) stands as its UTF-8 bytes.
    - Scores are integer valued in the source (the float [100.0] moved by
      [5], [10] and [3]); they are modelled in [Z].  The float quotient of
      [generate_full_application] is the binary64 quotient, read as a
      rational in [Q].
    - [refine_section] of [generator.py] is embedded over any type of
      characters, with the methods [lower] and [strip] as parameters, so
      that its properties hold of every Python text.
    - The [re] module is embedded as a backtracking matcher over the
      constructs the repository's patterns use (module [Re]).
    - Calls that leave the process (the embedding provider, the vector
      database, the language model) are parameters: a function or a table
      of outcomes, each of which may fail. *)

From Stdlib Require Import Ascii String ZArith QArith Qminmax Lia Bool Arith.
From Stdlib Require Import Decimal DecimalString DecimalNat List.
From Stdlib Require SpecFloat.
Import ListNotations.

Close Scope Q_scope.
Open Scope nat_scope.
Set Implicit Arguments.

(** ** Python strings *)

Module PyStr.

Definition str := list ascii.

(** A string constant of the source. *)
Definition py (s : string) : str := list_ascii_of_string s.

Definition code (c : ascii) : nat := nat_of_ascii c.

Definition is_upper (c : ascii) : bool := (65 <=? code c) && (code c <=? 90).
Definition is_lower (c : ascii) : bool := (97 <=? code c) && (code c <=? 122).
Definition is_digit (c : ascii) : bool := (48 <=? code c) && (code c <=? 57).

(** [\w] of [re]. *)
Definition is_word (c : ascii) : bool :=
  is_upper c || is_lower c || is_digit c || (code c =? 95).

(** The characters [str.strip()] removes: tab, line feed, vertical tab, form
    feed, carriage return, the four separators 28..31 and the space. *)
Definition is_space (c : ascii) : bool :=
  ((9 <=? code c) && (code c <=? 13)) || ((28 <=? code c) && (code c <=? 32)).

Definition lower_char (c : ascii) : ascii :=
  if is_upper c then ascii_of_nat (code c + 32) else c.

(** [s.lower()] *)
Definition lower (s : str) : str := map lower_char s.

Definition str_eqb (a b : str) : bool :=
  if list_eq_dec ascii_dec a b then true else false.

(** [s.startswith(p)] *)
Fixpoint startswith (p s : str) : bool :=
  match p, s with
  | [], _ => true
  | _ :: _, [] => false
  | a :: p', b :: s' => Ascii.eqb a b && startswith p' s'
  end.

(** The offsets, counted from [pos], at which [sub] occurs in [s], in
    increasing order; occurrences may overlap. *)
Fixpoint occurrences_from (sub s : str) (pos : nat) : list nat :=
  match s with
  | [] => if startswith sub [] then [pos] else []
  | _ :: s' =>
      (if startswith sub s then [pos] else []) ++ occurrences_from sub s' (S pos)
  end.

Definition occurrences (sub s : str) : list nat := occurrences_from sub s 0.

(** [sub in s] *)
Definition contains (sub s : str) : bool :=
  match occurrences sub s with [] => false | _ :: _ => true end.

(** [s.count(c)] for a one-character [c]. *)
Definition count_char (c : ascii) (s : str) : nat :=
  length (filter (Ascii.eqb c) s).

Fixpoint lstrip (s : str) : str :=
  match s with
  | c :: s' => if is_space c then lstrip s' else s
  | [] => []
  end.

Definition rstrip (s : str) : str := rev (lstrip (rev s)).

(** [s.strip()] *)
Definition strip (s : str) : str := rstrip (lstrip s).

(** [s[a:b]] for [0 <= a]. *)
Definition slice (s : str) (a b : nat) : str := firstn (b - a) (skipn a s).

(** [s.rfind(c)] for a one-character [c]: the last offset, or [-1]. *)
Definition rfind_char (c : ascii) (s : str) : Z :=
  match rev (occurrences [c] s) with
  | [] => (-1)%Z
  | p :: _ => Z.of_nat p
  end.

(** [x in names] for a list of strings. *)
Definition mem (x : str) (names : list str) : bool := existsb (str_eqb x) names.

(** [sep.join(parts)] *)
Fixpoint join (sep : str) (parts : list str) : str :=
  match parts with
  | [] => []
  | [p] => p
  | p :: rest => p ++ sep ++ join sep rest
  end.

(** Every character of the text is an ASCII character: on such a text the
    offsets, the lengths, the word characters and the folding of the case
    of this embedding are those of Python. *)
Definition is_ascii (text : str) : bool := forallb (fun c => code c <? 128) text.

End PyStr.

Import PyStr.

(** ** The [re] module

    A backtracking matcher with the priorities of Python's engine: a
    repetition and an optional part are greedy, an alternation tries its
    branches from the left, and a failure further right sends the matcher
    back to the latest choice.  Repetition is over a single character class,
    which is all the repository's patterns need. *)

Module Re.

(** A character class: [\d], the listed characters, or the complement. *)
Record cset := { negated : bool; digits : bool; chars : list ascii }.

Inductive regex : Type :=
| Chr (c : ascii)                              (* a literal character *)
| Cls (cs : cset)                              (* [..] and \d *)
| WordB                                        (* \b *)
| Cat (r1 r2 : regex)                          (* r1 r2 *)
| Alt (r1 r2 : regex)                          (* r1|r2 *)
| Opt (r : regex)                              (* r? *)
| Rep (cs : cset) (lo : nat) (hi : option nat) (* cs{lo,hi}, cs+, cs* *)
| Grp (i : nat) (r : regex).                   (* the i-th capturing group (...) *)

(** [re.IGNORECASE] is the flag [ic]. *)
Definition fold_case (ic : bool) (c : ascii) : ascii :=
  if ic then lower_char c else c.

Definition in_cset (ic : bool) (cs : cset) (c : ascii) : bool :=
  xorb (negated cs)
       ((digits cs && is_digit c)
        || existsb (fun d => Ascii.eqb (fold_case ic d) (fold_case ic c)) (chars cs)).

(** The groups that took part in a match, latest first: index, start, end. *)
Definition captures := list (nat * (nat * nat)).

Definition is_word_opt (c : option ascii) : bool :=
  match c with Some c => is_word c | None => false end.

Section Matcher.

Variable ic : bool.
Variable R : Type.

(** Greedy bounded repetition of one class, by recursion on the text. *)
Fixpoint rep (p : ascii -> bool) (lo : nat) (hi : option nat)
    (rest : str) (pos : nat) (prev : option ascii)
    (k : str -> nat -> option ascii -> option R) {struct rest} : option R :=
  let stop := match lo with O => k rest pos prev | S _ => None end in
  match rest with
  | [] => stop
  | c :: rest' =>
      if p c && negb (match hi with Some O => true | _ => false end) then
        match rep p (pred lo) (option_map pred hi) rest' (S pos) (Some c) k with
        | Some r => Some r
        | None => stop
        end
      else stop
  end.

(** [m r rest pos prev caps k]: match [r] at offset [pos], where [rest] is
    the text from [pos] on and [prev] the character before it; [k] is the
    rest of the pattern. *)
Fixpoint m (r : regex) (rest : str) (pos : nat) (prev : option ascii)
    (caps : captures)
    (k : str -> nat -> option ascii -> captures -> option R) : option R :=
  match r with
  | Chr c =>
      match rest with
      | c' :: rest' =>
          if Ascii.eqb (fold_case ic c') (fold_case ic c)
          then k rest' (S pos) (Some c') caps else None
      | [] => None
      end
  | Cls cs =>
      match rest with
      | c' :: rest' =>
          if in_cset ic cs c' then k rest' (S pos) (Some c') caps else None
      | [] => None
      end
  | WordB =>
      if xorb (is_word_opt prev) (is_word_opt (hd_error rest))
      then k rest pos prev caps else None
  | Cat r1 r2 =>
      m r1 rest pos prev caps
        (fun rest1 pos1 prev1 caps1 => m r2 rest1 pos1 prev1 caps1 k)
  | Alt r1 r2 =>
      match m r1 rest pos prev caps k with
      | Some x => Some x
      | None => m r2 rest pos prev caps k
      end
  | Opt r1 =>
      match m r1 rest pos prev caps k with
      | Some x => Some x
      | None => k rest pos prev caps
      end
  | Rep cs lo hi =>
      rep (in_cset ic cs) lo hi rest pos prev
        (fun rest' pos' prev' => k rest' pos' prev' caps)
  | Grp i r1 =>
      m r1 rest pos prev caps
        (fun rest' pos' prev' caps' => k rest' pos' prev' ((i, (pos, pos')) :: caps'))
  end.

End Matcher.

(** A match object: [start()], [end()] and the groups. *)
Record rmatch := { m_start : nat; m_end : nat; m_caps : captures }.

(** [pattern.match(text, pos)] *)
Definition match_at (ic : bool) (r : regex) (rest : str) (pos : nat)
    (prev : option ascii) : option rmatch :=
  m ic r rest pos prev []
    (fun _ pos' _ caps => Some {| m_start := pos; m_end := pos'; m_caps := caps |}).

(** The scan of [re.finditer]: leftmost match first, then on from its end;
    [skip] counts the characters of the last match still to step over. *)
Fixpoint scan (ic : bool) (r : regex) (rest : str) (pos : nat)
    (prev : option ascii) (skip : nat) : list rmatch :=
  match rest with
  | [] =>
      match skip, match_at ic r [] pos prev with
      | O, Some mt => [mt]
      | _, _ => []
      end
  | c :: rest' =>
      match skip with
      | S n => scan ic r rest' (S pos) (Some c) n
      | O =>
          match match_at ic r rest pos prev with
          | Some mt => mt :: scan ic r rest' (S pos) (Some c) (m_end mt - pos - 1)
          | None => scan ic r rest' (S pos) (Some c) 0
          end
      end
  end.

(** [list(re.finditer(r, text))] *)
Definition finditer (ic : bool) (r : regex) (text : str) : list rmatch :=
  scan ic r text 0 None 0.

(** [bool(re.search(r, text))] *)
Definition search (ic : bool) (r : regex) (text : str) : bool :=
  match finditer ic r text with [] => false | _ :: _ => true end.

(** [m.group(0)] *)
Definition group0 (text : str) (mt : rmatch) : str :=
  slice text (m_start mt) (m_end mt).

(** [m.group(i)], the empty string when the group took no part
    (as [findall] reports it). *)
Definition group (text : str) (mt : rmatch) (i : nat) : str :=
  match find (fun e => fst e =? i) (m_caps mt) with
  | Some (_, (a, b)) => slice text a b
  | None => []
  end.

Fixpoint ngroups (r : regex) : nat :=
  match r with
  | Chr _ | Cls _ | WordB | Rep _ _ _ => 0
  | Cat r1 r2 | Alt r1 r2 => ngroups r1 + ngroups r2
  | Opt r1 => ngroups r1
  | Grp _ r1 => S (ngroups r1)
  end.

(** An element of the list [re.findall] returns: the whole match for a
    pattern without groups, the group for a pattern with one group, and the
    tuple of all groups otherwise. *)
Inductive found := FStr (s : str) | FTuple (parts : list str).

Definition findall (ic : bool) (r : regex) (text : str) : list found :=
  map (fun mt =>
         match ngroups r with
         | 0 => FStr (group0 text mt)
         | 1 => FStr (group text mt 1)
         | n => FTuple (map (group text mt) (seq 1 n))
         end)
      (finditer ic r text).

(** *** Pattern syntax *)

(** A literal string. *)
Fixpoint lit_list (s : str) : regex :=
  match s with
  | [] => Rep {| negated := false; digits := false; chars := [] |} 0 (Some 0)
  | [c] => Chr c
  | c :: s' => Cat (Chr c) (lit_list s')
  end.

Definition lit (s : string) : regex := lit_list (py s).

(** [\d] *)
Definition digit : cset := {| negated := false; digits := true; chars := [] |}.
(** [[^...]] *)
Definition none_of (s : string) : cset :=
  {| negated := true; digits := false; chars := py s |}.
(** [[\d...]] *)
Definition digit_or (s : string) : cset :=
  {| negated := false; digits := true; chars := py s |}.

(** [r1 r2 ... rn] *)
Fixpoint cat (rs : list regex) : regex :=
  match rs with
  | [] => lit_list []
  | [r] => r
  | r :: rs' => Cat r (cat rs')
  end.

(** [[...]] *)
Definition one_of (s : string) : cset :=
  {| negated := false; digits := false; chars := py s |}.

(** [r1|r2|...|rn] *)
Fixpoint alt_re (rs : list regex) : regex :=
  match rs with
  | [] => Cls (one_of EmptyString)
  | [r] => r
  | r :: rs' => Alt r (alt_re rs')
  end.

(** [s1|s2|...|sn] over literal strings. *)
Definition alt (ss : list string) : regex := alt_re (map lit ss).

(** [cs+], [cs*] and [cs{lo,hi}] *)
Definition plus (cs : cset) : regex := Rep cs 1 None.
Definition star (cs : cset) : regex := Rep cs 0 None.
Definition between (cs : cset) (lo hi : nat) : regex := Rep cs lo (Some hi).

End Re.

(** ** [src/generation/voice_guidelines.py] *)

Module VoiceGuidelines.

Import Re.

(** A value of the [SIGNATURE_PHRASES] dictionary: a list of phrases, or a
    dictionary of lists (the program descriptions). *)
Inductive phrase_category :=
| PhraseList (phrases : list str)
| PhraseDict (groups : list (str * list str)).

Definition SIGNATURE_PHRASES : list (str * phrase_category) :=
  [ (py "mission_statements", PhraseList
      [ py "We firmly believe that those who are closest to the issues are also best equipped to solve them.";
        py "When people gain access to tools, training, and community, they generate the solutions their neighborhoods need most.";
        py "Entrepreneurship is more than a business path—it's a tool for reclaiming agency and reshaping local economies.";
        py "We champion a new generation of entrepreneurs who prioritize and uplift their neighborhoods.";
        py "We create transformative educational programs, technology, and cross-sectoral partnerships that equip program participants with the skills and networks to become founders of organizations driven by social and environmental missions." ]);
    (py "community_empowerment", PhraseList
      [ py "For thousands of New Yorkers living in public housing, entrepreneurship is one of the few viable paths to income and ownership.";
        py "More than 80% of 2024 participants reported they would not have pursued their venture without this program.";
        py "By embedding our accelerator in trusted community spaces, employing NYCHA alumni as instructors, and by providing access to tech and coaching, we create a culturally responsive, high-impact accelerator.";
        py "We invite and integrate the feedback of our community members, who we center as experts.";
        py "With your support, we will continue to scale a model that transforms untapped potential into community-powered prosperity." ]);
    (py "codesign_language", PhraseList
      [ py "co-designed with NYCHA residents and tenant leaders";
        py "co-created with community partners";
        py "Our approach is based on user-centered design, where we test our assumptions about community needs and engage in two-way dialogues to cultivate empathy before we design.";
        py "We center community voices in every aspect of program development.";
        py "designed in partnership with those who will benefit most" ]);
    (py "program_descriptions", PhraseDict
      [ (py "journey",
          [ py "Our Journey platform is a gamified learning experience where participants access multimedia lessons, project-based challenges, and live feedback.";
            py "Learners earn gemstones they can cash in for prizes, mentorship sessions, and workshops.";
            py "All participants gain lifetime access to our alumni community, curriculum, and career opportunities.";
            py "Our platform allows us to meet our learners where they are, provide live feedback, and provide an engaging and gamified learning experience." ]);
        (py "startup_nycha",
          [ py "Six-month business accelerator co-designed with NYCHA residents and tenant leaders";
            py "At our Fulton Houses pilot, we had 60+ signups in the first week";
            py "95% of participants were women of color";
            py "Culminates in a public pitch competition with seed funding opportunities";
            py "Creates community-powered prosperity" ]);
        (py "cambio_solar",
          [ py "Green workforce training leading to industry-recognized certifications like OSHA and GPRO";
            py "Community-owned solar businesses and cooperatives";
            py "Addresses both environmental and economic justice" ]) ]);
    (py "impact_language", PhraseList
      [ py "community-powered prosperity";
        py "untapped potential";
        py "purpose-driven leaders";
        py "social entrepreneurs who solve local challenges";
        py "durable skills for 21st century careers";
        py "pathways to economic empowerment";
        py "generational wealth creation" ]) ].

Definition AI_BUZZWORDS_FORBIDDEN : list str :=
  map py
  [ (* Overused corporate speak *)
    "catalyze"; "leverage"; "optimize"; "seamless"; "seamlessly";
    "robust"; "state-of-the-art"; "cutting-edge"; "innovative";
    "transformative"; "groundbreaking"; "revolutionary";
    (* AI writing patterns *)
    "at the heart of what we do"; "at the core of our mission";
    "bridge to empowerment"; "pathway that challenges";
    "challenge and change"; "deeply rooted in"; "far more than";
    "the chasm between"; "rectifying the"; "not just... but...";
    (* Generic corporate phrases *)
    "ensure"; "facilitate"; "enhance"; "utilize"; "implement";
    "strategic deployment"; "carefully crafted"; "testament to";
    "commitment to excellence"; "proven track record";
    "we are proud to"; "we are excited to"; "we are committed to";
    "we are dedicated to"; "we are deeply committed"; "we recognize";
    "we understand that"; "we believe in the power";
    (* Melodramatic phrases *)
    "transformative movement"; "pathways that challenge";
    "dedicated to creating"; "driven by a mission to";
    "catalyze significant positive change";
    (* Red flags *)
    "generated"; "AI-generated"; "created by AI"; "produced by";
    "this application was"; "this proposal was created" ]%string.

(** *** [check_ai_buzzwords] *)

Record violation := { buzzword : str; position : nat; severity : str }.

(** One entry per occurrence of each buzzword in the lowered text, the
    buzzwords in the order of the list and the offsets of each in
    increasing order: the [while] loop calls [text_lower.find] again one
    character after each hit, so it visits every offset at which the
    buzzword starts, overlapping occurrences too. *)
Definition check_ai_buzzwords (text : str) : list violation :=
  let text_lower := lower text in
  flat_map
    (fun bw =>
       if contains (lower bw) text_lower then
         map (fun pos => {| buzzword := bw; position := pos; severity := py "high" |})
             (occurrences (lower bw) text_lower)
       else [])
    AI_BUZZWORDS_FORBIDDEN.

(** *** [check_required_language] *)

Record missing_item := { issue : str; fix_ : str; m_severity : str }.

Definition underserved_item : missing_item :=
  {| issue := py "Uses 'underserved' instead of 'underestimated'";
     fix_ := py "Replace with 'underestimated communities'";
     m_severity := py "high" |}.

Definition codesign_item : missing_item :=
  {| issue := py "Missing co-design language";
     fix_ := py "Add phrase like 'co-designed with NYCHA residents and tenant leaders'";
     m_severity := py "high" |}.

Definition codesign_sections : list str :=
  [py "methodology"; py "project description"].

Definition codesign_terms : list str :=
  [py "co-design"; py "co-created"; py "designed with"; py "tenant leaders"].

Definition check_required_language (text section_name : str) : list missing_item :=
  let text_lower := lower text in
  let missing :=
    if contains (py "underserved") text_lower
       && negb (contains (py "underestimated") text_lower)
    then [underserved_item] else [] in
  if mem (lower section_name) codesign_sections then
    let has_codesign := existsb (fun term => contains term text_lower) codesign_terms in
    if negb has_codesign then missing ++ [codesign_item] else missing
  else missing.

(** *** [check_specificity] *)

Record vague_issue :=
  { word : str; v_position : nat; suggestion : str; v_severity : str }.

Definition vague_words : list string :=
  ["many"; "significant"; "numerous"; "various"; "substantial"; "considerable"]%string.

(** [r'\b' + word + r'\b'] *)
Definition vague_pattern (w : string) : regex := cat [WordB; lit w; WordB].

(** The entries for the vague quantifiers, word by word, each word's
    matches from left to right ([re.finditer] with [re.IGNORECASE]). *)
Definition vague_matches (text : str) : list vague_issue :=
  flat_map
    (fun w =>
       map (fun mt =>
              {| word := py w; v_position := m_start mt;
                 suggestion := py "Replace with specific data or number";
                 v_severity := py "medium" |})
           (finditer true (vague_pattern w) text))
    vague_words.

(** [\d+%|\d+ participants|\d+ entrepreneurs|\$\d+|60\+] *)
Definition numbers_pattern : regex :=
  Alt (cat [plus digit; lit "%"])
 (Alt (cat [plus digit; lit " participants"])
 (Alt (cat [plus digit; lit " entrepreneurs"])
 (Alt (cat [lit "$"; plus digit])
      (lit "60+")))).

Definition has_numbers (text : str) : bool := search false numbers_pattern text.

Definition no_data_issue : vague_issue :=
  {| word := py "[no specific data]"; v_position := 0;
     suggestion := py "Add specific metrics, percentages, or participant numbers";
     v_severity := py "high" |}.

Definition check_specificity (text : str) : list vague_issue :=
  let vague_issues := vague_matches text in
  if negb (has_numbers text) && (200 <? length text)
  then vague_issues ++ [no_data_issue]
  else vague_issues.

(** *** [get_grade] *)

(** The six strings [get_grade] returns, as an enumeration; [grade_label]
    is the string. *)
Inductive letter_grade := A_plus | A_grade | B_plus | B_grade | C_grade | DF_grade.

Definition grade_label (g : letter_grade) : str :=
  match g with
  | A_plus => py "A+ (Excellent - sounds like Cambio Labs)"
  | A_grade => py "A (Very Good - minor tweaks needed)"
  | B_plus => py "B+ (Good - some revisions needed)"
  | B_grade => py "B (Acceptable - needs improvement)"
  | C_grade => py "C (Weak - significant revisions needed)"
  | DF_grade => py "D/F (Poor - does not sound like Cambio Labs)"
  end.

Definition get_grade (score : Z) : letter_grade :=
  if (95 <=? score)%Z then A_plus
  else if (90 <=? score)%Z then A_grade
  else if (85 <=? score)%Z then B_plus
  else if (80 <=? score)%Z then B_grade
  else if (70 <=? score)%Z then C_grade
  else DF_grade.

(** *** [calculate_voice_score] *)

Record voice_evaluation :=
  { score : Z;
    grade : letter_grade;
    issues : list str;
    buzzwords : nat;
    missing_required : nat;
    vague_count : nat }.

(** The state of the scoring loops: the running [score] and the [issues]
    appended so far. *)
Definition tally := (Z * list str)%type.

Definition buzzword_issue (v : violation) : str :=
  py "AI buzzword: '" ++ buzzword v ++ py "'".

Definition vague_language_issue (v : vague_issue) : str :=
  py "Vague language: '" ++ word v ++ py "'".

(** [for violation in buzzword_violations: score -= 5; issues.append(...)] *)
Definition tally_buzzwords (vs : list violation) (t : tally) : tally :=
  fold_left (fun t v => ((fst t - 5)%Z, snd t ++ [buzzword_issue v])) vs t.

(** [for missing in missing_language: score -= 10; issues.append(...)] *)
Definition tally_missing (ms : list missing_item) (t : tally) : tally :=
  fold_left (fun t x => ((fst t - 10)%Z, snd t ++ [issue x])) ms t.

(** [for vague in vague_language[:5]: score -= 3; issues.append(...)] *)
Definition tally_vague (vs : list vague_issue) (t : tally) : tally :=
  fold_left (fun t v => ((fst t - 3)%Z, snd t ++ [vague_language_issue v]))
            (firstn 5 vs) t.

(** [for phrase in phrases: if phrase.lower() in text.lower(): score += 5; break] *)
Definition phrase_bonus (text : str) (phrases : list str) (sc : Z) : Z :=
  if existsb (fun phrase => contains (lower phrase) (lower text)) phrases
  then (sc + 5)%Z else sc.

(** [for category in SIGNATURE_PHRASES.values(): ...] *)
Definition signature_bonus (text : str) (sc : Z) : Z :=
  fold_left
    (fun sc entry =>
       match snd entry with
       | PhraseDict groups =>
           fold_left (fun sc g => phrase_bonus text (snd g) sc) groups sc
       | PhraseList phrases => phrase_bonus text phrases sc
       end)
    SIGNATURE_PHRASES sc.

(** The value of [score] before the final clamp, with the issues. *)
Definition raw_tally (text section_name : str) : tally :=
  let t0 : tally := (100%Z, []) in
  let t1 := tally_buzzwords (check_ai_buzzwords text) t0 in
  let t2 := tally_missing (check_required_language text section_name) t1 in
  let t3 := tally_vague (check_specificity text) t2 in
  (signature_bonus text (fst t3), snd t3).

Definition calculate_voice_score (text section_name : str) : voice_evaluation :=
  let t := raw_tally text section_name in
  let sc := Z.min 100 (Z.max 0 (fst t)) in
  {| score := sc;                    (* round(score, 1) of an integer *)
     grade := get_grade sc;
     issues := snd t;
     buzzwords := length (check_ai_buzzwords text);
     missing_required := length (check_required_language text section_name);
     vague_count := length (check_specificity text) |}.

End VoiceGuidelines.

(** ** [config/settings.py] *)

Module Settings.

Definition CHUNK_SIZE : Z := 1500.
Definition CHUNK_OVERLAP : Z := 200.

Definition DEFAULT_SECTIONS : list str :=
  map py [ "Executive Summary"; "Need Statement"; "Project Description";
           "Methodology"; "Evaluation Plan"; "Budget Narrative" ]%string.

Definition TEMPERATURE : Q := 7 # 10.
Definition MAX_TOKENS : Z := 2000.

End Settings.

(** ** [src/rag/enhanced_vector_store.py] *)

Module EnhancedVectorStore.

Import Re.

(** *** Content extraction *)

Section Extraction.

(** The document metadata dictionary, copied into every fragment. *)
Variable metadata : Type.

(** An extracted item: the keys [text], [category] and, for a program
    description, [program], over the keys of the metadata. *)
Record fragment :=
  { text : str; category : str; program : option str; meta : metadata }.

(** [[^.!?]{lo,hi}] and [[.!?]] *)
Definition body (lo hi : nat) : regex := between (none_of ".!?") lo hi.
Definition stop : regex := Cls (one_of ".!?").

Definition mission_patterns : list regex :=
  [ cat [lit "we "; Opt (Grp 1 (lit "firmly ")); lit "believe that "; body 20 150; stop];
    cat [lit "when people "; Opt (Grp 1 (lit "gain ")); lit "access "; body 20 150; stop];
    cat [lit "entrepreneurship is "; Grp 1 (alt ["more than"; "not just"]); lit " ";
         body 20 150; stop];
    cat [lit "we champion "; body 20 150; stop];
    cat [lit "those "; Opt (Grp 1 (lit "who are ")); lit "closest to the issues ";
         body 20 150; stop] ]%string.

Definition empowerment_patterns : list regex :=
  [ cat [lit "for "; Grp 1 (alt ["thousands"; "hundreds"]); lit " of "; body 20 200; stop];
    cat [Grp 1 (alt ["more than"; "over"]); lit " "; plus digit; lit "%"; body 20 150; stop];
    cat [Grp 1 (alt ["untapped potential"; "community-powered prosperity"]);
         body 0 100; stop];
    cat [lit "transform"; Opt (lit "s"); lit " "; body 10 100; lit " into ";
         body 10 100; stop] ]%string.

Definition extract_voice_phrases (text : str) (md : metadata) : list fragment :=
  flat_map
    (fun pattern =>
       map (fun f =>
              let mt := match f with
                        | FTuple parts => hd [] parts   (* match[0] if match else the empty string *)
                        | FStr s => s
                        end in
              {| text := strip mt; category := py "mission";
                 program := None; meta := md |})
           (findall true pattern text))
    mission_patterns
  ++
  flat_map
    (fun pattern =>
       flat_map (fun f =>
              let full_match := match f with
                                | FTuple parts => concat parts   (* ''.join(match) *)
                                | FStr s => s
                                end in
              if 20 <? length full_match then
                [{| text := strip full_match; category := py "empowerment";
                    program := None; meta := md |}]
              else [])
           (findall true pattern text))
    empowerment_patterns.

Definition number_patterns : list regex :=
  [ cat [plus digit; lit "+ ";
         Grp 1 (alt ["signups"; "participants"; "residents"; "entrepreneurs"]);
         body 0 150; stop];
    cat [plus digit; lit "%"; body 5 150; stop];
    cat [lit "$"; plus (digit_or ","); lit " "; body 5 100; stop];
    cat [Grp 1 (alt ["over"; "more than"; "less than"; "under"]); lit " "; plus digit;
         lit " "; body 10 150; stop];
    cat [plus digit; lit " ";
         Grp 1 (alt_re [ cat [lit "week"; Opt (lit "s")]; cat [lit "month"; Opt (lit "s")];
                         cat [lit "year"; Opt (lit "s")]; cat [lit "hour"; Opt (lit "s")] ]);
         body 10 150; stop] ]%string.

Definition extract_data_metrics (text : str) (md : metadata) : list fragment :=
  flat_map
    (fun pattern =>
       flat_map (fun f =>
              let full_match := match f with
                                | FTuple parts => concat parts   (* ''.join(match) *)
                                | FStr s => s
                                end in
              if 10 <? length full_match then
                [{| text := strip full_match; category := py "statistics";
                    program := None; meta := md |}]
              else [])
           (findall true pattern text))
    number_patterns.

Definition dquote : ascii := ascii_of_nat 34.

(** A quotation mark, then [([^q]{20,300})] for [q] the quotation mark,
    then a quotation mark; listed twice in the source. *)
Definition quote_pattern : regex :=
  cat [ Chr dquote;
        Grp 1 (Rep {| negated := true; digits := false; chars := [dquote] |} 20 (Some 300));
        Chr dquote ].

Definition quote_patterns : list regex := [quote_pattern; quote_pattern].

Definition extract_participant_voices (text : str) (md : metadata) : list fragment :=
  flat_map
    (fun pattern =>
       flat_map (fun f =>
              let mt := match f with FTuple parts => concat parts | FStr s => s end in
              if negb (existsb (fun x => contains (py x) (lower mt))
                               ["http"; "www"; "@"]%string)
              then [{| text := strip mt; category := py "testimonial";
                       program := None; meta := md |}]
              else [])
           (findall false pattern text))
    quote_patterns.

Definition codesign_patterns : list regex :=
  [ cat [lit "co-design"; Opt (Grp 1 (lit "ed")); lit " with "; body 10 150; stop];
    cat [lit "co-creat"; Opt (Grp 1 (lit "ed")); lit " with "; body 10 150; stop];
    cat [Grp 1 (alt ["designed"; "developed"]); lit " ";
         Grp 2 (alt ["in partnership"; "in collaboration"]); lit " with ";
         body 10 150; stop];
    cat [Grp 1 (alt ["center"; "centering"]); lit " "; body 5 50;
         Grp 2 (alt ["as experts"; "as leaders"]); body 0 100; stop];
    cat [lit "tenant leader"; Opt (lit "s"); lit " "; body 10 150; stop];
    cat [lit "user-centered design"; body 10 150; stop] ]%string.

Definition nonempty (s : str) : bool :=
  match s with [] => false | _ :: _ => true end.

Definition extract_codesign_language (text : str) (md : metadata) : list fragment :=
  flat_map
    (fun pattern =>
       flat_map (fun f =>
              let full_match :=
                match f with
                | FTuple parts => join (py " ") (filter nonempty parts)
                    (* ' '.join(str(m) for m in match if m) *)
                | FStr s => s
                end in
              if 15 <? length full_match then
                [{| text := strip full_match; category := py "codesign";
                    program := None; meta := md |}]
              else [])
           (findall true pattern text))
    codesign_patterns.

Definition program_names : list string :=
  [ "Journey Platform"; "Journey"; "StartUp NYCHA"; "Startup NYCHA"; "Cambio Solar";
    "Cambio Coding"; "Cambio Coding & AI"; "Social Entrepreneurship Incubator" ]%string.

(** [(?i)([^.!?]*{program_name}[^.!?]{0,200}[.!?])] *)
Definition program_pattern (program_name : string) : regex :=
  Grp 1 (cat [star (none_of ".!?"); lit program_name; body 0 200; stop]).

Definition extract_program_descriptions (text : str) (md : metadata) : list fragment :=
  flat_map
    (fun program_name =>
       flat_map (fun f =>
              let mt := match f with FTuple parts => concat parts | FStr s => s end in
              if 30 <? length mt then
                [{| text := strip mt; category := py "program_description";
                    program := Some (py program_name); meta := md |}]
              else [])
           (findall true (program_pattern program_name) text))
    program_names.

End Extraction.

(** *** [chunk_text] *)

(** [s[a:b]] for any integers: a negative index counts from the end, and
    both are clipped to the string. *)
Definition clip (len i : Z) : Z :=
  if (i <? 0)%Z then Z.max 0 (len + i) else Z.min i len.

Definition zslice (s : str) (a b : Z) : str :=
  let len := Z.of_nat (length s) in
  slice s (Z.to_nat (clip len a)) (Z.to_nat (clip len b)).

Definition period : ascii := ascii_of_nat 46.
Definition newline : ascii := ascii_of_nat 10.

(** One pass through the body of the [while] loop: the chunk appended and
    the next value of [start].  The test [break_point > chunk_size * 0.7]
    is taken over the rationals. *)
Definition chunk_step (text : str) (chunk_size overlap start : Z) : str * Z :=
  let end_ := (start + chunk_size)%Z in
  let chunk := zslice text start end_ in
  if (end_ <? Z.of_nat (length text))%Z then
    let last_period := rfind_char period chunk in
    let last_newline := rfind_char newline chunk in
    let break_point := Z.max last_period last_newline in
    if (7 * chunk_size <? 10 * break_point)%Z then
      (strip (zslice chunk 0 (break_point + 1)),
       (start + break_point + 1 - overlap)%Z)
    else (strip chunk, (end_ - overlap)%Z)
  else (strip chunk, (end_ - overlap)%Z).

(** [while start < len(text)], with [fuel] bounding the number of passes;
    [None] when the fuel runs out before the loop ends. *)
Fixpoint chunk_loop (fuel : nat) (text : str) (chunk_size overlap start : Z)
    (chunks : list str) : option (list str) :=
  if (start <? Z.of_nat (length text))%Z then
    match fuel with
    | O => None
    | S fuel' =>
        let (chunk, next) := chunk_step text chunk_size overlap start in
        chunk_loop fuel' text chunk_size overlap next (chunks ++ [chunk])
    end
  else Some chunks.

Definition chunk_text (fuel : nat) (text : str) (chunk_size overlap : Z)
  : option (list str) :=
  if (Z.of_nat (length text) <=? chunk_size)%Z then Some [text]
  else chunk_loop fuel text chunk_size overlap 0 [].

(** *** Multi-layer retrieval *)

Inductive collection :=
| full_content | voice_phrases | data_metrics
| participant_voices | codesign_examples | program_descriptions.

Section Retrieval.

(** Embedding vectors, stored metadata and distances are the database's. *)
Variables (embedding metadata distance : Type).

(** One hit of a query, as the three parallel lists of the database give
    it; the distance is absent when the answer has no [distances] key. *)
Record hit := { h_text : str; h_metadata : metadata; h_distance : option distance }.

(** The answer of [collection.query]: one list of hits per query embedding. *)
Definition raw_results := list (list hit).

(** The embedding provider and the database; [None] is a raised exception. *)
Variable embed_text : str -> option embedding.
Variable query : collection -> embedding -> nat -> option raw_results.

Definition _format_results (raw : raw_results) : list hit :=
  match raw with
  | first :: _ => first
  | [] => []
  end.

Record results :=
  { content : list hit; voice : list hit; data : list hit;
    quotes : list hit; codesign : list hit; programs : list hit }.

Definition quote_sections : list str := [py "need statement"; py "evaluation plan"].
Definition codesign_sections : list str := [py "methodology"; py "project description"].

Definition bind {A B} (x : option A) (f : A -> option B) : option B :=
  match x with Some a => f a | None => None end.

Definition retrieve_multi_layer (q section_name : str)
    (n_content n_voice n_data n_quotes n_codesign n_programs : nat) : option results :=
  bind (embed_text q) (fun query_embedding =>
  bind (query full_content query_embedding n_content) (fun content_results =>
  bind (query voice_phrases query_embedding n_voice) (fun voice_results =>
  bind (query data_metrics query_embedding n_data) (fun data_results =>
  bind (if mem (lower section_name) quote_sections
        then option_map _format_results (query participant_voices query_embedding n_quotes)
        else Some []) (fun quotes_ =>
  bind (if mem (lower section_name) codesign_sections
        then option_map _format_results (query codesign_examples query_embedding n_codesign)
        else Some []) (fun codesign_ =>
  bind (query program_descriptions query_embedding n_programs) (fun program_results =>
  Some {| content := _format_results content_results;
          voice := _format_results voice_results;
          data := _format_results data_results;
          quotes := quotes_;
          codesign := codesign_;
          programs := _format_results program_results |}))))))).

End Retrieval.

End EnhancedVectorStore.

(** ** Calls to the language model *)

Module Llm.

(** What [client.chat.completions.create] does: it answers with a message
    and the tokens it used, or it raises. *)
Inductive llm_outcome :=
| Completion (content : str) (total_tokens : Z)
| ApiError.

(** The outcome of a method: a returned value, or an exception that leaves
    the method. *)
Inductive outcome (A : Type) :=
| Returned (a : A)
| Raised.

Arguments Returned {A} a.
Arguments Raised {A}.

End Llm.

(** ** [src/generation/enhanced_generator.py] *)

Module EnhancedGenerator.

Import Llm VoiceGuidelines.

(** An entry of the [attempts] list. *)
Record attempt_record :=
  { attempt : nat; a_score : Z; tokens : Z; a_issues : list str }.

(** The dictionary [generate_section] returns ([text] and [voice_score] may
    be [None]; the constant [model] entry is left out). *)
Record section_result :=
  { text : option str;
    section_name : str;
    voice_score : option Z;
    tokens_used : Z;
    attempts : list attempt_record }.

(** The local variables of the retry loop; [l_tokens_used] is unbound until
    a call to the model has completed. *)
Record locals :=
  { best_text : option str;
    best_score : option Z;
    l_attempts : list attempt_record;
    l_tokens_used : option Z;
    temperature : Q }.

Section Generator.

(** The fields of the generator object. *)
Variables (auto_validate auto_fix : bool).
Definition min_voice_score : Z := 85.

(** The language model: the outcome of the call made at a given attempt
    with a given temperature.  The prompt is built from the retrieved
    context and does not change between attempts. *)
Variable llm : nat -> Q -> llm_outcome.

(** [score > best_score]; [best_score] is [None] only on the branch that
    leaves the loop at once. *)
Definition beats (sc : Z) (best : option Z) : bool :=
  match best with Some b => (b <? sc)%Z | None => false end.

(** [for attempt in range(max_attempts)], from [attempt] on with
    [remaining] passes to go. *)
Fixpoint attempt_loop (name : str) (max_attempts remaining attempt : nat)
    (st : locals) : outcome locals :=
  match remaining with
  | O => Returned st
  | S remaining' =>
      match llm attempt (temperature st) with
      | ApiError =>
          (* except Exception: if attempt == max_attempts - 1: raise *)
          if attempt =? max_attempts - 1 then Raised
          else attempt_loop name max_attempts remaining' (S attempt) st
      | Completion content total_tokens =>
          let generated_text := strip content in
          if auto_validate then
            let voice_evaluation := calculate_voice_score generated_text name in
            let sc := score voice_evaluation in
            let st1 :=
              if beats sc (best_score st)
              then {| best_text := Some generated_text; best_score := Some sc;
                      l_attempts := l_attempts st;
                      l_tokens_used := Some total_tokens;
                      temperature := temperature st |}
              else {| best_text := best_text st; best_score := best_score st;
                      l_attempts := l_attempts st;
                      l_tokens_used := Some total_tokens;
                      temperature := temperature st |} in
            let st2 :=
              {| best_text := best_text st1; best_score := best_score st1;
                 l_attempts := l_attempts st1 ++
                   [{| attempt := attempt + 1; a_score := sc; tokens := total_tokens;
                       a_issues := issues voice_evaluation |}];
                 l_tokens_used := l_tokens_used st1;
                 temperature := temperature st1 |} in
            if (min_voice_score <=? sc)%Z || negb auto_fix then Returned st2   (* break *)
            else if attempt <? max_attempts - 1 then
              attempt_loop name max_attempts remaining' (S attempt)
                {| best_text := best_text st2; best_score := best_score st2;
                   l_attempts := l_attempts st2; l_tokens_used := l_tokens_used st2;
                   temperature := Qmin (9 # 10) (temperature st2 + (1 # 10)) |}
            else attempt_loop name max_attempts remaining' (S attempt) st2
          else
            (* no validation: use the first generation *)
            Returned {| best_text := Some generated_text; best_score := None;
                        l_attempts := l_attempts st;
                        l_tokens_used := Some total_tokens;
                        temperature := temperature st |}
      end
  end.

Definition sum_tokens (l : list attempt_record) : Z :=
  fold_right (fun a acc => (tokens a + acc)%Z) 0%Z l.

(** [generate_section]; [retrieved] tells whether the retrieval that
    precedes the loop returned (it raises when the embedding provider or
    the database does). *)
Definition generate_section (retrieved : bool) (name : str) (temp : Q)
    (max_attempts : nat) : outcome section_result :=
  if negb retrieved then Raised else
  match attempt_loop name max_attempts max_attempts 0
          {| best_text := None; best_score := Some 0%Z; l_attempts := [];
             l_tokens_used := None; temperature := temp |} with
  | Raised => Raised
  | Returned st =>
      (* sum(a['tokens'] for a in attempts) if attempts else tokens_used *)
      match l_attempts st, l_tokens_used st with
      | [], None => Raised                       (* tokens_used is unbound *)
      | [], Some t =>
          Returned {| text := best_text st; section_name := name;
                      voice_score := best_score st; tokens_used := t;
                      attempts := [] |}
      | _ :: _, _ =>
          Returned {| text := best_text st; section_name := name;
                      voice_score := best_score st;
                      tokens_used := sum_tokens (l_attempts st);
                      attempts := l_attempts st |}
      end
  end.

End Generator.

(** *** [generate_full_application] *)

(** A dictionary keeps its keys in insertion order; an assignment to a key
    that is present replaces the value in place. *)
Fixpoint dict_set {V} (k : str) (v : V) (d : list (str * V)) : list (str * V) :=
  match d with
  | [] => [(k, v)]
  | (k', v') :: d' => if str_eqb k k' then (k, v) :: d' else (k', v') :: dict_set k v d'
  end.

Record section_meta :=
  { sm_voice_score : option Z; sm_tokens_used : Z; sm_attempts : list attempt_record }.

Record app_metadata :=
  { total_tokens : Z;
    sections_generated : nat;
    voice_scores : list (str * Z);
    avg_voice_score : Q }.

Record application :=
  { sections : list (str * option str);
    section_metadata : list (str * section_meta);
    metadata : app_metadata }.

(** The binary64 float nearest to an integer (the integer itself below
    [2^53]). *)
Definition float_of_Z (z : Z) : SpecFloat.spec_float :=
  SpecFloat.binary_normalize 53 1024 z 0 false.

(** The number a finite float stands for. *)
Definition float_value (f : SpecFloat.spec_float) : Q :=
  match f with
  | SpecFloat.S754_finite s m e =>
      let n := if s then Z.neg m else Z.pos m in
      if (0 <=? e)%Z then inject_Z (n * 2 ^ e)
      else n # (2 ^ Z.to_pos (- e))%positive
  | _ => 0
  end.

(** [a / b] on floats: the quotient rounded to the nearest binary64
    number, a tie going to the even mantissa, as IEEE 754 division does. *)
Definition float_quotient (a b : Z) : Q :=
  float_value (SpecFloat.SFdiv 53 1024 (float_of_Z a) (float_of_Z b)).

(** [round(x, 1)] of a float: the decimal with one digit that is nearest
    to the exact value of the float, a tie going to the even digit (the
    float returned is the one nearest to that decimal). *)
Definition round1 (x : Q) : Q :=
  let n := (Qnum x * 10)%Z in
  let d := Zpos (Qden x) in
  let fl := (n / d)%Z in
  let r := (n mod d)%Z in
  let up :=
    match (2 * r ?= d)%Z with
    | Lt => false
    | Gt => true
    | Eq => Z.odd fl
    end in
  (if up then fl + 1 else fl)%Z # 10.

(** The local variables of the loop over the sections. *)
Record app_locals :=
  { app : application; total_score : Z; sections_with_scores : nat }.

(** [if result.get("voice_score")]: a number that is not zero. *)
Definition truthy (v : option Z) : bool :=
  match v with Some s => negb (s =? 0)%Z | None => false end.

Section FullApplication.

Variables (auto_validate auto_fix : bool).

(** The language model, by the position of the section in the list, the
    attempt and the temperature; and whether the retrieval of that section
    returned. *)
Variable llm : nat -> nat -> Q -> llm_outcome.
Variable retrieved : nat -> bool.

(** The body of [for i, section_name in enumerate(sections, 1)]. *)
Definition record_section (name : str) (result : section_result) (st : app_locals)
  : app_locals :=
  let a := app st in
  let md := metadata a in
  let a1 :=
    {| sections := dict_set name (text result) (sections a);
       section_metadata :=
         dict_set name {| sm_voice_score := voice_score result;
                          sm_tokens_used := tokens_used result;
                          sm_attempts := attempts result |} (section_metadata a);
       metadata := {| total_tokens := (total_tokens md + tokens_used result)%Z;
                      sections_generated := sections_generated md;
                      voice_scores := voice_scores md;
                      avg_voice_score := avg_voice_score md |} |} in
  match voice_score result with
  | Some vs =>
      if truthy (voice_score result) then
        {| app := {| sections := sections a1;
                     section_metadata := section_metadata a1;
                     metadata := {| total_tokens := total_tokens (metadata a1);
                                    sections_generated := sections_generated md;
                                    voice_scores := dict_set name vs (voice_scores md);
                                    avg_voice_score := avg_voice_score md |} |};
           total_score := (total_score st + vs)%Z;
           sections_with_scores := S (sections_with_scores st) |}
      else {| app := a1; total_score := total_score st;
              sections_with_scores := sections_with_scores st |}
  | None => {| app := a1; total_score := total_score st;
               sections_with_scores := sections_with_scores st |}
  end.

Fixpoint sections_loop (names : list str) (i : nat) (temp : Q) (st : app_locals)
  : outcome app_locals :=
  match names with
  | [] => Returned st
  | name :: names' =>
      match generate_section auto_validate auto_fix (llm i) (retrieved i) name temp 3 with
      | Raised => Raised
      | Returned result => sections_loop names' (S i) temp (record_section name result st)
      end
  end.

Definition generate_full_application (sections_arg : list str) (temp : Q)
  : outcome application :=
  (* sections = sections or DEFAULT_SECTIONS *)
  let names := match sections_arg with [] => Settings.DEFAULT_SECTIONS | _ => sections_arg end in
  let init :=
    {| app := {| sections := []; section_metadata := [];
                 metadata := {| total_tokens := 0; sections_generated := length names;
                                voice_scores := []; avg_voice_score := 0 |} |};
       total_score := 0; sections_with_scores := 0 |} in
  match sections_loop names 0 temp init with
  | Raised => Raised
  | Returned st =>
      let a := app st in
      let md := metadata a in
      if 0 <? sections_with_scores st then
        Returned
          {| sections := sections a; section_metadata := section_metadata a;
             metadata :=
               {| total_tokens := total_tokens md;
                  sections_generated := sections_generated md;
                  voice_scores := voice_scores md;
                  avg_voice_score :=
                    round1 (float_quotient (total_score st)
                              (Z.of_nat (sections_with_scores st))) |} |}
      else Returned a
  end.

End FullApplication.

End EnhancedGenerator.

(** ** [src/generation/generator.py] *)

Module Generator.

Import Llm.


Section Text.

(** [refine_section] reads its texts through [len], [count], [in] and the
    methods [lower] and [strip] only, so it is embedded over the characters
    of Python as they are: any type of characters with an equality test,
    among them the characters of the constants of the source, and the two
    methods as Python has them. *)
Variable char : Type.
Variable char_eq_dec : forall a b : char, {a = b} + {a <> b}.
Variable of_ascii : ascii -> char.
Variables str_lower str_strip : list char -> list char.

Definition text : Type := list char.










End Text.

End Generator.

(** ** Further vocabulary of the voice validator *)

Module VoiceBonusSpec.

Import VoiceGuidelines.

(** The phrase groups that can earn the bonus: a list category is one
    group, a dictionary category gives one group for each of its lists. *)
Definition groups_of (entry : str * phrase_category) : list (list str) :=
  match snd entry with
  | PhraseList phrases => [phrases]
  | PhraseDict groups => map snd groups
  end.

Definition phrase_groups : list (list str) := flat_map groups_of SIGNATURE_PHRASES.

(** A group is hit when one of its phrases occurs in the text, case
    ignored. *)
Definition group_hit (text : str) (phrases : list str) : bool :=
  existsb (fun phrase => contains (lower phrase) (lower text)) phrases.

Definition groups_hit (text : str) : nat :=
  length (filter (group_hit text) phrase_groups).

(** A text with a number and none of the words the validator looks for. *)
Definition clean_text : str := py "We trained 30 entrepreneurs in Harlem.".

(** A methodology text without co-design language. *)
Definition plain_methodology : str :=
  py "We recruit at Fulton Houses and teach 12 weekly workshops.".

End VoiceBonusSpec.

(** ** The dictionaries the extractors append *)

Module FragmentDict.

Import EnhancedVectorStore.

Section Dict.

(** The values of a dictionary that are not strings. *)
Variable object : Type.

Inductive value :=
| Text (s : str)
| Other (o : object).

(** A dictionary with string keys, in insertion order. *)
Definition dict : Type := list (str * value).

Definition dict_keys (d : dict) : list str := map fst d.

(** [d.get(k)] *)
Fixpoint dict_get (k : str) (d : dict) : option value :=
  match d with
  | [] => None
  | (k', v) :: d' => if str_eqb k k' then Some v else dict_get k d'
  end.

(** [{**d, **other}]: the items of [other] assigned to [d] in turn. *)
Definition dict_update (d other : dict) : dict :=
  fold_left (fun acc kv => EnhancedGenerator.dict_set (fst kv) (snd kv) acc) other d.

(** The dictionary literal of an extractor,
    [{text: ..., category: ..., **metadata}], with the key [program] after
    [text] for a program description: a key of the metadata that is also a
    key of the literal replaces the value the literal gave it. *)
Definition as_dict (f : fragment dict) : dict :=
  dict_update
    match program f with
    | None => [(py "text", Text (text f)); (py "category", Text (category f))]
    | Some p => [(py "text", Text (text f)); (py "program", Text p);
                 (py "category", Text (category f))]
    end
    (meta f).

End Dict.

Arguments Text {object} s.
Arguments Other {object} o.

End FragmentDict.

(** ** Further vocabulary of the extraction engine *)

Module ExtractionSpec.

Import EnhancedVectorStore FragmentDict.

(** [a] is a contiguous part of [s]. *)
Definition substring (a s : str) : Prop := exists u v, s = u ++ a ++ v.

(** The words the quotation filter looks for. *)
Definition link_marks : list str := [py "http"; py "www"; py "@"].

(** What every extractor but the co-design one keeps true of a fragment:
    its text is a contiguous part of the document and it carries the
    document's metadata. *)
Definition traceable {metadata : Type} (document : str) (md : metadata)
    (f : fragment metadata) : Prop :=
  substring (text f) document /\ meta f = md.

(** The dictionary has, under every key of the metadata, the value the
    metadata has there. *)
Definition carries {object : Type} (md d : dict object) : Prop :=
  forall k, In k (dict_keys md) -> dict_get k d = dict_get k (dict_update [] md).

(** The value under [text] is a string that is a contiguous part of the
    document. *)
Definition text_from {object : Type} (document : str) (d : dict object) : Prop :=
  exists t, dict_get (py "text") d = Some (Text t) /\ substring t document.

(** No mark of a link in the text, in any case. *)
Definition free_of_links (t : str) : bool :=
  forallb (fun x => negb (contains x (lower t))) link_marks.

(** The value under [text] is a string without a mark of a link. *)
Definition text_free_of_links {object : Type} (d : dict object) : Prop :=
  exists t, dict_get (py "text") d = Some (Text t) /\ free_of_links t = true.

(** A document with a figure, a program and two quotations, and the
    metadata of a file. *)
Definition sample_document : str :=
  py "We served 120+ participants in the first cohort of StartUp NYCHA. One founder said: "
  ++ [dquote] ++ py "The program gave me the tools to open my bakery." ++ [dquote]
  ++ py " Another wrote: "
  ++ [dquote] ++ py "Write to team@example.org for the full story." ++ [dquote].

Definition sample_metadata : dict unit :=
  [(py "filename", Text (py "report_2023.txt")); (py "source", Text (py "historical_grant"))].

End ExtractionSpec.

(** ** [src/rag/embeddings.py] *)

Module Embeddings.

Import Llm.

Section Embedder.

Variable embedding : Type.

(** [client.embeddings.create(input=batch, ...)] followed by the list of
    the embeddings of [response.data]; [None] is a raised exception. *)
Variable create : list str -> option (list embedding).

(** [range(0, stop, step)] for a positive [step]. *)
Definition range_step (stop step : nat) : list nat :=
  map (fun k => k * step) (seq 0 ((stop + step - 1) / step)).

(** [for i in range(0, len(texts), batch_size)], over the values of [i]
    that are left. *)
Fixpoint embed_batches (starts : list nat) (texts : list str) (batch_size : nat)
    (all_embeddings : list embedding) : outcome (list embedding) :=
  match starts with
  | [] => Returned all_embeddings
  | i :: starts' =>
      let batch := firstn batch_size (skipn i texts) in     (* texts[i:i + batch_size] *)
      match create batch with
      | None => Raised
      | Some batch_embeddings =>
          embed_batches starts' texts batch_size (all_embeddings ++ batch_embeddings)
      end
  end.

(** [embed_documents]; a [batch_size] of 0 makes [range] raise. *)
Definition embed_documents (texts : list str) (batch_size : nat)
  : outcome (list embedding) :=
  if batch_size =? 0 then Raised
  else embed_batches (range_step (length texts) batch_size) texts batch_size [].

End Embedder.

End Embeddings.

(** ** [add_document_enhanced] of [src/rag/enhanced_vector_store.py] *)

Module Ingestion.

Import Llm EnhancedVectorStore Embeddings.

(** [str(i)] *)
Definition decimal (i : nat) : str :=
  list_ascii_of_string (NilEmpty.string_of_uint (Nat.to_uint i)).

(** A method that adds to a log and returns or raises. *)
Definition run (S A : Type) : Type := S -> S * outcome A.

Definition ret {S A : Type} (a : A) : run S A := fun s => (s, Returned a).

Definition and_then {S A B : Type} (m : run S A) (f : A -> run S B) : run S B :=
  fun s =>
    match m s with
    | (s', Returned a) => f a s'
    | (s', Raised) => (s', Raised)
    end.

Notation "'let*' x ':=' m 'in' k" := (and_then m (fun x => k))
  (at level 10, x name, m at level 100, k at level 200).

Section AddDocument.

Variables (embedding metadata : Type).

(** The [filename] entry of the metadata, if there is one. *)
Variable filename : metadata -> option str.

(** The embedding provider. *)
Variable create : list str -> option (list embedding).

(** The metadata stored with a document: the copy of the document's
    metadata with [chunk_id] and [total_chunks] for a chunk, the extracted
    item itself for the other collections. *)
Inductive stored_metadata :=
| ChunkMetadata (md : metadata) (chunk_id total_chunks : nat)
| FragmentMetadata (f : fragment metadata).

(** The arguments of one call of [collection.add]. *)
Record add_call :=
  { to : collection;
    ids : list str;
    embeddings : list embedding;
    documents : list str;
    metadatas : list stored_metadata }.

(** The database: whether [collection.add] accepts the call (it raises
    otherwise). *)
Variable add : add_call -> bool.

(** The state threaded through the method: the calls of [collection.add]
    that were accepted, in order. *)
Definition log := list add_call.

Definition embed (texts : list str) : run log (list embedding) :=
  fun l => (l, embed_documents create texts 100).

Definition collection_add (call : add_call) : run log unit :=
  fun l => if add call then (l ++ [call], Returned tt) else (l, Raised).

(** [metadata.get("filename", "unknown")] *)
Definition doc_id_of (md : metadata) : str :=
  match filename md with Some f => f | None => py "unknown" end.

(** [[f"{doc_id}<kind>{i}" for i in range(n)]] *)
Definition ids_of (doc_id : str) (kind : string) (n : nat) : list str :=
  map (fun i => doc_id ++ py kind ++ decimal i) (seq 0 n).

(** [self.chunk_text(text)] with the configured size and overlap; the loop
    ends within [len(text)] passes. *)
Definition default_chunks (text : str) : list str :=
  match chunk_text (length text) text Settings.CHUNK_SIZE Settings.CHUNK_OVERLAP with
  | Some chunks => chunks
  | None => []
  end.

(** [[chunk.strip() for chunk in chunks if chunk and chunk.strip()]] *)
Definition kept_chunks (text : str) : list str :=
  map strip (filter (fun chunk => nonempty chunk && nonempty (strip chunk))
                    (default_chunks text)).

(** Step 1: the chunks of the full content. *)
Definition add_chunks (text : str) (md : metadata) : run log nat :=
  let chunks := kept_chunks text in
  match chunks with
  | _ :: _ =>
      let* embeddings_ := embed chunks in
      let doc_id := doc_id_of md in
      let ids_ := ids_of doc_id "_chunk_" (length chunks) in
      let metadatas_ :=
        map (fun i => ChunkMetadata md i (length chunks)) (seq 0 (length chunks)) in
      let* _ := collection_add {| to := full_content; ids := ids_;
                                  embeddings := embeddings_; documents := chunks;
                                  metadatas := metadatas_ |} in
      ret (length chunks)
  | [] => ret 0
  end.

(** Steps 2 to 6, which differ in the extractor, the collection and the
    infix of the ids only. *)
Definition add_fragments (c : collection) (kind : string) (md : metadata)
    (items : list (fragment metadata)) : run log nat :=
  match items with
  | _ :: _ =>
      let texts := map (@text metadata) items in
      let* embeddings_ := embed texts in
      let ids_ := ids_of (doc_id_of md) kind (length texts) in
      let* _ := collection_add {| to := c; ids := ids_; embeddings := embeddings_;
                                  documents := texts;
                                  metadatas := map FragmentMetadata items |} in
      ret (length items)
  | [] => ret (length items)
  end.

(** The [counts] dictionary, in the order of its keys. *)
Definition add_document_enhanced (text : str) (md : metadata)
  : run log (list (collection * nat)) :=
  let* n_content := add_chunks text md in
  let* n_voice :=
    add_fragments voice_phrases "_voice_" md (extract_voice_phrases text md) in
  let* n_data :=
    add_fragments data_metrics "_data_" md (extract_data_metrics text md) in
  let* n_quotes :=
    add_fragments participant_voices "_quote_" md (extract_participant_voices text md) in
  let* n_codesign :=
    add_fragments codesign_examples "_codesign_" md (extract_codesign_language text md) in
  let* n_programs :=
    add_fragments program_descriptions "_program_" md
      (extract_program_descriptions text md) in
  ret [ (full_content, n_content); (voice_phrases, n_voice); (data_metrics, n_data);
        (participant_voices, n_quotes); (codesign_examples, n_codesign);
        (program_descriptions, n_programs) ].

End AddDocument.

End Ingestion.

(** ** Further vocabulary of the ingestion *)

Module IngestionSpec.

Import Llm EnhancedVectorStore Embeddings Ingestion.

Section Expected.

Variables (embedding metadata : Type).
Variable filename : metadata -> option str.

(** The six collections, in the order in which a document is added. *)
Definition all_collections : list collection :=
  [ full_content; voice_phrases; data_metrics;
    participant_voices; codesign_examples; program_descriptions ].

(** The infix of the ids of a collection. *)
Definition kind_of (c : collection) : string :=
  match c with
  | full_content => "_chunk_"
  | voice_phrases => "_voice_"
  | data_metrics => "_data_"
  | participant_voices => "_quote_"
  | codesign_examples => "_codesign_"
  | program_descriptions => "_program_"
  end.

(** The texts a document gives to a collection. *)
Definition documents_for (text : str) (md : metadata) (c : collection) : list str :=
  match c with
  | full_content => kept_chunks text
  | voice_phrases => map (@EnhancedVectorStore.text _) (extract_voice_phrases text md)
  | data_metrics => map (@EnhancedVectorStore.text _) (extract_data_metrics text md)
  | participant_voices =>
      map (@EnhancedVectorStore.text _) (extract_participant_voices text md)
  | codesign_examples =>
      map (@EnhancedVectorStore.text _) (extract_codesign_language text md)
  | program_descriptions =>
      map (@EnhancedVectorStore.text _) (extract_program_descriptions text md)
  end.

(** A call that holds all the texts of a collection, at least one, with as
    many ids, all different, made of the file name, the infix of the
    collection and the index, and as many metadata entries. *)
Definition complete_call (text : str) (md : metadata) (c : collection)
    (call : add_call embedding metadata) : Prop :=
  to call = c
  /\ documents call = documents_for text md c
  /\ documents call <> []
  /\ ids call = ids_of (doc_id_of filename md) (kind_of c) (length (documents call))
  /\ NoDup (ids call)
  /\ length (metadatas call) = length (documents call).

(** The steps of [add_document_enhanced], one after the other: the counts
    of the steps that returned, or the exception of the first that raised. *)
Fixpoint in_turn {S : Type} (steps : list (collection * run S nat))
  : run S (list (collection * nat)) :=
  match steps with
  | [] => ret []
  | (c, m) :: steps' =>
      let* n := m in
      let* cnts := in_turn steps' in
      ret ((c, n) :: cnts)
  end.

(** What a step does to the log. *)
Definition step_adds (text : str) (md : metadata) (c : collection)
    (m : run (log embedding metadata) nat) : Prop :=
  forall l, exists new,
    fst (m l) = l ++ new
    /\ (new = [] \/ exists call, new = [call] /\ complete_call text md c call)
    /\ (forall n, snd (m l) = Returned n ->
          n = length (documents_for text md c)
          /\ (new = [] <-> documents_for text md c = [])).

Variable create : list str -> option (list embedding).
Variable add : add_call embedding metadata -> bool.

(** The step of a collection. *)
Definition step_of (text : str) (md : metadata) (c : collection)
  : run (log embedding metadata) nat :=
  match c with
  | full_content => add_chunks filename create add text md
  | voice_phrases =>
      add_fragments filename create add c "_voice_" md (extract_voice_phrases text md)
  | data_metrics =>
      add_fragments filename create add c "_data_" md (extract_data_metrics text md)
  | participant_voices =>
      add_fragments filename create add c "_quote_" md
        (extract_participant_voices text md)
  | codesign_examples =>
      add_fragments filename create add c "_codesign_" md
        (extract_codesign_language text md)
  | program_descriptions =>
      add_fragments filename create add c "_program_" md
        (extract_program_descriptions text md)
  end.

End Expected.

End IngestionSpec.

(** ** [rebuild_enhanced_database.py] *)

Module RebuildDatabase.

Import Llm Re EnhancedVectorStore Embeddings Ingestion.

(** The metadata of a file: the keys [filename], [source], [file_path],
    [grant_type] and, when a year is found, [year]. *)
Record file_metadata :=
  { md_filename : str;
    md_source : str;
    md_file_path : str;
    md_grant_type : str;
    md_year : option str }.

(** The chain [if ... in filename: ... elif ...] on the file name. *)
Definition infer_grant_type (filename : str) : str :=
  if contains (py "StartUp NYCHA") filename || contains (py "Startup NYCHA") filename
  then py "StartUp NYCHA"
  else if contains (py "Journey") filename then py "Journey Platform"
  else if contains (py "Solar") filename || contains (py "Cambio Solar") filename
  then py "Cambio Solar"
  else if contains (py "Coding") filename || contains (py "AI") filename
  then py "Cambio Coding & AI"
  else if contains (py "AWS") filename then py "AWS"
  else if contains (py "BRL") filename || contains (py "Catalyst") filename
  then py "BRL Catalyst"
  else py "General".

(** [20\d{2}] *)
Definition year_pattern : regex := cat [lit "20"; between digit 2 2].

(** [re.search(r'20\d{2}', filename)] and [year_match.group(0)] *)
Definition infer_year (filename : str) : option str :=
  match finditer false year_pattern filename with
  | year_match :: _ => Some (group0 filename year_match)
  | [] => None
  end.

(** A file of the directory: its name, its path, and the text the reading
    gives, [None] when every way of reading it raises. *)
Record grant_file := { f_name : str; f_path : str; f_read : option str }.

Definition metadata_of (f : grant_file) : file_metadata :=
  {| md_filename := f_name f;
     md_source := py "historical_grant";
     md_file_path := f_path f;
     md_grant_type := infer_grant_type (f_name f);
     md_year := infer_year (f_name f) |}.

(** The three counters of the loop. *)
Record progress := { total_items : nat; successful : nat; failed : nat }.

Section Rebuild.

Variable embedding : Type.

(** The embedding provider and the database. *)
Variable create : list str -> option (list embedding).
Variable add : add_call embedding file_metadata -> bool.

(** The store: the calls of [add] it has accepted since it was created or
    cleared. *)
Definition store := log embedding file_metadata.

(** [sum(counts.values())] *)
Definition sum_counts (counts : list (collection * nat)) : nat :=
  list_sum (map snd counts).

Definition one_more_failed (p : progress) : progress :=
  {| total_items := total_items p; successful := successful p; failed := S (failed p) |}.

(** The body of the loop over the files: an exception anywhere in it
    counts the file as failed and the loop goes on. *)
Definition process_file (st : store * progress) (f : grant_file) : store * progress :=
  let (s, p) := st in
  match f_read f with
  | None => (s, one_more_failed p)
  | Some text =>
      if negb (nonempty (strip text)) then (s, one_more_failed p)   (* empty file *)
      else
        match add_document_enhanced (fun md => Some (md_filename md)) create add
                text (metadata_of f) s with
        | (s', Returned counts) =>
            (s', {| total_items := total_items p + sum_counts counts;
                    successful := S (successful p);
                    failed := failed p |})
        | (s', Raised) => (s', one_more_failed p)
        end
  end.

(** [rebuild_database]: the answer typed at the prompt, and the [.txt]
    files of the directory, [None] when the directory does not exist.  The
    result is the store and the counters, [None] when the function returns
    before the loop. *)
Definition rebuild_database (clear_existing : bool) (confirmation : str)
    (directory : option (list grant_file)) (s : store) : store * option progress :=
  if clear_existing && negb (str_eqb (lower confirmation) (py "yes")) then (s, None)
  else
    let s0 : store := if clear_existing then [] else s in
    match directory with
    | None => (s0, None)
    | Some [] => (s0, None)
    | Some grant_files =>
        let (s', p) :=
          fold_left process_file grant_files
            (s0, {| total_items := 0; successful := 0; failed := 0 |}) in
        (s', Some p)
    end.

End Rebuild.

End RebuildDatabase.

(** ** Further vocabulary of the rebuild *)

Module RebuildSpec.

Import Llm Re EnhancedVectorStore Embeddings Ingestion RebuildDatabase.




(** The texts of all the calls of a log. *)
Definition docs_in {embedding metadata : Type} (l : log embedding metadata) : nat :=
  list_sum (map (fun call => length (documents call)) l).

End RebuildSpec.

(** ** [format_retrieval_for_prompt] of [src/rag/enhanced_vector_store.py] *)

Module PromptContext.

Import EnhancedVectorStore Ingestion.

Section Format.

Variables (metadata distance : Type).

(** The entries [filename], [category] and [program] of a stored metadata,
    when present. *)
Variables (filename category_of program_of : metadata -> option str).

(** [d.get(key, default)] *)
Definition get (entry : option str) (default : str) : str :=
  match entry with Some v => v | None => default end.

(** [enumerate(items, 1)] *)
Definition enumerate1 {A : Type} (items : list A) : list (nat * A) :=
  combine (seq 1 (length items)) items.

(** The lines a list of hits adds to [output]: nothing for an empty list,
    else the heading and the lines of the items. *)
Definition block {A : Type} (items : list A) (heading : str) (lines : list str)
  : list str :=
  match items with
  | [] => []
  | _ :: _ => heading :: lines
  end.

Definition format_retrieval_for_prompt (r : results metadata distance) : str :=
  let output :=
    block (content r)
      (py "=== SIMILAR GRANT CONTENT (for structure and detail) ===")
      (flat_map
         (fun entry : nat * hit metadata distance =>
            let (i, item) := entry in
            let source := get (filename (h_metadata item)) (py "Unknown") in
            [ newline :: py "Example " ++ decimal i ++ py " (from " ++ source ++ py "):";
              h_text item ])
         (enumerate1 (content r)))
    ++ block (voice r)
      (newline :: newline ::
       py "=== AUTHENTIC CAMBIO LABS PHRASES (use these exact patterns) ===")
      (map (fun item =>
              py "- " ++ h_text item ++ py " ["
              ++ get (category_of (h_metadata item)) [] ++ py "]")
           (voice r))
    ++ block (data r)
      (newline :: newline :: py "=== SPECIFIC DATA POINTS (use these exact numbers) ===")
      (map (fun item => py "- " ++ h_text item) (data r))
    ++ block (quotes r)
      (newline :: newline :: py "=== PARTICIPANT VOICES (consider including) ===")
      (map (fun item => py "- " ++ dquote :: h_text item ++ [dquote]) (quotes r))
    ++ block (codesign r)
      (newline :: newline ::
       py "=== CO-DESIGN LANGUAGE (MUST INCLUDE SIMILAR PHRASING) ===")
      (map (fun item => py "- " ++ h_text item) (codesign r))
    ++ block (programs r)
      (newline :: newline :: py "=== PROGRAM DESCRIPTIONS (for accurate details) ===")
      (map (fun item =>
              newline :: py "[" ++ get (program_of (h_metadata item)) []
              ++ py "]: " ++ h_text item)
           (programs r)) in
  join [newline] output.

End Format.

End PromptContext.

(** ** Further vocabulary of the retrieval *)

Module PromptSpec.

Import EnhancedVectorStore.

(** All the hits of a retrieval. *)
Definition all_hits {metadata distance : Type} (r : results metadata distance)
  : list (hit metadata distance) :=
  content r ++ voice r ++ data r ++ quotes r ++ codesign r ++ programs r.

End PromptSpec.

(** ** Further vocabulary of the specificity check *)

Module SpecificitySpec.

Import Re VoiceGuidelines.

(** The character before offset [k] of a text that follows [prev]. *)
Definition prev_at (rest : str) (prev : option ascii) (k : nat) : option ascii :=
  match k with
  | 0 => prev
  | S j => nth_error rest j
  end.

(** The text starts with the lowercase word [w], case ignored. *)
Fixpoint ci_prefix (w rest : str) : bool :=
  match w, rest with
  | [], _ => true
  | c :: w', c' :: rest' => Ascii.eqb (lower_char c') c && ci_prefix w' rest'
  | _ :: _, [] => false
  end.

(** The word [w] stands at the start of the text, between two word
    boundaries. *)
Definition word_here (w rest : str) (prev : option ascii) : bool :=
  xorb (is_word_opt prev) (is_word_opt (hd_error rest))
  && ci_prefix w rest
  && xorb (is_word_opt (nth_error rest (length w - 1)))
          (is_word_opt (hd_error (skipn (length w) rest))).

(** The lowercase word [w] stands at offset [k] of the text, in any case,
    with no word character right before it or right after it. *)
Definition whole_word_at (w text : str) (k : nat) : Prop :=
  lower (firstn (length w) (skipn k text)) = w
  /\ is_word_opt (prev_at text None k) = false
  /\ is_word_opt (nth_error text (k + length w)) = false.

End SpecificitySpec.

(** ** Further vocabulary of the number check *)

Module NumbersSpec.

Import Re VoiceGuidelines.






End NumbersSpec.

(** ** [generate_section] and [generate_full_application] of
    [src/generation/generator.py] *)

Module BasicGenerator.

Import Llm.

(** The dictionary [generate_section] returns, without its [model] and
    [examples_used] entries, which [generate_full_application] does not
    read. *)
Record basic_result := { b_text : str; b_section_name : str; b_tokens_used : Z }.

(** The application: the [sections] dictionary and, of the metadata,
    [total_tokens] and [sections_generated]. *)
Record basic_application :=
  { b_sections : list (str * str);
    b_total_tokens : Z;
    b_sections_generated : nat }.

Section Basic.

(** Whether the search of the vector store returns, and the call of the
    model at a temperature. *)
Variable retrieved : bool.
Variable llm : Q -> llm_outcome.

(** The text is the content of the message as it is; an exception of the
    search or of the model leaves the method. *)
Definition generate_section (name : str) (temp : Q) : outcome basic_result :=
  if negb retrieved then Raised else
  match llm temp with
  | Completion generated_text tokens =>
      Returned {| b_text := generated_text; b_section_name := name;
                  b_tokens_used := tokens |}
  | ApiError => Raised
  end.

End Basic.

Section Application.

(** The search and the model, by the position of the section in the list. *)
Variable retrieved : nat -> bool.
Variable llm : nat -> Q -> llm_outcome.

(** [for section_name in sections], from position [i] on. *)
Fixpoint sections_loop (names : list str) (i : nat) (temp : Q)
    (application : basic_application) : outcome basic_application :=
  match names with
  | [] => Returned application
  | name :: names' =>
      match generate_section (retrieved i) (llm i) name temp with
      | Raised => Raised
      | Returned result =>
          sections_loop names' (S i) temp
            {| b_sections :=
                 EnhancedGenerator.dict_set name (b_text result) (b_sections application);
               b_total_tokens := (b_total_tokens application + b_tokens_used result)%Z;
               b_sections_generated := b_sections_generated application |}
      end
  end.

Definition generate_full_application (sections_arg : list str) (temp : Q)
  : outcome basic_application :=
  (* sections = sections or DEFAULT_SECTIONS *)
  let names := match sections_arg with [] => Settings.DEFAULT_SECTIONS | _ => sections_arg end in
  sections_loop names 0 temp
    {| b_sections := []; b_total_tokens := 0; b_sections_generated := length names |}.

End Application.

End BasicGenerator.

(** ** Further vocabulary of the basic generator *)

Module BasicSpec.

Import Llm.

(** The text and the tokens of a completed call. *)
Definition text_of (o : llm_outcome) : str :=
  match o with Completion content _ => content | ApiError => [] end.

Definition tokens_of (o : llm_outcome) : Z :=
  match o with Completion _ total_tokens => total_tokens | ApiError => 0%Z end.

(** The call for a section goes through: the search returns and the model
    answers. *)
Definition goes_through (retrieved : nat -> bool) (llm : nat -> Q -> llm_outcome)
    (temp : Q) (i : nat) : bool :=
  retrieved i && match llm i temp with Completion _ _ => true | ApiError => false end.

End BasicSpec.

(** ** [validate_and_report] of [src/generation/enhanced_generator.py] *)

Module Validation.

Import VoiceGuidelines.






End Validation.

(** ** Further vocabulary of the voice validator *)

Module ReportSpec.

Import VoiceGuidelines VoiceBonusSpec.



End ReportSpec.

(** ** Further vocabulary of the generation controller *)

Module RetrySpec.

Import Llm VoiceGuidelines EnhancedGenerator.

(** The loop variables after a completed, validated attempt. *)
Definition record_attempt (name : str) (st : locals) (attempt_no : nat)
    (content : str) (total_tokens : Z) : locals :=
  let t := strip content in
  let ev := calculate_voice_score t name in
  {| best_text := if beats (score ev) (best_score st) then Some t else best_text st;
     best_score := if beats (score ev) (best_score st) then Some (score ev)
                   else best_score st;
     l_attempts := l_attempts st ++
       [{| attempt := attempt_no; a_score := score ev; tokens := total_tokens;
           a_issues := issues ev |}];
     l_tokens_used := Some total_tokens;
     temperature := temperature st |}.

(** The loop variables with the temperature raised for the next attempt. *)
Definition warmer (st : locals) : locals :=
  {| best_text := best_text st; best_score := best_score st;
     l_attempts := l_attempts st; l_tokens_used := l_tokens_used st;
     temperature := Qmin (9 # 10) (temperature st + (1 # 10)) |}.

(** The loop variables at the start of [generate_section]. *)
Definition initial_locals (temp : Q) : locals :=
  {| best_text := None; best_score := Some 0%Z; l_attempts := [];
     l_tokens_used := None; temperature := temp |}.

(** The record of the attempt numbered [n] for a text [content]. *)
Definition attempt_of (name content : str) (total_tokens : Z) (n : nat) : attempt_record :=
  let ev := calculate_voice_score (strip content) name in
  {| attempt := n; a_score := score ev; tokens := total_tokens; a_issues := issues ev |}.

(** [min(0.9, temperature + 0.1)] *)
Definition warm (t : Q) : Q := Qmin (9 # 10) (t + (1 # 10)).

(** The temperature after [i] rises. *)
Definition nth_temperature (temp : Q) (i : nat) : Q := Nat.iter i warm temp.

(** The tokens of a list of section results. *)
Definition sum_tokens_used (rs : list section_result) : Z :=
  fold_right (fun r acc => (tokens_used r + acc)%Z) 0%Z rs.


(** The keys of a dictionary, in order. *)
Definition keys {V} (d : list (str * V)) : list str := map fst d.

(** What the loop keeps true of its records while it goes on. *)
Definition going_on (auto_fix : bool) (attempt : nat) (st : locals) : Prop :=
  length (l_attempts st) <= attempt
  /\ (auto_fix = true -> Forall (fun a => (a_score a < 85)%Z) (l_attempts st))
  /\ (auto_fix = false -> l_attempts st = [])
  /\ (l_tokens_used st = None <-> l_attempts st = []).

(** What is true of its records when it has ended. *)
Definition ended (auto_fix : bool) (bound : nat) (st : locals) : Prop :=
  length (l_attempts st) <= bound
  /\ (auto_fix = true -> Forall (fun a => (a_score a < 85)%Z) (removelast (l_attempts st)))
  /\ (auto_fix = false -> length (l_attempts st) <= 1)
  /\ (l_tokens_used st = None <-> l_attempts st = []).

(** The assignments [d[k] = v] of a loop, in order. *)
Definition assign_all {V} (l : list (str * V)) (d : list (str * V)) : list (str * V) :=
  fold_left (fun d p => dict_set (fst p) (snd p) d) l d.

(** An attempt below the threshold. *)
Definition low (a : attempt_record) : Prop := (a_score a < min_voice_score)%Z.

(** While the loop goes on with the automatic fix, no recorded attempt has
    reached the threshold, and once the counter is [max_attempts] the
    attempt recorded last, if any, is the one numbered [max_attempts]. *)
Definition not_yet_accepted (max_attempts attempt : nat) (st : locals) : Prop :=
  Forall low (l_attempts st)
  /\ (attempt = max_attempts ->
      l_attempts st = []
      \/ exists l a, l_attempts st = l ++ [a] /\ EnhancedGenerator.attempt a = max_attempts).

(** When it has ended: the attempt recorded last reached the threshold, or
    it is the one numbered [max_attempts]; the attempts before are low. *)
Definition accepted_or_exhausted (max_attempts : nat) (l_all : list attempt_record) : Prop :=
  exists l a,
    l_all = l ++ [a] /\ Forall low l
    /\ ((min_voice_score <= a_score a)%Z
        \/ (low a /\ EnhancedGenerator.attempt a = max_attempts)).

(** A text of 17 forbidden terms: it scores 15. *)
Definition weak_text : str :=
  py "leverage leverage leverage leverage leverage leverage leverage leverage leverage leverage leverage leverage leverage leverage leverage leverage leverage".

(** A language model that fails on its third call and before that answers
    with the weak text. *)
Definition llm_failing_last : nat -> Q -> llm_outcome :=
  fun i _ => if i =? 2 then ApiError else Completion weak_text 50.

(** A language model that fails once and then answers. *)
Definition llm_failing_first : nat -> Q -> llm_outcome :=
  fun i _ => if i =? 0 then ApiError else Completion (py "  We trained 30 entrepreneurs.  ") 40.

End RetrySpec.

(** * Properties *)

(** ** The vocabulary of the properties *)

Module VoiceSpec.

Import VoiceGuidelines.

(** The cutoffs of the grade mapping, and the band of a score: the number
    of cutoffs it reaches, from 0 (below 70) to 5 (95 and above). *)
Definition cutoffs : list Z := [70; 80; 85; 90; 95]%Z.

Definition band (s : Z) : nat := length (filter (fun c => (c <=? s)%Z) cutoffs).

(** The place of a grade in the order of the grades, lowest first. *)
Definition grade_rank (g : letter_grade) : nat :=
  match g with
  | DF_grade => 0 | C_grade => 1 | B_grade => 2
  | B_plus => 3 | A_grade => 4 | A_plus => 5
  end.

Definition all_grades : list letter_grade :=
  [DF_grade; C_grade; B_grade; B_plus; A_grade; A_plus].

(** Scenario B of the specification. *)
Definition scenario_B : str :=
  py "We leverage our innovative platform to ensure significant positive change for underserved communities.".

(** The issue recorded for a text without specific data. *)
Definition missing_data_issue : str := py "Vague language: '[no specific data]'".

(** The running score after the buzzword and required-language loops. *)
Definition points_before_specificity (text section_name : str) : Z :=
  fst (tally_missing (check_required_language text section_name)
         (tally_buzzwords (check_ai_buzzwords text) (100%Z, []))).

(** The score before the clamp when three points go for each vague
    quantifier, five of them at most, and three more for the missing data. *)
Definition points_with_missing_data (text section_name : str) : Z :=
  signature_bonus text
    (points_before_specificity text section_name
     - 3 * Z.of_nat (Nat.min 5 (length (vague_matches text))) - 3)%Z.

(** The missing-data rule as the specification words it, at one text. *)
Definition missing_data_rule (text section_name : str) : Prop :=
  200 < length text ->
  has_numbers text = false ->
  fst (raw_tally text section_name) = points_with_missing_data text section_name
  /\ In missing_data_issue (issues (calculate_voice_score text section_name)).

(** A text of 220 characters with five vague quantifiers and no number. *)
Definition five_vague_words : str :=
  py "Many families, many students, many mentors, many partners and many volunteers joined our programs across the city during the spring, and they stayed with each cohort through the final showcase at the neighborhood center.".

(** The sample text of the module's self test: 294 characters, two vague
    quantifiers, no number. *)
Definition bad_text : str :=
  py "At Cambio Labs, we are driven by a mission to challenge and change the systemic barriers that have long hindered opportunities. We leverage our innovative platform to catalyze significant positive change for underserved communities. Many participants have benefited from our robust programming.".

End VoiceSpec.

Module StoreSpec.

Import EnhancedVectorStore.

(** [s.split()]: the maximal runs of characters that are not whitespace;
    [cur] is the run being read, backwards. *)
Fixpoint split_ws (s cur : str) : list str :=
  match s with
  | [] => match cur with [] => [] | _ :: _ => [rev cur] end
  | c :: s' =>
      if is_space c then
        match cur with
        | [] => split_ws s' []
        | _ :: _ => rev cur :: split_ws s' []
        end
      else split_ws s' (c :: cur)
  end.

(** Whitespace normalization: the words of a text, one space apart. *)
Definition normalize_ws (s : str) : str := join (py " ") (split_ws s []).

(** A fragment is a verbatim substring of a document up to whitespace
    normalization. *)
Definition verbatim_substring (fragment_text document : str) : bool :=
  contains (normalize_ws fragment_text) (normalize_ws document).

(** A document with one sentence of co-design language. *)
Definition codesign_document : str :=
  py "We center community members as experts in design.".

(** Scenario A of the specification: the sentence, and the document that
    holds it and its full stop. *)
Definition fulton_sentence : str :=
  py "At our Fulton Houses pilot, we had 60+ signups in the first week".

Definition fulton_document : str := fulton_sentence ++ py ".".

(** A document in which a percentage opens the same sentence. *)
Definition fulton_document_with_percentage : str :=
  py "50% of people said: " ++ fulton_document.

(** A database for the examples: every collection answers any query with
    one hit, whose text is the name of the collection. *)
Definition sample_query (c : collection) (e n : nat) : option (raw_results unit nat) :=
  let name :=
    match c with
    | full_content => py "full_content"
    | voice_phrases => py "voice_phrases"
    | data_metrics => py "data_metrics"
    | participant_voices => py "participant_voices"
    | codesign_examples => py "codesign_examples"
    | program_descriptions => py "program_descriptions"
    end in
  Some [[ {| h_text := name; h_metadata := tt; h_distance := Some 0 |} ]].

Definition sample_embed (q : str) : option nat := Some (length q).

End StoreSpec.

Module GeneratorSpec.

Import Llm VoiceGuidelines EnhancedGenerator.

(** A text that scores 0: twenty forbidden terms. *)
Definition zero_text : str :=
  py "leverage leverage leverage leverage leverage leverage leverage leverage leverage leverage leverage leverage leverage leverage leverage leverage leverage leverage leverage leverage".

(** Texts that score 85 and 90. *)
Definition text_85 : str := py "leverage leverage leverage".
Definition text_90 : str := py "leverage leverage".

(** A language model that answers every call with the same text. *)
Definition constant_llm (content : str) (total_tokens : Z) : nat -> Q -> llm_outcome :=
  fun _ _ => Completion content total_tokens.

(** A language model that answers the calls for the i-th section with the
    i-th text of a list. *)
Definition llm_by_section (texts : list str) : nat -> nat -> Q -> llm_outcome :=
  fun i _ _ => Completion (nth i texts []) 10.

(** The highest score among the recorded attempts, 0 for none (a score is
    never negative). *)
Definition best_recorded (l : list attempt_record) : Z :=
  fold_right (fun a acc => Z.max (a_score a) acc) 0%Z l.

(** What the retry loop keeps true of its variables when validation is on:
    [best_score] is the highest score recorded so far, and [best_text] is
    a text with that score, or [None] while that score is still 0. *)
Definition keeps_best (name : str) (st : locals) : Prop :=
  best_score st = Some (best_recorded (l_attempts st))
  /\ match best_text st with
     | Some t => score (calculate_voice_score t name) = best_recorded (l_attempts st)
                 /\ (0 < best_recorded (l_attempts st))%Z
     | None => best_recorded (l_attempts st) = 0%Z
     end.

Definition sum_scores (l : list Z) : Z := fold_right Z.add 0%Z l.

(** The arithmetic mean of a list of scores that is not empty. *)
Definition exact_mean (l : list Z) : Q := sum_scores l # Pos.of_nat (length l).

(** [sections or DEFAULT_SECTIONS] *)
Definition effective_sections (sections_arg : list str) : list str :=
  match sections_arg with [] => Settings.DEFAULT_SECTIONS | _ => sections_arg end.

Section Runs.

Variables (auto_validate auto_fix : bool).
Variable llm : nat -> nat -> Q -> llm_outcome.
Variable retrieved : nat -> bool.

(** The results of [generate_section] for the sections of a list, in
    order, the first at position [i]. *)
Fixpoint run_sections (names : list str) (i : nat) (temp : Q)
  : outcome (list section_result) :=
  match names with
  | [] => Returned []
  | name :: names' =>
      match generate_section auto_validate auto_fix (llm i) (retrieved i) name temp 3 with
      | Raised => Raised
      | Returned result =>
          match run_sections names' (S i) temp with
          | Raised => Raised
          | Returned results => Returned (result :: results)
          end
      end
  end.

End Runs.

End GeneratorSpec.

Module RefineSpec.

Import Llm Generator.

Section Words.

Variable char : Type.
Variable char_eq_dec : forall a b : char, {a = b} + {a <> b}.
Variable of_ascii : ascii -> char.
Variables str_lower str_strip : list char -> list char.






End Words.




End RefineSpec.

(** ** Python strings *)

Section StringProofs.

Lemma startswith_spec (p s : str) :
  startswith p s = true <-> exists b, s = p ++ b.
Proof.
  revert s. induction p as [|a p IH]; intros s; simpl.
  - split; [intros _; now exists s | reflexivity].
  - destruct s as [|c s]; [split; [discriminate | intros [b H]; discriminate H]|].
    rewrite andb_true_iff, IH. split.
    + intros [Hac [b ->]]. apply Ascii.eqb_eq in Hac as ->. now exists b.
    + intros [b H]. injection H as -> ->. split; [apply Ascii.eqb_refl | now exists b].
Qed.

Lemma occurrences_from_spec (sub s : str) (pos : nat) :
  occurrences_from sub s pos <> [] <-> exists a b, s = a ++ sub ++ b.
Proof.
  revert pos. induction s as [|c s IH]; intros pos; simpl.
  - destruct (startswith sub []) eqn:E.
    + split; [intros _|discriminate].
      apply startswith_spec in E as [b E]. exists [], b. exact E.
    + split; [congruence|]. intros (a & b & H). exfalso.
      assert (Hs : startswith sub [] = true).
      { apply startswith_spec. destruct a; [now exists b | discriminate H]. }
      congruence.
  - destruct (startswith sub (c :: s)) eqn:E.
    + split; [intros _|discriminate].
      apply startswith_spec in E as [b E]. exists [], b. exact E.
    + simpl. rewrite IH. split.
      * intros (a & b & ->). now exists (c :: a), b.
      * intros (a & b & H). destruct a as [|c' a].
        -- exfalso. assert (Hs : startswith sub (c :: s) = true)
             by (apply startswith_spec; now exists b).
           congruence.
        -- injection H as -> ->. now exists a, b.
Qed.

(** [sub in s] holds exactly when [s] is some text, then [sub], then some
    text. *)
Lemma contains_spec (sub s : str) :
  contains sub s = true <-> exists a b, s = a ++ sub ++ b.
Proof.
  unfold contains, occurrences. rewrite <- (occurrences_from_spec sub s 0).
  destruct (occurrences_from sub s 0); split; congruence.
Qed.

End StringProofs.

(** ** Voice validator *)

Section VoiceProofs.

Import VoiceGuidelines VoiceSpec.

Lemma band_bound (s : Z) : band s <= 5.
Proof.
  unfold band, cutoffs. simpl.
  repeat match goal with |- context [(?c <=? s)%Z] => destruct (c <=? s)%Z end;
    simpl; lia.
Qed.

Lemma grade_rank_band (s : Z) : grade_rank (get_grade s) = band s.
Proof.
  unfold get_grade, band, cutoffs. simpl.
  destruct (Z.leb_spec 95 s); destruct (Z.leb_spec 90 s);
    destruct (Z.leb_spec 85 s); destruct (Z.leb_spec 80 s);
    destruct (Z.leb_spec 70 s); simpl; try reflexivity; lia.
Qed.

Lemma grade_rank_inj (g1 g2 : letter_grade) :
  grade_rank g1 = grade_rank g2 -> g1 = g2.
Proof. destruct g1, g2; simpl; intros H; try reflexivity; discriminate H. Qed.

Lemma band_monotone (s1 s2 : Z) : (s1 <= s2)%Z -> band s1 <= band s2.
Proof.
  intros H. unfold band, cutoffs. simpl.
  destruct (Z.leb_spec 70 s1); destruct (Z.leb_spec 80 s1);
    destruct (Z.leb_spec 85 s1); destruct (Z.leb_spec 90 s1);
    destruct (Z.leb_spec 95 s1);
    destruct (Z.leb_spec 70 s2); destruct (Z.leb_spec 80 s2);
    destruct (Z.leb_spec 85 s2); destruct (Z.leb_spec 90 s2);
    destruct (Z.leb_spec 95 s2); simpl; lia.
Qed.

Lemma score_clamped (text section_name : str) :
  (0 <= score (calculate_voice_score text section_name) <= 100)%Z.
Proof. unfold calculate_voice_score. simpl. lia. Qed.

(** C1. For every text and every section name the score of
    [calculate_voice_score] lies in [0,100] and the grade is [get_grade] of
    that score.  [get_grade] is a step function with six ordered bands cut
    at 70, 80, 85, 90 and 95: the rank of the grade is the band of the
    score, so two scores of one band get the same grade, a score of a
    higher band gets a strictly higher grade, the grade never goes down
    when the score goes up, each of the six grades is given to some score
    of the range, and the six grade strings differ. *)
Theorem voice_score_range_and_grade_bands (text section_name : str) :
  let r := calculate_voice_score text section_name in
  (0 <= score r <= 100)%Z
  /\ grade r = get_grade (score r)
  /\ (forall s, grade_rank (get_grade s) = band s /\ band s <= 5)
  /\ (forall s1 s2, band s1 = band s2 -> get_grade s1 = get_grade s2)
  /\ (forall s1 s2, band s1 < band s2 ->
        grade_rank (get_grade s1) < grade_rank (get_grade s2))
  /\ (forall s1 s2, (s1 <= s2)%Z ->
        grade_rank (get_grade s1) <= grade_rank (get_grade s2))
  /\ map get_grade [0; 70; 80; 85; 90; 95]%Z = all_grades
  /\ NoDup (map grade_label all_grades).
Proof.
  cbv zeta. split; [apply score_clamped|].
  split; [reflexivity|].
  split; [intros s; split; [apply grade_rank_band | apply band_bound]|].
  split.
  { intros s1 s2 H. apply grade_rank_inj. now rewrite !grade_rank_band. }
  split; [intros s1 s2 H; now rewrite !grade_rank_band|].
  split.
  { intros s1 s2 H. rewrite !grade_rank_band. now apply band_monotone. }
  split; [reflexivity|].
  unfold all_grades. simpl.
  repeat (constructor; [simpl; intuition discriminate|]). constructor.
Qed.

(** The range and the order of the grades at scenario B and at the scores
    72 and 96. *)
Lemma voice_score_range_and_grade_bands_witness :
  (0 <= score (calculate_voice_score scenario_B (py "Executive Summary")) <= 100)%Z
  /\ grade_rank (get_grade 72) <= grade_rank (get_grade 96).
Proof.
  pose proof (voice_score_range_and_grade_bands scenario_B (py "Executive Summary")) as H.
  cbv zeta in H. destruct H as (H1 & _ & _ & _ & _ & H6 & _).
  split; [exact H1 | apply H6; lia].
Defined.

(** Outside the two co-design sections the section name plays no part. *)
Lemma required_language_outside_codesign (text section_name : str) :
  mem (lower section_name) codesign_sections = false ->
  check_required_language text section_name = check_required_language text [].
Proof. intros H. unfold check_required_language. now rewrite H. Qed.

Lemma voice_score_outside_codesign (text section_name : str) :
  mem (lower section_name) codesign_sections = false ->
  calculate_voice_score text section_name = calculate_voice_score text [].
Proof.
  intros H. unfold calculate_voice_score, raw_tally.
  now rewrite (required_language_outside_codesign text section_name H).
Qed.

(** C2, as stated, fails: at scenario B with the section name
    [Executive Summary] the score is not below 70. *)
Lemma scenario_B_not_below_70 :
  ~ ((score (calculate_voice_score scenario_B (py "Executive Summary")) < 70)%Z
     /\ 5 <= length (nodup (list_eq_dec ascii_dec)
                       (issues (calculate_voice_score scenario_B (py "Executive Summary"))))).
Proof. intros [H _]. vm_compute in H. discriminate H. Qed.

(** C2, amended. For scenario B and every section name outside the
    co-design sections the score is 72: three forbidden terms (leverage,
    innovative, ensure) cost 15, [underserved] without [underestimated]
    costs 10 and the vague word [significant] costs 3; the text has 102
    characters, so the missing-data deduction, which needs more than 200,
    does not apply.  The grade is C and the issues are five, all distinct. *)
Theorem scenario_B_scores_72 (section_name : str) :
  mem (lower section_name) codesign_sections = false ->
  let r := calculate_voice_score scenario_B section_name in
  score r = 72%Z
  /\ grade r = C_grade
  /\ issues r =
       [ py "AI buzzword: 'leverage'"; py "AI buzzword: 'innovative'";
         py "AI buzzword: 'ensure'";
         py "Uses 'underserved' instead of 'underestimated'";
         py "Vague language: 'significant'" ]
  /\ NoDup (issues r)
  /\ length scenario_B = 102.
Proof.
  intros H. cbv zeta. rewrite (voice_score_outside_codesign scenario_B section_name H).
  assert (E : issues (calculate_voice_score scenario_B []) =
       [ py "AI buzzword: 'leverage'"; py "AI buzzword: 'innovative'";
         py "AI buzzword: 'ensure'";
         py "Uses 'underserved' instead of 'underestimated'";
         py "Vague language: 'significant'" ]) by (vm_compute; reflexivity).
  split; [vm_compute; reflexivity|].
  split; [vm_compute; reflexivity|].
  split; [exact E|].
  split; [|vm_compute; reflexivity].
  rewrite E. vm_compute.
  repeat (constructor; [simpl; intuition discriminate|]). constructor.
Qed.

Lemma scenario_B_scores_72_witness :
  score (calculate_voice_score scenario_B (py "Executive Summary")) = 72%Z.
Proof.
  apply (scenario_B_scores_72 (py "Executive Summary")). vm_compute. reflexivity.
Defined.

(** The three scoring loops, in closed form. *)
Lemma tally_buzzwords_eq (vs : list violation) (t : tally) :
  tally_buzzwords vs t =
  ((fst t - 5 * Z.of_nat (length vs))%Z, snd t ++ map buzzword_issue vs).
Proof.
  unfold tally_buzzwords. revert t.
  induction vs as [|v vs IH]; intros [sc iss]; simpl fold_left.
  - simpl. f_equal; [lia | now rewrite app_nil_r].
  - rewrite IH. cbn [fst snd length map]. f_equal; [lia | now rewrite <- app_assoc].
Qed.

Lemma tally_missing_eq (ms : list missing_item) (t : tally) :
  tally_missing ms t =
  ((fst t - 10 * Z.of_nat (length ms))%Z, snd t ++ map issue ms).
Proof.
  unfold tally_missing. revert t.
  induction ms as [|x ms IH]; intros [sc iss]; simpl fold_left.
  - simpl. f_equal; [lia | now rewrite app_nil_r].
  - rewrite IH. cbn [fst snd length map]. f_equal; [lia | now rewrite <- app_assoc].
Qed.

Lemma tally_vague_eq (vs : list vague_issue) (t : tally) :
  tally_vague vs t =
  ((fst t - 3 * Z.of_nat (length (firstn 5 vs)))%Z,
   snd t ++ map vague_language_issue (firstn 5 vs)).
Proof.
  unfold tally_vague. generalize (firstn 5 vs) as l. intros l. revert t.
  induction l as [|v l IH]; intros [sc iss]; simpl fold_left.
  - simpl. f_equal; [lia | now rewrite app_nil_r].
  - rewrite IH. cbn [fst snd length map]. f_equal; [lia | now rewrite <- app_assoc].
Qed.

(** C3. A slip of the code.  The text [five_vague_words] has 220
    characters, no numeric pattern and five vague quantifiers.  For it
    [check_specificity] returns six entries, the five vague words and then
    the missing-data entry, and [vague_count] is 6; but
    [calculate_voice_score] scores and records the first five entries
    only.  The score is 85 = 100 - 15 and not 82, there are five issues,
    and the missing-data issue is not among them: the rule of the
    specification fails at this text. *)
Theorem five_vague_words_hide_missing_data :
  200 < length five_vague_words
  /\ has_numbers five_vague_words = false
  /\ length (vague_matches five_vague_words) = 5
  /\ check_specificity five_vague_words
     = vague_matches five_vague_words ++ [no_data_issue]
  /\ (let r := calculate_voice_score five_vague_words (py "Executive Summary") in
      score r = 85%Z
      /\ vague_count r = 6
      /\ length (issues r) = 5
      /\ ~ In missing_data_issue (issues r))
  /\ ~ missing_data_rule five_vague_words (py "Executive Summary").
Proof.
  assert (Hlen : 200 < length five_vague_words)
    by (apply Nat.ltb_lt; vm_compute; reflexivity).
  assert (Hnum : has_numbers five_vague_words = false) by (vm_compute; reflexivity).
  split; [exact Hlen|]. split; [exact Hnum|].
  split; [vm_compute; reflexivity|]. split; [vm_compute; reflexivity|].
  assert (Hout : ~ In missing_data_issue
                     (issues (calculate_voice_score five_vague_words
                                (py "Executive Summary")))).
  { vm_compute. intros H. repeat (destruct H as [H|H]; [discriminate H|]). exact H. }
  split.
  - cbv zeta. split; [vm_compute; reflexivity|]. split; [vm_compute; reflexivity|].
    split; [vm_compute; reflexivity | exact Hout].
  - intros H. destruct (H Hlen Hnum) as [_ Hin]. exact (Hout Hin).
Qed.

Lemma In_firstn {A} (n : nat) (l : list A) (x : A) : In x (firstn n l) -> In x l.
Proof.
  revert l. induction n as [|n IH]; intros [|y l]; simpl; try tauto.
  intros [H|H]; [now left | right; now apply IH].
Qed.

Lemma vague_matches_words (text : str) (v : vague_issue) :
  In v (vague_matches text) -> In (word v) (map py vague_words).
Proof.
  unfold vague_matches. intros H. apply in_flat_map in H as (w & Hw & Hv).
  apply in_map_iff in Hv as (mt & <- & _). cbn [word]. now apply in_map.
Qed.

Lemma required_language_items (text section_name : str) (x : missing_item) :
  In x (check_required_language text section_name) ->
  x = underserved_item \/ x = codesign_item.
Proof.
  unfold check_required_language.
  destruct (contains (py "underserved") (lower text)
            && negb (contains (py "underestimated") (lower text)));
    destruct (mem (lower section_name) codesign_sections);
    try destruct (negb (existsb _ codesign_terms));
    simpl; intuition.
Qed.

(** With five or more vague quantifiers the five entries scored are all
    vague quantifiers: 15 points go, and the missing-data issue is not
    recorded, whatever the length of the text. *)
Lemma missing_data_dropped_at_cap (text section_name : str) :
  5 <= length (vague_matches text) ->
  fst (raw_tally text section_name)
    = signature_bonus text (points_before_specificity text section_name - 15)%Z
  /\ ~ In missing_data_issue (issues (calculate_voice_score text section_name)).
Proof.
  intros Hmany.
  assert (Hfirst : firstn 5 (check_specificity text) = firstn 5 (vague_matches text)).
  { unfold check_specificity.
    destruct (negb (has_numbers text) && (200 <? length text)); [|reflexivity].
    rewrite firstn_app. replace (5 - length (vague_matches text)) with 0 by lia.
    simpl. now rewrite app_nil_r. }
  unfold calculate_voice_score, raw_tally, points_before_specificity.
  cbn [fst snd issues]. rewrite tally_vague_eq, Hfirst. cbn [fst snd]. split.
  - f_equal. rewrite length_firstn, Nat.min_l by lia. lia.
  - rewrite tally_missing_eq, tally_buzzwords_eq. cbn [fst snd app].
    intros H. apply in_app_or in H as [H|H]; [apply in_app_or in H as [H|H]|].
    + apply in_map_iff in H as (v & Hv & _). unfold buzzword_issue in Hv.
      vm_compute in Hv. discriminate Hv.
    + apply in_map_iff in H as (x & Hx & Hin).
      apply required_language_items in Hin as [-> | ->];
        vm_compute in Hx; discriminate Hx.
    + apply in_map_iff in H as (v & Hv & Hin).
      apply In_firstn, vague_matches_words in Hin.
      unfold vague_language_issue in Hv. unfold vague_words in Hin. simpl in Hin.
      destruct Hin as [E|[E|[E|[E|[E|[E|[]]]]]]]; rewrite <- E in Hv;
        vm_compute in Hv; discriminate Hv.
Qed.

End VoiceProofs.

(** ** Extraction engine *)

Section ExtractionProofs.

Import Re EnhancedVectorStore StoreSpec.

(** C4, at a failing input. The document [We center community members as
    experts in design.] matches the fourth co-design pattern; [re.findall]
    returns the pair of its two groups, and the fragment is the two groups
    joined by a space, [center as experts]: a text that occurs nowhere in
    the document, with or without whitespace normalization. *)
Theorem codesign_fragment_is_not_a_substring :
  map (@text unit) (extract_codesign_language codesign_document tt)
    = [py "center as experts"]
  /\ ~ (exists a b, codesign_document = a ++ py "center as experts" ++ b)
  /\ verbatim_substring (py "center as experts") codesign_document = false.
Proof.
  split; [vm_compute; reflexivity|]. split; [|vm_compute; reflexivity].
  intros H. apply contains_spec in H. vm_compute in H. discriminate H.
Qed.

(** C5, as stated, fails: the document made of the sentence and its full
    stop contains the sentence and gets no data-metric fragment with it. *)
Lemma fulton_document_has_no_fragment_with_the_sentence :
  contains fulton_sentence fulton_document = true
  /\ ~ exists f, In f (extract_data_metrics fulton_document tt)
                 /\ contains fulton_sentence (text f) = true.
Proof.
  split; [vm_compute; reflexivity|].
  intros [f [Hin _]]. vm_compute in Hin. exact Hin.
Qed.

(** C5, amended. In the document made of the sentence and its full stop,
    the only number pattern that matches is the first (count, plus sign,
    unit), once, and its match is the span [60+ signups in the first
    week.] from offset 35 to 65: it begins at the number, after the words
    [At our Fulton Houses pilot, we had], so no data-metric fragment of the
    document contains the sentence.  A document in which a percentage
    opens the same sentence gets the fragment with the whole sentence. *)
Theorem fulton_sentence_is_matched_from_the_number :
  map (fun pattern => finditer true pattern fulton_document) number_patterns
    = [ [ {| m_start := 35; m_end := 65; m_caps := [(1, (39, 46))] |} ]; []; []; []; [] ]
  /\ slice fulton_document 35 65 = py "60+ signups in the first week."
  /\ slice fulton_document 0 35 = py "At our Fulton Houses pilot, we had "
  /\ existsb (fun f => contains fulton_sentence (text f))
             (extract_data_metrics fulton_document tt) = false
  /\ map (@text unit) (extract_data_metrics fulton_document_with_percentage tt)
       = [ py "50% of people said: " ++ fulton_sentence ++ py "." ].
Proof. repeat split; vm_compute; reflexivity. Qed.

End ExtractionProofs.

(** ** Retrieval orchestrator *)

Section RetrievalProofs.

Import EnhancedVectorStore StoreSpec.

Variables (embedding metadata distance : Type).
Variable embed_text : str -> option embedding.
Variable query : collection -> embedding -> nat -> option (raw_results metadata distance).

(** C6. For every query, every database and every section name whose
    lowercase form is not [need statement] or [evaluation plan], a result
    returned by [retrieve_multi_layer] has an empty [quotes] list, and a
    result is returned whenever the embedding provider and the collections
    other than [participant_voices] answer: that collection is not asked.
    The same holds for the [codesign] list, the sections [methodology] and
    [project description] and the collection [codesign_examples]. *)
Theorem quotes_and_codesign_only_for_their_sections
    (q section_name : str) (n_content n_voice n_data n_quotes n_codesign n_programs : nat) :
  let run := retrieve_multi_layer embed_text query q section_name
               n_content n_voice n_data n_quotes n_codesign n_programs in
  (mem (lower section_name) quote_sections = false ->
     (forall r, run = Some r -> quotes r = [])
     /\ (forall e, embed_text q = Some e ->
           (forall c n, c <> participant_voices -> query c e n <> None) ->
           exists r, run = Some r /\ quotes r = []))
  /\ (mem (lower section_name) codesign_sections = false ->
     (forall r, run = Some r -> codesign r = [])
     /\ (forall e, embed_text q = Some e ->
           (forall c n, c <> codesign_examples -> query c e n <> None) ->
           exists r, run = Some r /\ codesign r = [])).
Proof.
  cbv zeta. unfold retrieve_multi_layer, bind. split; intros Hsec; rewrite Hsec.
  - split.
    + intros r. destruct (embed_text q) as [e|]; [|discriminate].
      destruct (query full_content e n_content); [|discriminate].
      destruct (query voice_phrases e n_voice); [|discriminate].
      destruct (query data_metrics e n_data); [|discriminate].
      destruct (mem (lower section_name) codesign_sections);
        [destruct (query codesign_examples e n_codesign); simpl; [|discriminate]|];
        (destruct (query program_descriptions e n_programs); [|discriminate]);
        intros H; injection H as <-; reflexivity.
    + intros e He Hq. rewrite He.
      destruct (query full_content e n_content) eqn:E1;
        [|now apply Hq in E1].
      destruct (query voice_phrases e n_voice) eqn:E2;
        [|now apply Hq in E2].
      destruct (query data_metrics e n_data) eqn:E3;
        [|now apply Hq in E3].
      destruct (query program_descriptions e n_programs) eqn:E4;
        [|now apply Hq in E4].
      destruct (mem (lower section_name) codesign_sections).
      * destruct (query codesign_examples e n_codesign) eqn:E5;
          [|now apply Hq in E5].
        simpl. eexists. split; reflexivity.
      * eexists. split; reflexivity.
  - split.
    + intros r. destruct (embed_text q) as [e|]; [|discriminate].
      destruct (query full_content e n_content); [|discriminate].
      destruct (query voice_phrases e n_voice); [|discriminate].
      destruct (query data_metrics e n_data); [|discriminate].
      destruct (mem (lower section_name) quote_sections);
        [destruct (query participant_voices e n_quotes); simpl; [|discriminate]|];
        (destruct (query program_descriptions e n_programs); [|discriminate]);
        intros H; injection H as <-; reflexivity.
    + intros e He Hq. rewrite He.
      destruct (query full_content e n_content) eqn:E1;
        [|now apply Hq in E1].
      destruct (query voice_phrases e n_voice) eqn:E2;
        [|now apply Hq in E2].
      destruct (query data_metrics e n_data) eqn:E3;
        [|now apply Hq in E3].
      destruct (query program_descriptions e n_programs) eqn:E4;
        [|now apply Hq in E4].
      destruct (mem (lower section_name) quote_sections).
      * destruct (query participant_voices e n_quotes) eqn:E5;
          [|now apply Hq in E5].
        simpl. eexists. split; reflexivity.
      * eexists. split; reflexivity.
Qed.

End RetrievalProofs.

(** The sample database holds a testimonial, and the executive summary is
    retrieved without it. *)
Lemma quotes_and_codesign_only_for_their_sections_witness :
  exists r,
    EnhancedVectorStore.retrieve_multi_layer
      StoreSpec.sample_embed StoreSpec.sample_query
      (py "Executive Summary: entrepreneurship training") (py "Executive Summary")
      3 5 3 2 2 3 = Some r
    /\ EnhancedVectorStore.quotes r = [].
Proof.
  refine (proj2 (proj1 (quotes_and_codesign_only_for_their_sections
            StoreSpec.sample_embed StoreSpec.sample_query
            (py "Executive Summary: entrepreneurship training") (py "Executive Summary")
            3 5 3 2 2 3) _) _ _ _).
  - vm_compute. reflexivity.
  - vm_compute. reflexivity.
  - intros c n _. destruct c; discriminate.
Defined.

(** ** Chunk splitter *)

Section ChunkProofs.

Import EnhancedVectorStore Settings.

(** With the configured sizes every pass moves [start] forward by at least
    852 characters: an accepted break point lies past offset 1050. *)
Lemma chunk_step_advances (text : str) (start : Z) :
  (start + 852 <= snd (chunk_step text CHUNK_SIZE CHUNK_OVERLAP start))%Z.
Proof.
  unfold chunk_step, CHUNK_SIZE, CHUNK_OVERLAP.
  destruct (start + 1500 <? Z.of_nat (length text))%Z; [|simpl; lia].
  match goal with |- context [(?a <? ?b)%Z] => destruct (Z.ltb_spec a b) end;
    simpl; lia.
Qed.

(** The loop ends within [fuel] passes when [fuel] covers the distance
    from [start] to the end of the text. *)
Lemma chunk_loop_terminates (text : str) (fuel : nat) :
  forall (start : Z) (chunks : list str),
    (Z.of_nat (length text) - start <= Z.of_nat fuel)%Z ->
    exists result, chunk_loop fuel text CHUNK_SIZE CHUNK_OVERLAP start chunks = Some result.
Proof.
  induction fuel as [|fuel IH]; intros start chunks Hfuel; simpl.
  - destruct (Z.ltb_spec start (Z.of_nat (length text))); [lia|]. now eexists.
  - destruct (Z.ltb_spec start (Z.of_nat (length text))); [|now eexists].
    pose proof (chunk_step_advances text start) as Hadv.
    destruct (chunk_step text CHUNK_SIZE CHUNK_OVERLAP start) as [chunk next].
    simpl in Hadv. apply IH. lia.
Qed.

(** Fuel beyond what the loop uses does not change its result. *)
Lemma chunk_loop_more_fuel (text : str) (fuel : nat) :
  forall (start : Z) (chunks result : list str) (extra : nat),
    chunk_loop fuel text CHUNK_SIZE CHUNK_OVERLAP start chunks = Some result ->
    chunk_loop (fuel + extra) text CHUNK_SIZE CHUNK_OVERLAP start chunks = Some result.
Proof.
  induction fuel as [|fuel IH]; intros start chunks result extra; simpl.
  - destruct (start <? Z.of_nat (length text))%Z eqn:E; [discriminate|].
    intros H. destruct extra; simpl; now rewrite E.
  - destruct (start <? Z.of_nat (length text))%Z; [|trivial].
    destruct (chunk_step text CHUNK_SIZE CHUNK_OVERLAP start) as [chunk next].
    apply IH.
Qed.

(** C10. With the configured chunk size 1500 and overlap 200, every pass
    of the loop of [chunk_text] moves the start index forward by more than
    850 = 0.7 * 1500 - 200 characters (by 852 at least: a sentence-boundary
    cut is accepted only past offset 1050); so for every text the loop ends
    within [len(text)] passes and [chunk_text] returns a list of chunks,
    the same one for any larger bound on the passes. *)
Theorem chunk_text_terminates (text : str) :
  (forall start : Z,
     (snd (chunk_step text CHUNK_SIZE CHUNK_OVERLAP start) - start
        > 7 * CHUNK_SIZE / 10 - CHUNK_OVERLAP)%Z)
  /\ exists chunks,
       chunk_text (length text) text CHUNK_SIZE CHUNK_OVERLAP = Some chunks
       /\ forall extra : nat,
            chunk_text (length text + extra) text CHUNK_SIZE CHUNK_OVERLAP = Some chunks.
Proof.
  split.
  - intros start. pose proof (chunk_step_advances text start) as H.
    change (7 * CHUNK_SIZE / 10 - CHUNK_OVERLAP)%Z with 850%Z. lia.
  - unfold chunk_text.
    destruct (Z.of_nat (length text) <=? CHUNK_SIZE)%Z.
    + eexists. split; [reflexivity | intros; reflexivity].
    + destruct (chunk_loop_terminates text (length text) 0 []) as [result H]; [lia|].
      exists result. split; [exact H|].
      intros extra. now apply chunk_loop_more_fuel.
Qed.

End ChunkProofs.

(** ** Generation controller *)

Section GenerationProofs.

Import Llm VoiceGuidelines EnhancedGenerator GeneratorSpec.

(** C7, at a failing input. Validation and automatic regeneration are on
    and the language model answers each of the three attempts with a text
    that scores 0.  All three attempts complete and are recorded, yet the
    result carries no text: [best_score] starts at 0 and an attempt
    replaces the best one only when its score is strictly higher. *)
Theorem zero_scoring_attempts_leave_no_text :
  score (calculate_voice_score zero_text (py "Need Statement")) = 0%Z
  /\ match generate_section true true (constant_llm zero_text 100) true
             (py "Need Statement") Settings.TEMPERATURE 3 with
     | Returned r =>
         text r = None
         /\ voice_score r = Some 0%Z
         /\ map a_score (attempts r) = [0; 0; 0]%Z
         /\ tokens_used r = 300%Z
     | Raised => False
     end.
Proof. split; [vm_compute; reflexivity|]. vm_compute. repeat split. Qed.

Lemma best_recorded_app (l : list attempt_record) (a : attempt_record) :
  best_recorded (l ++ [a]) = Z.max (best_recorded l) (a_score a).
Proof.
  unfold best_recorded. induction l as [|x l IH]; simpl; [lia|].
  rewrite IH. lia.
Qed.

Lemma keeps_best_step (name : str) (st : locals) (t : str) (total_tokens : Z)
    (n : nat) (temp' : Q) (tok' : option Z) :
  keeps_best name st ->
  let ev := calculate_voice_score t name in
  keeps_best name
    {| best_text := if beats (score ev) (best_score st) then Some t else best_text st;
       best_score := if beats (score ev) (best_score st) then Some (score ev)
                     else best_score st;
       l_attempts := l_attempts st ++
         [{| attempt := n; a_score := score ev; tokens := total_tokens;
             a_issues := issues ev |}];
       l_tokens_used := tok';
       temperature := temp' |}.
Proof.
  intros [Hb Ht] ev. subst ev. unfold keeps_best.
  cbn [l_attempts best_text best_score].
  rewrite best_recorded_app. cbn [a_score]. rewrite Hb. unfold beats.
  pose proof (score_clamped t name) as Hrange.
  destruct (Z.ltb_spec (best_recorded (l_attempts st))
              (score (calculate_voice_score t name))) as [Hlt|Hge].
  - split; [f_equal; lia|]. split; [lia|]. destruct (best_text st); lia.
  - split; [f_equal; lia|].
    destruct (best_text st) as [t0|]; [|lia].
    destruct Ht as [Ht1 Ht2]. split; lia.
Qed.

Lemma attempt_loop_keeps_best (auto_fix : bool) (llm : nat -> Q -> llm_outcome)
    (name : str) (max_attempts remaining : nat) :
  forall (attempt : nat) (st st' : locals),
    keeps_best name st ->
    attempt_loop true auto_fix llm name max_attempts remaining attempt st = Returned st' ->
    keeps_best name st'.
Proof.
  induction remaining as [|remaining IH]; intros attempt st st' Hinv;
    cbn -[calculate_voice_score min_voice_score Z.leb Nat.ltb Nat.eqb Nat.sub].
  - intros H. injection H as <-. exact Hinv.
  - destruct (llm attempt (temperature st)) as [content total_tokens|].
    + pose proof (fun temp' => @keeps_best_step name st (strip content) total_tokens
                                 (attempt + 1) temp' (Some total_tokens) Hinv) as Hnext.
      cbv zeta in Hnext.
      destruct (beats (score (calculate_voice_score (strip content) name)) (best_score st));
        cbn [best_text best_score l_attempts l_tokens_used temperature];
        (destruct ((min_voice_score <=? score (calculate_voice_score (strip content) name))%Z
                   || negb auto_fix);
         [ intros H; injection H as <-; apply Hnext
         | destruct (attempt <? max_attempts - 1); apply IH; apply Hnext ]).
    + destruct (attempt =? max_attempts - 1); [discriminate|]. now apply IH.
Qed.

(** With validation on, a result that is returned carries the highest
    score among its recorded attempts; its text is a generated text with
    that score when that score is positive, and [None] when it is 0. *)
Lemma generate_section_keeps_best_score (auto_fix : bool) (llm : nat -> Q -> llm_outcome)
    (retrieved : bool) (name : str) (temp : Q) (max_attempts : nat) (r : section_result) :
  generate_section true auto_fix llm retrieved name temp max_attempts = Returned r ->
  voice_score r = Some (best_recorded (attempts r))
  /\ match text r with
     | Some t => score (calculate_voice_score t name) = best_recorded (attempts r)
                 /\ (0 < best_recorded (attempts r))%Z
     | None => best_recorded (attempts r) = 0%Z
     end.
Proof.
  unfold generate_section. destruct retrieved; [|discriminate]. simpl negb. cbv iota.
  destruct (attempt_loop _ _ _ _ _ _ _ _) as [st|] eqn:E; [|discriminate].
  apply attempt_loop_keeps_best in E; [|split; reflexivity].
  destruct E as [Hb Ht].
  destruct (l_attempts st) as [|a l] eqn:El.
  - destruct (l_tokens_used st); [|discriminate].
    intros H. injection H as <-. simpl in *. now split.
  - intros H. injection H as <-. cbn [voice_score text attempts]. now split.
Qed.

(** The quotient is rounded twice, first to a float and then to one
    decimal: 1707 / 20 is reported as 85.3, where the exact quotient 85.35
    would give 85.4. *)
Lemma float_quotient_is_rounded_first :
  round1 (float_quotient 1707 20) = (853 # 10)%Q
  /\ round1 (1707 # 20) = (854 # 10)%Q.
Proof. split; vm_compute; reflexivity. Qed.

(** C8. A slip of the code.  Of two sections, the first scoring 0 and
    the second 90, both scores are recorded in the metadata of the
    sections; but the test [if result.get("voice_score")] takes the score 0
    for a missing one, so the first section is in neither the sum nor the
    count: the dictionary of voice scores holds 90 alone and the average
    reported is 90, not the mean 45 of the two recorded scores. *)
Theorem zero_score_is_left_out_of_the_average :
  match generate_full_application true true
          (llm_by_section [zero_text; text_90]) (fun _ => true)
          [py "Need Statement"; py "Evaluation Plan"] Settings.TEMPERATURE with
  | Returned a =>
      map sm_voice_score (map snd (section_metadata a)) = [Some 0; Some 90]%Z
      /\ map snd (voice_scores (metadata a)) = [90]%Z
      /\ avg_voice_score (metadata a) = (900 # 10)%Q
      /\ (exact_mean [0; 90]%Z == 45)%Q
      /\ ~ (avg_voice_score (metadata a) == exact_mean [0; 90]%Z)%Q
  | Raised => False
  end.
Proof.
  vm_compute. repeat split; intros H; discriminate H.
Qed.

End GenerationProofs.

(** ** Refinement guard *)

Section RefineProofs.

Import Llm Generator RefineSpec.


Variable char : Type.
Variable char_eq_dec : forall a b : char, {a = b} + {a <> b}.
Variable of_ascii : ascii -> char.
Variables str_lower str_strip : list char -> list char.








End RefineProofs.

Section RefineExamples.

Import Llm Generator RefineSpec.


End RefineExamples.

(** * Further properties of the code *)

(** ** Strings *)

Section MoreStringProofs.

Lemma lower_char_idempotent (c : ascii) : lower_char (lower_char c) = lower_char c.
Proof. destruct c as [[] [] [] [] [] [] [] []]; reflexivity. Qed.

Lemma lower_idempotent (s : str) : lower (lower s) = lower s.
Proof.
  unfold lower. rewrite map_map. apply map_ext. apply lower_char_idempotent.
Qed.

End MoreStringProofs.

(** ** Voice validator: the score in closed form *)

Section VoiceFormulaProofs.

Import VoiceGuidelines VoiceSpec VoiceBonusSpec.

Lemma phrase_bonus_eq (text : str) (phrases : list str) (sc : Z) :
  phrase_bonus text phrases sc
  = (sc + 5 * Z.of_nat (length (filter (group_hit text) [phrases])))%Z.
Proof.
  unfold phrase_bonus, group_hit. simpl filter.
  destruct (existsb _ phrases); simpl; lia.
Qed.

Lemma group_fold_eq (text : str) (groups : list (list str)) :
  forall sc : Z,
    fold_left (fun sc g => phrase_bonus text g sc) groups sc
    = (sc + 5 * Z.of_nat (length (filter (group_hit text) groups)))%Z.
Proof.
  induction groups as [|g groups IH]; intros sc; simpl fold_left.
  - simpl. lia.
  - rewrite IH, phrase_bonus_eq. simpl filter.
    destruct (group_hit text g); simpl length; lia.
Qed.

Lemma category_fold_eq (text : str) (entries : list (str * phrase_category)) :
  forall sc : Z,
    fold_left
      (fun sc entry =>
         match snd entry with
         | PhraseDict groups =>
             fold_left (fun sc g => phrase_bonus text (snd g) sc) groups sc
         | PhraseList phrases => phrase_bonus text phrases sc
         end) entries sc
    = (sc + 5 * Z.of_nat (length (filter (group_hit text) (flat_map groups_of entries))))%Z.
Proof.
  induction entries as [|[name cat] entries IH]; intros sc; simpl fold_left.
  - simpl. lia.
  - rewrite IH. simpl flat_map. rewrite filter_app, length_app.
    unfold groups_of at 2. cbn [snd]. destruct cat as [phrases|groups].
    + rewrite phrase_bonus_eq. lia.
    + assert (E : fold_left (fun sc g => phrase_bonus text (snd g) sc) groups sc
                  = fold_left (fun sc g => phrase_bonus text g sc) (map snd groups) sc).
      { clear. revert sc. induction groups as [|g groups IHg]; intros sc; simpl;
          [reflexivity | apply IHg]. }
      rewrite E, group_fold_eq. lia.
Qed.

(** The bonus is five points for each phrase group hit. *)
Lemma signature_bonus_eq (text : str) (sc : Z) :
  signature_bonus text sc = (sc + 5 * Z.of_nat (groups_hit text))%Z.
Proof. unfold signature_bonus, groups_hit, phrase_groups. apply category_fold_eq. Qed.


Lemma score_formula (text section_name : str) :
  score (calculate_voice_score text section_name)
  = Z.min 100 (Z.max 0
      (100 - 5 * Z.of_nat (length (check_ai_buzzwords text))
       - 10 * Z.of_nat (length (check_required_language text section_name))
       - 3 * Z.of_nat (Nat.min 5 (length (check_specificity text)))
       + 5 * Z.of_nat (groups_hit text)))%Z.
Proof.
  unfold calculate_voice_score, raw_tally. cbn [score fst].
  rewrite signature_bonus_eq, tally_vague_eq, tally_missing_eq, tally_buzzwords_eq.
  cbn [fst]. rewrite length_firstn. lia.
Qed.


(** X2. The issues list has one entry for each deduction: its length is
    the number of buzzword occurrences, plus the number of missing
    required elements, plus the number of specificity entries up to
    five. *)
Theorem issues_count_matches_deductions (text section_name : str) :
  let r := calculate_voice_score text section_name in
  length (issues r) = buzzwords r + missing_required r + Nat.min 5 (vague_count r).
Proof.
  cbv zeta. unfold calculate_voice_score, raw_tally.
  cbn [issues buzzwords missing_required vague_count snd].
  rewrite tally_vague_eq, tally_missing_eq, tally_buzzwords_eq. cbn [snd app].
  rewrite !length_app, !length_map, length_firstn. lia.
Qed.

(** X3. A text in which the three checks find nothing scores 100 with the
    top grade and an empty issues list, whatever signature phrases it
    holds. *)
Theorem clean_text_scores_100 (text section_name : str) :
  check_ai_buzzwords text = [] ->
  check_required_language text section_name = [] ->
  check_specificity text = [] ->
  let r := calculate_voice_score text section_name in
  score r = 100%Z /\ grade r = A_plus /\ issues r = [].
Proof.
  intros Hb Hm Hv. cbv zeta.
  assert (Hs : score (calculate_voice_score text section_name) = 100%Z).
  { rewrite score_formula, Hb, Hm, Hv. simpl length. simpl Nat.min. lia. }
  split; [exact Hs|]. split.
  - change (grade (calculate_voice_score text section_name))
      with (get_grade (score (calculate_voice_score text section_name))).
    now rewrite Hs.
  - unfold calculate_voice_score, raw_tally. cbn [issues snd].
    now rewrite Hb, Hm, Hv.
Qed.

Lemma clean_text_scores_100_witness :
  score (calculate_voice_score clean_text (py "Need Statement")) = 100%Z.
Proof.
  apply (@clean_text_scores_100 clean_text (py "Need Statement"));
    vm_compute; reflexivity.
Defined.

(** X4. In the sections [Methodology] and [Project Description], the name
    in any case, a text without any of the four co-design terms gets the
    missing element [Missing co-design language]: it is counted and it is
    in the issues. *)
Theorem codesign_language_is_required (text section_name : str) :
  mem (lower section_name) codesign_sections = true ->
  existsb (fun term => contains term (lower text)) codesign_terms = false ->
  let r := calculate_voice_score text section_name in
  In codesign_item (check_required_language text section_name)
  /\ 1 <= missing_required r
  /\ In (py "Missing co-design language") (issues r).
Proof.
  intros Hsec Hterms. cbv zeta.
  assert (Hin : In codesign_item (check_required_language text section_name)).
  { unfold check_required_language. rewrite Hsec, Hterms. simpl negb. cbv iota.
    apply in_or_app. right. now left. }
  split; [exact Hin|]. split.
  - unfold calculate_voice_score. cbn [missing_required].
    destruct (check_required_language text section_name); [destruct Hin | simpl; lia].
  - unfold calculate_voice_score, raw_tally. cbn [issues snd].
    rewrite tally_vague_eq, tally_missing_eq. cbn [snd].
    apply in_or_app. left. apply in_or_app. right.
    change (py "Missing co-design language") with (issue codesign_item).
    now apply in_map.
Qed.

Lemma codesign_language_is_required_witness :
  In (py "Missing co-design language")
     (issues (calculate_voice_score plain_methodology (py "METHODOLOGY"))).
Proof.
  apply (@codesign_language_is_required plain_methodology (py "METHODOLOGY"));
    vm_compute; reflexivity.
Defined.

(** X5. With five or more vague-quantifier matches the specificity loop
    costs exactly 15 points and the missing-data issue is never recorded,
    however long the text and whether or not it holds a number. *)
Theorem five_vague_words_use_up_the_cap (text section_name : str) :
  5 <= length (vague_matches text) ->
  fst (raw_tally text section_name)
    = signature_bonus text (points_before_specificity text section_name - 15)%Z
  /\ ~ In missing_data_issue (issues (calculate_voice_score text section_name)).
Proof. apply missing_data_dropped_at_cap. Qed.

Lemma five_vague_words_use_up_the_cap_witness :
  ~ In missing_data_issue
      (issues (calculate_voice_score five_vague_words (py "Executive Summary"))).
Proof.
  apply (@five_vague_words_use_up_the_cap five_vague_words (py "Executive Summary")).
  apply Nat.leb_le. vm_compute. reflexivity.
Defined.

(** The validator reads the section name through [lower] only. *)
Lemma voice_score_ignores_section_case (text section_name : str) :
  calculate_voice_score text (lower section_name) = calculate_voice_score text section_name.
Proof.
  unfold calculate_voice_score, raw_tally, check_required_language.
  now rewrite lower_idempotent.
Qed.

End VoiceFormulaProofs.

(** ** Extraction engine: fragments are parts of the document *)

Section SubstringProofs.

Import Re EnhancedVectorStore ExtractionSpec.

Lemma substring_refl (s : str) : substring s s.
Proof. exists [], []. now rewrite app_nil_r. Qed.

Lemma substring_nil (s : str) : substring [] s.
Proof. now exists [], s. Qed.

Lemma substring_trans (a b c : str) : substring a b -> substring b c -> substring a c.
Proof.
  intros (u & v & ->) (u' & v' & ->). exists (u' ++ u), (v ++ v').
  now rewrite <- !app_assoc.
Qed.

Lemma substring_length (a s : str) : substring a s -> length a <= length s.
Proof. intros (u & v & ->). rewrite !length_app. lia. Qed.

Lemma slice_substring (s : str) (a b : nat) : substring (slice s a b) s.
Proof.
  unfold slice. exists (firstn a s), (skipn (b - a) (skipn a s)).
  now rewrite firstn_skipn, firstn_skipn.
Qed.

Lemma lstrip_suffix (s : str) : exists u, s = u ++ lstrip s.
Proof.
  induction s as [|c s [u IH]]; simpl; [now exists []|].
  destruct (is_space c); [|now exists []].
  exists (c :: u). simpl. now f_equal.
Qed.

Lemma rstrip_prefix (s : str) : exists v, s = rstrip s ++ v.
Proof.
  unfold rstrip. destruct (lstrip_suffix (rev s)) as [u H].
  exists (rev u). rewrite <- rev_app_distr, <- H. now rewrite rev_involutive.
Qed.

Lemma strip_substring (s : str) : substring (strip s) s.
Proof.
  unfold strip. destruct (lstrip_suffix s) as [u Hu].
  destruct (rstrip_prefix (lstrip s)) as [v Hv].
  exists u, v. now rewrite <- Hv.
Qed.

Lemma zslice_substring (s : str) (a b : Z) : substring (zslice s a b) s.
Proof. apply slice_substring. Qed.

Lemma group_substring (text : str) (mt : rmatch) (i : nat) :
  substring (group text mt i) text.
Proof.
  unfold group. destruct (find _ (m_caps mt)) as [[j [a b]]|];
    [apply slice_substring | apply substring_nil].
Qed.

(** For a pattern with one group at most, [re.findall] gives strings, each
    a part of the text. *)
Lemma findall_strings (ic : bool) (r : regex) (text : str) (f : found) :
  ngroups r <= 1 ->
  In f (findall ic r text) ->
  exists s, f = FStr s /\ substring s text.
Proof.
  unfold findall. intros Hg Hin. apply in_map_iff in Hin as (mt & <- & _).
  destruct (ngroups r) as [|[|n]]; [| |lia].
  - eexists. split; [reflexivity | apply slice_substring].
  - eexists. split; [reflexivity | apply group_substring].
Qed.

Lemma ngroups_lit_list (s : str) : ngroups (lit_list s) = 0.
Proof.
  induction s as [|c [|d s] IH]; [reflexivity | reflexivity |].
  change (lit_list (c :: d :: s)) with (Cat (Chr c) (lit_list (d :: s))).
  simpl ngroups. exact IH.
Qed.

Lemma program_pattern_groups (program_name : string) :
  ngroups (program_pattern program_name) = 1.
Proof.
  unfold program_pattern, cat, lit. cbn [ngroups]. rewrite ngroups_lit_list. reflexivity.
Qed.

Variable metadata : Type.

(** A fragment built from the strip of a part of the document. *)
Lemma stripped_part_traceable (document s : str) (md : metadata) (c : str)
    (p : option str) :
  substring s document ->
  traceable document md {| text := strip s; category := c; program := p; meta := md |}.
Proof.
  intros H. split; [|reflexivity]. cbn [text].
  eapply substring_trans; [apply strip_substring | exact H].
Qed.

Lemma voice_phrases_traceable (document : str) (md : metadata) :
  Forall (traceable document md) (extract_voice_phrases document md).
Proof.
  unfold extract_voice_phrases. apply Forall_app. split; apply Forall_forall; intros f Hin;
    apply in_flat_map in Hin as (pattern & Hp & Hin).
  - apply in_map_iff in Hin as (x & <- & Hx).
    assert (Hg : ngroups pattern <= 1).
    { assert (A : forallb (fun r => ngroups r <=? 1) mission_patterns = true) by reflexivity.
      rewrite forallb_forall in A. apply Nat.leb_le. now apply A. }
    destruct (findall_strings _ _ _ _ Hg Hx) as (s & -> & Hs).
    now apply stripped_part_traceable.
  - apply in_flat_map in Hin as (x & Hx & Hin).
    assert (Hg : ngroups pattern <= 1).
    { assert (A : forallb (fun r => ngroups r <=? 1) empowerment_patterns = true)
        by reflexivity.
      rewrite forallb_forall in A. apply Nat.leb_le. now apply A. }
    destruct (findall_strings _ _ _ _ Hg Hx) as (s & -> & Hs).
    destruct (20 <? length s); [|destruct Hin].
    destruct Hin as [<-|[]]. now apply stripped_part_traceable.
Qed.

Lemma data_metrics_traceable (document : str) (md : metadata) :
  Forall (traceable document md) (extract_data_metrics document md).
Proof.
  unfold extract_data_metrics. apply Forall_forall. intros f Hin.
  apply in_flat_map in Hin as (pattern & Hp & Hin).
  apply in_flat_map in Hin as (x & Hx & Hin).
  assert (Hg : ngroups pattern <= 1).
  { assert (A : forallb (fun r => ngroups r <=? 1) number_patterns = true) by reflexivity.
    rewrite forallb_forall in A. apply Nat.leb_le. now apply A. }
  destruct (findall_strings _ _ _ _ Hg Hx) as (s & -> & Hs).
  destruct (10 <? length s); [|destruct Hin].
  destruct Hin as [<-|[]]. now apply stripped_part_traceable.
Qed.

Lemma participant_voices_traceable (document : str) (md : metadata) :
  Forall (traceable document md) (extract_participant_voices document md).
Proof.
  unfold extract_participant_voices. apply Forall_forall. intros f Hin.
  apply in_flat_map in Hin as (pattern & Hp & Hin).
  apply in_flat_map in Hin as (x & Hx & Hin).
  assert (Hg : ngroups pattern <= 1).
  { assert (A : forallb (fun r => ngroups r <=? 1) quote_patterns = true) by reflexivity.
    rewrite forallb_forall in A. apply Nat.leb_le. now apply A. }
  destruct (findall_strings _ _ _ _ Hg Hx) as (s & -> & Hs).
  destruct (negb _); [|destruct Hin].
  destruct Hin as [<-|[]]. now apply stripped_part_traceable.
Qed.

Lemma program_descriptions_traceable (document : str) (md : metadata) :
  Forall (traceable document md) (extract_program_descriptions document md).
Proof.
  unfold extract_program_descriptions. apply Forall_forall. intros f Hin.
  apply in_flat_map in Hin as (name & Hp & Hin).
  apply in_flat_map in Hin as (x & Hx & Hin).
  assert (Hg : ngroups (program_pattern name) <= 1)
    by (rewrite program_pattern_groups; lia).
  destruct (findall_strings _ _ _ _ Hg Hx) as (s & -> & Hs).
  destruct (30 <? length s); [|destruct Hin].
  destruct Hin as [<-|[]]. now apply stripped_part_traceable.
Qed.

End SubstringProofs.

(** ** Chunk splitter: bounds and the overlap *)

Section MoreChunkProofs.

Import EnhancedVectorStore ExtractionSpec.

Lemma occurrences_from_char_bound (c : ascii) (s : str) :
  forall pos p, In p (occurrences_from [c] s pos) -> pos <= p < pos + length s.
Proof.
  induction s as [|d s IH]; intros pos p; simpl; [tauto|].
  intros H. apply in_app_or in H as [H|H].
  - destruct (Ascii.eqb c d && true); [|destruct H].
    destruct H as [<-|[]]. lia.
  - apply IH in H. lia.
Qed.

Lemma rfind_char_bound (c : ascii) (s : str) :
  (-1 <= rfind_char c s < Z.of_nat (length s))%Z.
Proof.
  unfold rfind_char, occurrences.
  destruct (rev (occurrences_from [c] s 0)) as [|p l] eqn:E; [lia|].
  assert (Hin : In p (occurrences_from [c] s 0)).
  { apply in_rev. rewrite E. now left. }
  apply occurrences_from_char_bound in Hin. lia.
Qed.

Lemma slice_length (s : str) (a b : nat) : length (slice s a b) <= b - a.
Proof. unfold slice. apply firstn_le_length. Qed.

Lemma zslice_length (s : str) (a n : Z) :
  (0 <= n)%Z -> (Z.of_nat (length (zslice s a (a + n))) <= n)%Z.
Proof.
  intros Hn. unfold zslice.
  pose proof (slice_length s (Z.to_nat (clip (Z.of_nat (length s)) a))
                (Z.to_nat (clip (Z.of_nat (length s)) (a + n)))) as H.
  unfold clip in *.
  destruct (Z.ltb_spec a 0); destruct (Z.ltb_spec (a + n) 0); lia.
Qed.

(** One pass gives a chunk that is a part of the text, no longer than the
    chunk size. *)
Lemma chunk_step_chunk (text : str) (chunk_size overlap start : Z) :
  (0 <= chunk_size)%Z ->
  substring (fst (chunk_step text chunk_size overlap start)) text
  /\ (Z.of_nat (length (fst (chunk_step text chunk_size overlap start))) <= chunk_size)%Z.
Proof.
  intros Hcs. unfold chunk_step.
  set (chunk := zslice text start (start + chunk_size)).
  assert (Hsub : substring chunk text) by apply zslice_substring.
  assert (Hlen : (Z.of_nat (length chunk) <= chunk_size)%Z) by now apply zslice_length.
  assert (Hwhole : substring (strip chunk) text
                   /\ (Z.of_nat (length (strip chunk)) <= chunk_size)%Z).
  { split; [eapply substring_trans; [apply strip_substring | exact Hsub]|].
    pose proof (substring_length (strip_substring chunk)). lia. }
  destruct (start + chunk_size <? Z.of_nat (length text))%Z; [|exact Hwhole].
  destruct (7 * chunk_size <? 10 * _)%Z; [|exact Hwhole].
  cbn [fst]. set (cut := zslice chunk 0 _).
  assert (Hcut : substring cut chunk) by apply zslice_substring.
  split.
  - eapply substring_trans; [apply strip_substring|].
    eapply substring_trans; [exact Hcut | exact Hsub].
  - pose proof (substring_length (strip_substring cut)).
    pose proof (substring_length Hcut). lia.
Qed.

Lemma chunk_loop_chunks (text : str) (chunk_size overlap : Z) (P : str -> Prop) :
  (forall start, P (fst (chunk_step text chunk_size overlap start))) ->
  forall (fuel : nat) (start : Z) (acc result : list str),
    Forall P acc ->
    chunk_loop fuel text chunk_size overlap start acc = Some result ->
    Forall P result.
Proof.
  intros Hstep. induction fuel as [|fuel IH]; intros start acc result Hacc; simpl.
  - destruct (start <? Z.of_nat (length text))%Z; [discriminate|].
    intros H. injection H as <-. exact Hacc.
  - destruct (start <? Z.of_nat (length text))%Z;
      [|intros H; injection H as <-; exact Hacc].
    specialize (Hstep start).
    destruct (chunk_step text chunk_size overlap start) as [chunk next].
    apply IH. apply Forall_app. split; [exact Hacc | now constructor].
Qed.

(** X7. Whatever the chunk size (not negative) and the overlap, every chunk
    [chunk_text] returns is a contiguous part of the text and has at most
    [chunk_size] characters. *)
Theorem chunks_are_bounded_parts_of_the_text
    (text : str) (chunk_size overlap : Z) (fuel : nat) (chunks : list str) :
  (0 <= chunk_size)%Z ->
  chunk_text fuel text chunk_size overlap = Some chunks ->
  Forall (fun chunk => substring chunk text
                       /\ (Z.of_nat (length chunk) <= chunk_size)%Z) chunks.
Proof.
  intros Hcs. unfold chunk_text.
  destruct (Z.leb_spec (Z.of_nat (length text)) chunk_size) as [Hshort|Hlong].
  - intros H. injection H as <-. constructor; [|constructor].
    split; [apply substring_refl | exact Hshort].
  - apply chunk_loop_chunks; [|constructor].
    intros start. now apply chunk_step_chunk.
Qed.

Lemma chunks_are_bounded_parts_of_the_text_witness :
  Forall (fun chunk => substring chunk (py "One. Two. Three. Four. Five.")
                       /\ (Z.of_nat (length chunk) <= 10)%Z)
         [py "One. Two."; py "Two. Three"; py "hree. Four"; py "Four. Five"; py "Five."].
Proof.
  apply (@chunks_are_bounded_parts_of_the_text
           (py "One. Two. Three. Four. Five.") 10 4 28); [lia|].
  vm_compute. reflexivity.
Defined.

(** With an overlap of the chunk size or more, a pass never moves [start]
    forward. *)
Lemma chunk_step_stalls (text : str) (chunk_size overlap start : Z) :
  (0 < chunk_size)%Z -> (chunk_size <= overlap)%Z ->
  (snd (chunk_step text chunk_size overlap start) <= start)%Z.
Proof.
  intros Hcs Hov. unfold chunk_step.
  set (chunk := zslice text start (start + chunk_size)).
  assert (Hlen : (Z.of_nat (length chunk) <= chunk_size)%Z)
    by (apply zslice_length; lia).
  pose proof (rfind_char_bound period chunk) as Hp.
  pose proof (rfind_char_bound newline chunk) as Hn.
  destruct (start + chunk_size <? Z.of_nat (length text))%Z; [|cbn [snd]; lia].
  destruct (7 * chunk_size <? 10 * _)%Z; cbn [snd]; lia.
Qed.

Lemma chunk_loop_stalls (text : str) (chunk_size overlap : Z) :
  (0 < chunk_size)%Z -> (chunk_size <= overlap)%Z ->
  forall (fuel : nat) (start : Z) (acc : list str),
    (start < Z.of_nat (length text))%Z -> (start <= 0)%Z ->
    chunk_loop fuel text chunk_size overlap start acc = None.
Proof.
  intros Hcs Hov. induction fuel as [|fuel IH]; intros start acc Hlt Hneg; simpl;
    destruct (Z.ltb_spec start (Z.of_nat (length text))); try lia; [reflexivity|].
  pose proof (chunk_step_stalls text start Hcs Hov) as Hstall.
  destruct (chunk_step text chunk_size overlap start) as [chunk next].
  cbn [snd] in Hstall. apply IH; lia.
Qed.

(** X8. When the overlap is at least the chunk size (and the chunk size is
    positive), [chunk_text] never returns on a text longer than the chunk
    size: no pass of its loop moves the start index forward, so no number
    of passes ends it. *)
Theorem chunk_text_never_ends_when_overlap_covers_the_chunk
    (text : str) (chunk_size overlap : Z) (fuel : nat) :
  (0 < chunk_size)%Z ->
  (chunk_size <= overlap)%Z ->
  (chunk_size < Z.of_nat (length text))%Z ->
  chunk_text fuel text chunk_size overlap = None.
Proof.
  intros Hcs Hov Hlong. unfold chunk_text.
  destruct (Z.leb_spec (Z.of_nat (length text)) chunk_size); [lia|].
  apply chunk_loop_stalls; lia.
Qed.

Lemma chunk_text_never_ends_when_overlap_covers_the_chunk_witness :
  chunk_text 1000 (py "One. Two. Three. Four. Five.") 10 10 = None.
Proof.
  apply chunk_text_never_ends_when_overlap_covers_the_chunk;
    [lia | lia | vm_compute; reflexivity].
Defined.

End MoreChunkProofs.

(** ** Participant quotations *)

Section QuotationProofs.

Import Re EnhancedVectorStore ExtractionSpec.

Lemma substring_lower (a s : str) : substring a s -> substring (lower a) (lower s).
Proof.
  intros (u & v & ->). exists (lower u), (lower v). unfold lower.
  now rewrite !map_app.
Qed.

Lemma contains_substring (x a s : str) :
  substring a s -> contains x a = true -> contains x s = true.
Proof.
  intros Hsub Hx. apply contains_spec. apply contains_spec in Hx.
  exact (substring_trans Hx Hsub).
Qed.

Variable metadata : Type.

(** [extract_participant_voices] yields its fragments twice, since its
    two patterns are the same, and the text of none of them has a mark of
    a link. *)
Lemma participant_voices_twice (document : str) (md : metadata) :
  exists once,
    extract_participant_voices document md = once ++ once
    /\ Forall (fun f => free_of_links (text f) = true
                        /\ program f = None /\ meta f = md) once.
Proof.
  unfold extract_participant_voices, quote_patterns. simpl flat_map at 1.
  rewrite app_nil_r. eexists. split; [reflexivity|].
  apply Forall_forall. intros f Hin.
  apply in_flat_map in Hin as (x & _ & Hin). cbv zeta in Hin.
  set (mt := match x with FStr s => s | FTuple parts => concat parts end) in *.
  assert (Hsub : substring (lower (strip mt)) (lower mt))
    by (apply substring_lower, strip_substring).
  assert (Hno : forall x, contains x (lower mt) = false ->
                          contains x (lower (strip mt)) = false).
  { intros y Hy. destruct (contains y (lower (strip mt))) eqn:C; [|reflexivity].
    rewrite (contains_substring y Hsub C) in Hy. discriminate Hy. }
  destruct (contains _ (lower mt)) eqn:E1 in Hin; [destruct Hin|].
  destruct (contains _ (lower mt)) eqn:E2 in Hin; [destruct Hin|].
  destruct (contains _ (lower mt)) eqn:E3 in Hin; [destruct Hin|].
  destruct Hin as [<-|[]]. split; [|now split]. unfold free_of_links, link_marks, py.
  cbn [forallb EnhancedVectorStore.text list_ascii_of_string].
  rewrite (Hno _ E1), (Hno _ E2), (Hno _ E3). reflexivity.
Qed.

End QuotationProofs.

(** ** Generation controller: the retry loop *)

Section RetryProofs.

Import Llm VoiceGuidelines EnhancedGenerator GeneratorSpec RetrySpec.

Variable auto_fix : bool.
Variable llm : nat -> Q -> llm_outcome.
Variable name : str.
Variable max_attempts : nat.

(** One pass of the loop, validation on, when the call completes. *)
Lemma attempt_loop_completed (remaining attempt : nat) (st : locals)
    (content : str) (total_tokens : Z) :
  llm attempt (temperature st) = Completion content total_tokens ->
  attempt_loop true auto_fix llm name max_attempts (S remaining) attempt st
  = let st2 := record_attempt name st (attempt + 1) content total_tokens in
    if (min_voice_score <=? score (calculate_voice_score (strip content) name))%Z
       || negb auto_fix
    then Returned st2
    else attempt_loop true auto_fix llm name max_attempts remaining (S attempt)
           (if attempt <? max_attempts - 1 then warmer st2 else st2).
Proof.
  intros H. cbn -[calculate_voice_score min_voice_score Z.leb Nat.ltb Nat.eqb Nat.sub].
  rewrite H. unfold record_attempt, warmer.
  destruct (beats (score (calculate_voice_score (strip content) name)) (best_score st));
    cbn [best_text best_score l_attempts l_tokens_used temperature];
    destruct ((min_voice_score <=? _)%Z || negb auto_fix); try reflexivity;
    destruct (attempt <? max_attempts - 1); reflexivity.
Qed.

(** One pass of the loop when the call fails. *)
Lemma attempt_loop_failed (validate : bool) (remaining attempt : nat) (st : locals) :
  llm attempt (temperature st) = ApiError ->
  attempt_loop validate auto_fix llm name max_attempts (S remaining) attempt st
  = if attempt =? max_attempts - 1 then Raised
    else attempt_loop validate auto_fix llm name max_attempts remaining (S attempt) st.
Proof. intros H. cbn -[Nat.eqb Nat.sub]. now rewrite H. Qed.

Lemma going_on_ended (attempt bound : nat) (st : locals) :
  attempt <= bound -> going_on auto_fix attempt st -> ended auto_fix bound st.
Proof.
  intros Hle (Hlen & Hfix & Hnofix & Htok). repeat split; try apply Htok.
  - lia.
  - intros Haf. specialize (Hfix Haf). rewrite Forall_forall in *.
    intros a Ha. apply Hfix. clear - Ha.
    induction (l_attempts st) as [|x l IH]; [destruct Ha|].
    destruct l as [|y l]; [destruct Ha|]. destruct Ha as [<-|Ha]; [now left|].
    right. now apply IH.
  - intros Haf. rewrite (Hnofix Haf). simpl. lia.
Qed.

Lemma warmer_going_on (fix_on : bool) (attempt : nat) (st : locals) :
  going_on fix_on attempt st -> going_on fix_on attempt (warmer st).
Proof. trivial. Qed.

Lemma attempt_loop_ends (remaining : nat) :
  forall (attempt : nat) (st st' : locals),
    going_on auto_fix attempt st ->
    attempt_loop true auto_fix llm name max_attempts remaining attempt st = Returned st' ->
    ended auto_fix (attempt + remaining) st'.
Proof.
  induction remaining as [|remaining IH]; intros attempt st st' Hinv.
  - simpl. intros H. injection H as <-. apply (going_on_ended (attempt := attempt)); [lia|exact Hinv].
  - destruct (llm attempt (temperature st)) as [content total_tokens|] eqn:E.
    + rewrite (attempt_loop_completed remaining st E). cbv zeta.
      set (st2 := record_attempt name st (attempt + 1) content total_tokens).
      set (sc := score (calculate_voice_score (strip content) name)).
      destruct Hinv as (Hlen & Hfix & Hnofix & Htok).
      assert (Hlen2 : length (l_attempts st2) = S (length (l_attempts st))).
      { unfold st2, record_attempt. cbn [l_attempts]. rewrite length_app. simpl. lia. }
      assert (Htok2 : l_tokens_used st2 = None <-> l_attempts st2 = []).
      { unfold st2, record_attempt. cbn [l_attempts l_tokens_used]. split; [discriminate|].
        intros H. destruct (l_attempts st); discriminate H. }
      destruct (Z.leb_spec min_voice_score sc) as [Hok|Hlow]; cbn [orb].
      * intros H. injection H as <-. repeat split; try apply Htok2.
        -- lia.
        -- intros Haf. unfold st2, record_attempt. cbn [l_attempts].
           rewrite removelast_last. now apply Hfix.
        -- intros Haf. rewrite Hlen2, (Hnofix Haf). simpl. lia.
      * destruct auto_fix eqn:Eaf; cbn [negb].
        -- intros H.
           assert (Hgo : going_on true (S attempt) st2).
           { repeat split; try apply Htok2; try (intros Hf; congruence).
             - lia.
             - intros _. unfold st2, record_attempt. cbn [l_attempts].
               apply Forall_app. split; [now apply Hfix|].
               constructor; [|constructor]. cbn [a_score]. unfold min_voice_score in Hlow.
               exact Hlow. }
           replace (attempt + S remaining) with (S attempt + remaining) by lia.
           destruct (attempt <? max_attempts - 1);
             [apply (IH _ (warmer st2) _ (warmer_going_on Hgo) H)
             | apply (IH _ st2 _ Hgo H)].
        -- intros H. injection H as <-. repeat split; try apply Htok2;
             try (intros Hf; congruence).
           ++ lia.
           ++ intros _. rewrite Hlen2, (Hnofix eq_refl). simpl. lia.
    + rewrite (attempt_loop_failed true remaining st E).
      destruct (attempt =? max_attempts - 1); [discriminate|].
      intros H. replace (attempt + S remaining) with (S attempt + remaining) by lia.
      apply (IH _ st _); [|exact H].
      destruct Hinv as (Hlen & Hfix & Hnofix & Htok). repeat split; try apply Htok; auto.
Qed.

End RetryProofs.

(** ** Generation controller: what a call returns *)

Section RetryOutcomes.

Import Llm VoiceGuidelines EnhancedGenerator GeneratorSpec RetrySpec.

Variable llm : nat -> Q -> llm_outcome.
Variable name : str.
Variable max_attempts : nat.

Lemma going_on_initially (auto_fix : bool) (temp : Q) :
  going_on auto_fix 0 (initial_locals temp).
Proof. repeat split; try constructor; try reflexivity. Qed.

(** X10. With validation on, a result that [generate_section] returns
    records at least one attempt and at most [max_attempts]; its tokens are
    the sum of the tokens of the recorded attempts; with the automatic fix
    on, every recorded attempt but the last scored below 85 (the loop stops
    at the first score of 85 or more); with it off exactly one attempt is
    recorded, whatever its score. *)
Theorem validated_section_records_its_attempts (auto_fix retrieved : bool) (temp : Q)
    (r : section_result) :
  generate_section true auto_fix llm retrieved name temp max_attempts = Returned r ->
  attempts r <> []
  /\ length (attempts r) <= max_attempts
  /\ tokens_used r = sum_tokens (attempts r)
  /\ (auto_fix = true ->
        Forall (fun a => (a_score a < min_voice_score)%Z) (removelast (attempts r)))
  /\ (auto_fix = false -> length (attempts r) = 1).
Proof.
  unfold generate_section. destruct retrieved; [|discriminate]. simpl negb. cbv iota.
  destruct (attempt_loop _ _ _ _ _ _ _ _) as [st|] eqn:E; [|discriminate].
  pose proof (@attempt_loop_ends auto_fix llm name max_attempts max_attempts 0 _ st
                (going_on_initially auto_fix temp) E) as (Hlen & Hfix & Hnofix & Htok).
  simpl in Hlen.
  destruct (l_attempts st) as [|a l] eqn:El.
  - destruct (l_tokens_used st); [|discriminate].
    assert (Some z = None) by now apply Htok. discriminate.
  - intros H. injection H as <-. cbn [attempts tokens_used].
    repeat split; try assumption; try discriminate.
    intros Haf. specialize (Hnofix Haf). simpl in *. lia.
Qed.

Lemma low_scores_low_best (l : list attempt_record) :
  Forall (fun a => (a_score a < min_voice_score)%Z) l ->
  (best_recorded l < min_voice_score)%Z.
Proof.
  unfold min_voice_score. induction 1 as [|a l Ha _ IH]; simpl; lia.
Qed.

Lemma attempt_loop_exhausts (c : nat -> str) (tok : nat -> Z) (temp : Q) :
  (forall i, i < max_attempts ->
     llm i (nth_temperature temp i) = Completion (c i) (tok i)
     /\ (score (calculate_voice_score (strip (c i)) name) < min_voice_score)%Z) ->
  forall (remaining attempt : nat) (st : locals),
    attempt + remaining = max_attempts ->
    temperature st = nth_temperature temp attempt ->
    exists st',
      attempt_loop true true llm name max_attempts remaining attempt st = Returned st'
      /\ l_attempts st' = l_attempts st ++
           map (fun i => attempt_of name (c i) (tok i) (i + 1)) (seq attempt remaining).
Proof.
  intros Hall. induction remaining as [|remaining IH]; intros attempt st Hsum Htemp.
  - exists st. simpl. now rewrite app_nil_r.
  - destruct (Hall attempt ltac:(lia)) as [Hcall Hlow]. rewrite <- Htemp in Hcall.
    rewrite (@attempt_loop_completed true llm name max_attempts remaining attempt st
               (c attempt) (tok attempt) Hcall).
    cbv zeta.
    destruct (Z.leb_spec min_voice_score
                (score (calculate_voice_score (strip (c attempt)) name))) as [Hge|_];
      [lia|]. cbn [orb negb].
    set (st2 := record_attempt name st (attempt + 1) (c attempt) (tok attempt)).
    destruct remaining as [|remaining].
    + eexists. split; [reflexivity|].
      destruct (attempt <? max_attempts - 1); reflexivity.
    + destruct (Nat.ltb_spec attempt (max_attempts - 1)) as [_|Hge]; [|lia].
      destruct (IH (S attempt) (warmer st2) ltac:(lia)) as (st' & Hrun & Hatt).
      { cbn [warmer temperature st2 record_attempt]. rewrite Htemp. reflexivity. }
      exists st'. split; [exact Hrun|]. rewrite Hatt.
      cbn [warmer l_attempts st2 record_attempt]. rewrite <- app_assoc. reflexivity.
Qed.

Lemma sum_tokens_attempts (c : nat -> str) (tok : nat -> Z) (l : list nat) :
  sum_tokens (map (fun i => attempt_of name (c i) (tok i) (i + 1)) l)
  = fold_right Z.add 0%Z (map tok l).
Proof. induction l as [|i l IH]; simpl; [reflexivity|]. now rewrite IH. Qed.

(** X11. With validation and the automatic fix on, when every one of the
    [max_attempts] calls completes with a text that scores below 85 (the
    call of pass [i] being made at the temperature raised [i] times by 0.1
    up to 0.9), [generate_section] does not raise: it returns a result that
    records all the attempts, numbered from 1, whose tokens are the sum over
    all the calls and whose score is the best of them, below 85. *)
Theorem exhausted_retries_return_a_low_score (c : nat -> str) (tok : nat -> Z) (temp : Q) :
  1 <= max_attempts ->
  (forall i, i < max_attempts ->
     llm i (nth_temperature temp i) = Completion (c i) (tok i)
     /\ (score (calculate_voice_score (strip (c i)) name) < min_voice_score)%Z) ->
  exists r,
    generate_section true true llm true name temp max_attempts = Returned r
    /\ attempts r
       = map (fun i => attempt_of name (c i) (tok i) (i + 1)) (seq 0 max_attempts)
    /\ tokens_used r = fold_right Z.add 0%Z (map tok (seq 0 max_attempts))
    /\ voice_score r = Some (best_recorded (attempts r))
    /\ (best_recorded (attempts r) < min_voice_score)%Z.
Proof.
  intros Hmax Hall.
  destruct (@attempt_loop_exhausts c tok temp Hall max_attempts 0 (initial_locals temp)
              eq_refl eq_refl) as (st & Hrun & Hatt).
  cbn [initial_locals l_attempts app] in Hatt.
  assert (Hgen : generate_section true true llm true name temp max_attempts
                 = Returned {| text := best_text st; section_name := name;
                               voice_score := best_score st;
                               tokens_used := sum_tokens (l_attempts st);
                               attempts := l_attempts st |}).
  { unfold generate_section. simpl negb. cbv iota.
    unfold initial_locals in Hrun. rewrite Hrun.
    destruct (l_attempts st) as [|a l] eqn:El; [|reflexivity].
    destruct max_attempts; [lia|discriminate Hatt]. }
  eexists. split; [exact Hgen|].
  destruct (generate_section_keeps_best_score _ _ _ _ _ _ Hgen) as [Hbest _].
  cbn [attempts tokens_used voice_score] in *.
  split; [exact Hatt|]. split; [rewrite Hatt; apply sum_tokens_attempts|].
  split; [exact Hbest|]. apply low_scores_low_best. rewrite Hatt.
  apply Forall_forall. intros a Ha. apply in_map_iff in Ha.
  destruct Ha as (i & <- & Hi). apply in_seq in Hi. cbn [attempt_of a_score].
  apply Hall. lia.
Qed.



Lemma attempt_loop_last_failure (remaining : nat) :
  (forall t, llm (max_attempts - 1) t = ApiError) ->
  (forall i t content total_tokens,
     i < max_attempts - 1 -> llm i t = Completion content total_tokens ->
     (score (calculate_voice_score (strip content) name) < min_voice_score)%Z) ->
  forall (attempt : nat) (st : locals),
    attempt + remaining = max_attempts -> 1 <= remaining ->
    attempt_loop true true llm name max_attempts remaining attempt st = Raised.
Proof.
  intros Hlast Hlow. induction remaining as [|remaining IH]; intros attempt st Hsum Hpos;
    [lia|].
  destruct (llm attempt (temperature st)) as [content total_tokens|] eqn:E.
  - destruct (Nat.eq_dec attempt (max_attempts - 1)) as [He|Hne].
    { rewrite He, Hlast in E. discriminate. }
    rewrite (@attempt_loop_completed true llm name max_attempts remaining attempt st
               content total_tokens E). cbv zeta.
    pose proof (Hlow attempt _ _ _ ltac:(lia) E) as Hsc.
    destruct (Z.leb_spec min_voice_score
                (score (calculate_voice_score (strip content) name))) as [Hge|_];
      [lia|]. cbn [orb negb].
    apply IH; lia.
  - rewrite (@attempt_loop_failed true llm name max_attempts true remaining attempt st E).
    destruct (Nat.eqb_spec attempt (max_attempts - 1)) as [_|Hne]; [reflexivity|].
    apply IH; lia.
Qed.

(** X13. With validation and the automatic fix on, when the last of the
    [max_attempts] calls fails and no earlier completion scores 85 or more,
    [generate_section] raises: the texts of the earlier attempts, and the
    best of them, are not returned. *)
Theorem failure_of_the_last_attempt_raises (retrieved : bool) (temp : Q) :
  1 <= max_attempts ->
  (forall t, llm (max_attempts - 1) t = ApiError) ->
  (forall i t content total_tokens,
     i < max_attempts - 1 -> llm i t = Completion content total_tokens ->
     (score (calculate_voice_score (strip content) name) < min_voice_score)%Z) ->
  generate_section true true llm retrieved name temp max_attempts = Raised.
Proof.
  intros Hmax Hlast Hlow. unfold generate_section.
  destruct retrieved; [|reflexivity]. simpl negb. cbv iota.
  now rewrite (@attempt_loop_last_failure max_attempts Hlast Hlow 0 _ eq_refl Hmax).
Qed.

End RetryOutcomes.

Section RetryExamples.

Import Llm VoiceGuidelines EnhancedGenerator GeneratorSpec RetrySpec.

Lemma validated_section_records_its_attempts_witness :
  exists r,
    generate_section true true llm_failing_first true (py "Budget Narrative")
      Settings.TEMPERATURE 3 = Returned r
    /\ length (attempts r) <= 3
    /\ tokens_used r = sum_tokens (attempts r).
Proof.
  eassert (E : generate_section true true llm_failing_first true (py "Budget Narrative")
                 Settings.TEMPERATURE 3 = Returned _) by (vm_compute; reflexivity).
  eexists. split; [exact E|].
  destruct (@validated_section_records_its_attempts llm_failing_first
              (py "Budget Narrative") 3 true true Settings.TEMPERATURE _ E)
    as (_ & Hlen & Htok & _).
  split; assumption.
Defined.

Lemma exhausted_retries_return_a_low_score_witness :
  exists r,
    generate_section true true (constant_llm weak_text 50) true (py "Budget Narrative")
      Settings.TEMPERATURE 3 = Returned r
    /\ length (attempts r) = 3
    /\ tokens_used r = 150%Z
    /\ (best_recorded (attempts r) < 85)%Z.
Proof.
  destruct (@exhausted_retries_return_a_low_score (constant_llm weak_text 50)
              (py "Budget Narrative") 3 (fun _ => weak_text) (fun _ => 50%Z)
              Settings.TEMPERATURE ltac:(lia))
    as (r & Hr & Hatt & Htok & _ & Hlow).
  - intros i _. split; [reflexivity | vm_compute; reflexivity].
  - exists r. split; [exact Hr|]. split; [now rewrite Hatt|]. split; assumption.
Defined.


Lemma failure_of_the_last_attempt_raises_witness :
  generate_section true true llm_failing_last true (py "Budget Narrative")
    Settings.TEMPERATURE 3 = Raised.
Proof.
  apply failure_of_the_last_attempt_raises.
  - lia.
  - reflexivity.
  - intros i t content tok Hi. unfold llm_failing_last.
    destruct (i =? 2); [discriminate|]. intros H. injection H as <- <-.
    vm_compute. reflexivity.
Defined.

End RetryExamples.

(** ** Generation controller: the whole application *)

Section ApplicationProofs.

Import Llm VoiceGuidelines EnhancedGenerator GeneratorSpec RetrySpec.

Lemma str_eqb_eq (a b : str) : str_eqb a b = true <-> a = b.
Proof. unfold str_eqb. destruct (list_eq_dec ascii_dec a b); split; congruence. Qed.

Section Dict.

Variable V : Type.

Lemma dict_set_new (k : str) (v : V) (d : list (str * V)) :
  ~ In k (keys d) -> dict_set k v d = d ++ [(k, v)].
Proof.
  induction d as [|[k' v'] d IH]; simpl; intros Hn; [reflexivity|].
  destruct (str_eqb k k') eqn:E.
  - apply str_eqb_eq in E. subst. exfalso. apply Hn. now left.
  - rewrite IH; [reflexivity|]. intros H. apply Hn. now right.
Qed.

Lemma keys_dict_set_old (k : str) (v : V) (d : list (str * V)) :
  In k (keys d) -> keys (dict_set k v d) = keys d.
Proof.
  induction d as [|[k' v'] d IH]; simpl; intros Hin; [destruct Hin|].
  destruct (str_eqb k k') eqn:E.
  - apply str_eqb_eq in E. now subst.
  - simpl. f_equal. apply IH. destruct Hin as [->|Hin]; [|exact Hin].
    assert (str_eqb k k = true) by now apply str_eqb_eq. congruence.
Qed.

Lemma keys_dict_set (k : str) (v : V) (d : list (str * V)) :
  NoDup (keys d) ->
  NoDup (keys (dict_set k v d))
  /\ (forall n, In n (keys (dict_set k v d)) <-> n = k \/ In n (keys d)).
Proof.
  intros Hnd. destruct (in_dec (list_eq_dec ascii_dec) k (keys d)) as [Hin|Hout].
  - rewrite keys_dict_set_old by exact Hin. split; [exact Hnd|].
    intros n. split; [now right|]. intros [->|H]; assumption.
  - rewrite dict_set_new by exact Hout. unfold keys. rewrite map_app. simpl.
    split.
    + apply NoDup_app; [exact Hnd|repeat constructor; intros []|].
      intros x Hx [<-|[]]. now apply Hout.
    + intros n. rewrite in_app_iff. simpl. intuition congruence.
Qed.

Lemma keys_assign_all (l : list (str * V)) :
  forall d, NoDup (keys d) ->
    NoDup (keys (assign_all l d))
    /\ (forall n, In n (keys (assign_all l d)) <-> In n (keys l) \/ In n (keys d)).
Proof.
  induction l as [|[k v] l IH]; intros d Hnd; simpl.
  - split; [exact Hnd|]. intros n. intuition.
  - destruct (@keys_dict_set k v d Hnd) as [Hnd' Hin'].
    destruct (IH _ Hnd') as [Hnd'' Hin'']. split; [exact Hnd''|].
    intros n. rewrite Hin'', Hin'. intuition congruence.
Qed.

Lemma assign_all_distinct (l : list (str * V)) :
  forall d, NoDup (keys d ++ keys l) -> assign_all l d = d ++ l.
Proof.
  induction l as [|[k v] l IH]; intros d Hnd; simpl.
  - now rewrite app_nil_r.
  - simpl in Hnd. rewrite dict_set_new.
    + rewrite IH; [now rewrite <- app_assoc|].
      unfold keys in *. rewrite map_app, <- app_assoc. exact Hnd.
    + apply NoDup_remove_2 in Hnd. intros H. apply Hnd. apply in_or_app. now left.
Qed.

End Dict.

Variables (auto_validate auto_fix : bool).
Variable llm : nat -> nat -> Q -> llm_outcome.
Variable retrieved : nat -> bool.

Lemma record_section_fields (name : str) (result : section_result) (st : app_locals) :
  let st' := record_section name result st in
  sections (app st') = dict_set name (text result) (sections (app st))
  /\ total_tokens (metadata (app st'))
     = (total_tokens (metadata (app st)) + tokens_used result)%Z
  /\ sections_generated (metadata (app st')) = sections_generated (metadata (app st)).
Proof.
  unfold record_section. destruct (voice_score result) as [vs|]; [|now simpl].
  destruct (truthy (Some vs)); now simpl.
Qed.

Lemma sections_loop_fields (names : list str) :
  forall (i : nat) (temp : Q) (st : app_locals),
    match run_sections auto_validate auto_fix llm retrieved names i temp with
    | Raised => sections_loop auto_validate auto_fix llm retrieved names i temp st = Raised
    | Returned rs =>
        exists st',
          sections_loop auto_validate auto_fix llm retrieved names i temp st = Returned st'
          /\ length rs = length names
          /\ sections (app st')
             = assign_all (combine names (map text rs)) (sections (app st))
          /\ total_tokens (metadata (app st'))
             = (total_tokens (metadata (app st)) + sum_tokens_used rs)%Z
          /\ sections_generated (metadata (app st'))
             = sections_generated (metadata (app st))
    end.
Proof.
  induction names as [|name names IH]; intros i temp st; simpl.
  - exists st. repeat split. simpl. lia.
  - destruct (generate_section auto_validate auto_fix (llm i) (retrieved i) name temp 3)
      as [result|]; [|reflexivity].
    specialize (IH (S i) temp (record_section name result st)).
    destruct (run_sections auto_validate auto_fix llm retrieved names (S i) temp)
      as [results|]; [|exact IH].
    destruct IH as (st' & Hloop & Hlen & Hsec & Htok & Hgen).
    destruct (record_section_fields name result st) as (Hs1 & Ht1 & Hg1).
    exists st'. split; [exact Hloop|]. simpl. split; [now rewrite Hlen|].
    split; [now rewrite Hsec, Hs1|]. split; [rewrite Htok, Ht1; lia|congruence].
Qed.

(** X14. [generate_full_application] raises exactly when the generation of
    one of its sections raises: there is no partial application.  When all
    the sections are generated, the total of tokens is the sum over all of
    them, the count of sections is the length of the list of names, and the
    dictionary of sections has each name of the list once as a key; if no
    name is repeated in the list, it holds the texts of the results in the
    order of the list.  (A name that is repeated keeps the text generated
    last, while the tokens of both generations are counted.) *)
Theorem application_accounts_for_every_section (sections_arg : list str) (temp : Q) :
  match run_sections auto_validate auto_fix llm retrieved
          (effective_sections sections_arg) 0 temp with
  | Raised =>
      generate_full_application auto_validate auto_fix llm retrieved sections_arg temp
      = Raised
  | Returned rs =>
      exists a,
        generate_full_application auto_validate auto_fix llm retrieved sections_arg temp
        = Returned a
        /\ total_tokens (metadata a) = sum_tokens_used rs
        /\ sections_generated (metadata a) = length (effective_sections sections_arg)
        /\ NoDup (keys (sections a))
        /\ (forall n, In n (keys (sections a)) <-> In n (effective_sections sections_arg))
        /\ (NoDup (effective_sections sections_arg) ->
              sections a = combine (effective_sections sections_arg) (map text rs))
  end.
Proof.
  unfold generate_full_application. fold (effective_sections sections_arg).
  set (names := effective_sections sections_arg).
  match goal with |- context [sections_loop _ _ _ _ _ _ _ ?init] =>
    pose proof (sections_loop_fields names 0 temp init) as H
  end.
  destruct (run_sections auto_validate auto_fix llm retrieved names 0 temp) as [rs|].
  - destruct H as (st' & Hloop & Hlen & Hsec & Htok & Hgen). rewrite Hloop.
    cbn [app sections metadata total_tokens sections_generated] in Hsec, Htok, Hgen.
    assert (Hkeys : keys (combine names (map text rs)) = names).
    { unfold keys. clear - Hlen. revert rs Hlen.
      induction names as [|n ns IH]; intros [|r rs] Hlen; simpl in *;
        try discriminate; try reflexivity.
      f_equal. apply IH. lia. }
    destruct (@keys_assign_all _ (combine names (map text rs)) [] (NoDup_nil _))
      as [Hnd Hin].
    assert (Hdist : NoDup names ->
                    assign_all (combine names (map text rs)) []
                    = combine names (map text rs)).
    { intros Hn. rewrite assign_all_distinct; [reflexivity|]. simpl. now rewrite Hkeys. }
    assert (Hin' : forall n, In n (keys (assign_all (combine names (map text rs)) []))
                             <-> In n names).
    { intros n. rewrite Hin, Hkeys. simpl. intuition. }
    destruct (0 <? sections_with_scores st'); eexists; (split; [reflexivity|]);
      cbn [sections metadata total_tokens sections_generated];
      rewrite Hsec, Htok, Hgen; repeat split; try assumption; try apply Hin'; lia.
  - now rewrite H.
Qed.

End ApplicationProofs.

(** ** Voice validator: what the issues and the report say *)

Section ReportProofs.

Import VoiceGuidelines VoiceBonusSpec ExtractionSpec Validation ReportSpec.













End ReportProofs.

(** ** Embedding in batches *)

Section EmbeddingProofs.

Import Llm Embeddings.

Variable embedding : Type.
Variable create : list str -> option (list embedding).

Lemma range_step_covers (stop step : nat) :
  0 < step ->
  let m := (stop + step - 1) / step in
  stop <= m * step /\ (0 < m -> (m - 1) * step < stop).
Proof.
  intros Hstep. cbv zeta.
  pose proof (Nat.div_mod_eq (stop + step - 1) step) as Hdm.
  pose proof (Nat.mod_upper_bound (stop + step - 1) step ltac:(lia)) as Hr.
  set (m := (stop + step - 1) / step) in *.
  set (r := (stop + step - 1) mod step) in *.
  split; [nia|]. intros Hm. destruct m; [lia|]. simpl. rewrite Nat.sub_0_r. nia.
Qed.

Lemma embed_batches_in_order (e : str -> embedding) (texts : list str) (batch_size : nat) :
  0 < batch_size ->
  (forall batch, batch <> [] -> length batch <= batch_size ->
     create batch = Some (map e batch)) ->
  forall (m a : nat) (acc : list embedding),
    length texts <= (a + m) * batch_size ->
    (0 < m -> (a + m - 1) * batch_size < length texts) ->
    embed_batches create (map (fun k => k * batch_size) (seq a m)) texts batch_size acc
    = Returned (acc ++ map e (skipn (a * batch_size) texts)).
Proof.
  intros Hpos Hcreate. induction m as [|m IH]; intros a acc Hup Hlow; simpl.
  - rewrite skipn_all2 by lia. simpl. now rewrite app_nil_r.
  - specialize (Hlow ltac:(lia)).
    assert (Hlen : a * batch_size < length texts) by nia.
    rewrite Hcreate.
    + rewrite IH; [| lia | intros _; replace (S a + m - 1) with (a + S m - 1) by lia; exact Hlow].
      rewrite <- app_assoc, <- map_app. do 2 f_equal.
      replace (S a * batch_size) with (batch_size + a * batch_size) by lia.
      rewrite <- skipn_skipn. now rewrite firstn_skipn.
    + intros H. apply (f_equal (@length str)) in H.
      rewrite length_firstn, length_skipn in H. simpl in H. lia.
    + rewrite length_firstn. lia.
Qed.

(** X17. [embed_documents] asks for the embeddings of the texts batch by
    batch, in order, each text once: when the provider answers every batch
    that is not empty and has at most [batch_size] texts with the
    embeddings of its texts, the result is the list of the embeddings of
    all the texts, in the order of the texts.  No empty batch and no batch
    longer than [batch_size] is sent, and for an empty list the provider is
    not called. *)
Theorem embed_documents_keeps_the_order (e : str -> embedding) (texts : list str)
    (batch_size : nat) :
  0 < batch_size ->
  (forall batch, batch <> [] -> length batch <= batch_size ->
     create batch = Some (map e batch)) ->
  embed_documents create texts batch_size = Returned (map e texts).
Proof.
  intros Hpos Hcreate. unfold embed_documents, range_step.
  destruct (Nat.eqb_spec batch_size 0) as [H0|_]; [lia|].
  destruct (range_step_covers (length texts) Hpos) as [Hup Hlow].
  rewrite (@embed_batches_in_order e texts batch_size Hpos Hcreate _ 0 []); try assumption.
  reflexivity.
Qed.

Lemma embed_batches_failure (texts : list str) (batch_size : nat) :
  forall (starts : list nat) (acc : list embedding),
    (exists i, In i starts /\ create (firstn batch_size (skipn i texts)) = None) ->
    embed_batches create starts texts batch_size acc = Raised.
Proof.
  induction starts as [|i starts IH]; intros acc (j & Hj & Hfail); [destruct Hj|].
  simpl. destruct (create (firstn batch_size (skipn i texts))) as [b|] eqn:E;
    [|reflexivity].
  apply IH. exists j. split; [|exact Hfail].
  destruct Hj as [->|Hj]; [congruence | exact Hj].
Qed.

(** X18. When the provider fails on one batch, [embed_documents] raises:
    the embeddings of the batches before it are not returned. *)
Theorem embed_documents_fails_as_a_whole (texts : list str) (batch_size k : nat) :
  k * batch_size < length texts ->
  create (firstn batch_size (skipn (k * batch_size) texts)) = None ->
  embed_documents create texts batch_size = Raised.
Proof.
  intros Hk Hfail. unfold embed_documents.
  destruct (Nat.eqb_spec batch_size 0) as [H0|Hne]; [reflexivity|].
  apply embed_batches_failure. exists (k * batch_size). split; [|exact Hfail].
  unfold range_step. apply in_map_iff. exists k. split; [reflexivity|].
  apply in_seq. destruct (@range_step_covers (length texts) batch_size ltac:(lia))
    as [Hup _]. nia.
Qed.

End EmbeddingProofs.

Section EmbeddingExamples.

Import Llm Embeddings.

Lemma embed_documents_keeps_the_order_witness :
  embed_documents (fun batch => Some (map (@length ascii) batch))
    [py "a"; py "bb"; py "ccc"; py "dddd"; py "eeeee"] 2
  = Returned [1; 2; 3; 4; 5].
Proof.
  apply (@embed_documents_keeps_the_order nat
           (fun batch => Some (map (@length ascii) batch)) (@length ascii)
           [py "a"; py "bb"; py "ccc"; py "dddd"; py "eeeee"] 2).
  - lia.
  - reflexivity.
Defined.

Lemma embed_documents_fails_as_a_whole_witness :
  embed_documents
    (fun batch => if 1 <? length batch then Some (map (@length ascii) batch) else None)
    [py "a"; py "bb"; py "ccc"; py "dddd"; py "eeeee"] 2
  = Raised.
Proof.
  apply (@embed_documents_fails_as_a_whole nat
           (fun batch => if 1 <? length batch then Some (map (@length ascii) batch) else None)
           [py "a"; py "bb"; py "ccc"; py "dddd"; py "eeeee"] 2 2).
  - simpl. lia.
  - reflexivity.
Defined.

End EmbeddingExamples.

(** ** Ingestion of a document *)

Section IngestionProofs.

Import Llm EnhancedVectorStore Embeddings Ingestion IngestionSpec ExtractionSpec.

Variables (embedding metadata : Type).
Variable filename : metadata -> option str.
Variable create : list str -> option (list embedding).
Variable add : add_call embedding metadata -> bool.

Lemma decimal_inj (i j : nat) : decimal i = decimal j -> i = j.
Proof.
  unfold decimal. intros H.
  apply (f_equal string_of_list_ascii) in H.
  rewrite !string_of_list_ascii_of_string in H.
  apply (f_equal NilEmpty.uint_of_string) in H. rewrite !NilEmpty.usu in H.
  injection H as H. apply (f_equal Nat.of_uint) in H.
  now rewrite !Unsigned.of_to in H.
Qed.

Lemma NoDup_map_inj {A B : Type} (f : A -> B) (l : list A) :
  (forall x y, f x = f y -> x = y) -> NoDup l -> NoDup (map f l).
Proof.
  intros Hinj. induction 1 as [|x l Hx _ IH]; simpl; constructor; [|exact IH].
  intros Hin. apply in_map_iff in Hin as (y & Hy & Hin).
  apply Hinj in Hy. now subst.
Qed.

Lemma ids_of_distinct (doc_id : str) (kind : string) (n : nat) :
  NoDup (ids_of doc_id kind n) /\ length (ids_of doc_id kind n) = n.
Proof.
  unfold ids_of. split; [|now rewrite length_map, length_seq].
  apply NoDup_map_inj; [|apply seq_NoDup].
  intros i j H. apply app_inv_head in H. apply app_inv_head in H.
  now apply decimal_inj.
Qed.

Lemma add_call_adds (text : str) (md : metadata) (c : collection)
    (call : list embedding -> add_call embedding metadata) (n : nat) (texts : list str) :
  texts <> [] ->
  n = length texts ->
  texts = documents_for text md c ->
  (forall embeddings_, complete_call filename text md c (call embeddings_)) ->
  step_adds filename text md c
    (let* embeddings_ := embed create texts in
     let* _ := collection_add add (call embeddings_) in
     ret n).
Proof.
  intros Hne Hn Hdocs Hcall l. unfold and_then, embed, collection_add, ret.
  destruct (embed_documents create texts 100) as [embeddings_|].
  - destruct (add (call embeddings_)).
    + exists [call embeddings_]. cbn [fst snd]. split; [reflexivity|].
      split; [right; eexists; split; [reflexivity|apply Hcall]|].
      intros k Hk. injection Hk as <-. split; [now rewrite Hn, Hdocs|].
      rewrite <- Hdocs. split; [discriminate|]. intros H. now apply Hne in H.
    + exists []. cbn [fst snd]. rewrite app_nil_r. split; [reflexivity|].
      split; [now left|]. discriminate.
  - exists []. cbn [fst snd]. rewrite app_nil_r. split; [reflexivity|].
    split; [now left|]. discriminate.
Qed.

Lemma nothing_to_add (text : str) (md : metadata) (c : collection) :
  documents_for text md c = [] ->
  @step_adds embedding metadata filename text md c (ret 0).
Proof.
  intros Hdocs l. exists []. unfold ret. cbn [fst snd]. rewrite app_nil_r.
  split; [reflexivity|]. split; [now left|]. intros n H. injection H as <-.
  rewrite Hdocs. split; [reflexivity|]. split; reflexivity.
Qed.

Lemma add_fragments_adds (text : str) (md : metadata) (c : collection)
    (items : list (fragment metadata)) :
  documents_for text md c = map (@EnhancedVectorStore.text _) items ->
  step_adds filename text md c (add_fragments filename create add c (kind_of c) md items).
Proof.
  intros Hdocs. unfold add_fragments. destruct items as [|item items].
  - now apply nothing_to_add.
  - set (its := item :: items) in *. cbv zeta.
    apply (@add_call_adds text md c
             (fun embeddings_ =>
                {| to := c;
                   ids := ids_of (doc_id_of filename md) (kind_of c)
                            (length (map (@EnhancedVectorStore.text _) its));
                   embeddings := embeddings_;
                   documents := map (@EnhancedVectorStore.text _) its;
                   metadatas := map (@FragmentMetadata _) its |})).
    + discriminate.
    + now rewrite length_map.
    + now rewrite Hdocs.
    + intros embeddings_. unfold complete_call.
      cbn [to documents ids metadatas]. rewrite Hdocs.
      repeat split; try discriminate; try apply ids_of_distinct.
      now rewrite !length_map.
Qed.

Lemma add_chunks_adds (text : str) (md : metadata) :
  step_adds filename text md full_content (add_chunks filename create add text md).
Proof.
  unfold add_chunks. cbv zeta.
  destruct (kept_chunks text) as [|chunk chunks] eqn:E.
  - now apply nothing_to_add.
  - rewrite <- E.
    apply (@add_call_adds text md full_content
             (fun embeddings_ =>
                {| to := full_content;
                   ids := ids_of (doc_id_of filename md) "_chunk_"
                            (length (kept_chunks text));
                   embeddings := embeddings_;
                   documents := kept_chunks text;
                   metadatas := map (fun i => ChunkMetadata md i (length (kept_chunks text)))
                                    (seq 0 (length (kept_chunks text))) |})).
    + now rewrite E.
    + reflexivity.
    + reflexivity.
    + intros embeddings_. unfold complete_call.
      cbn [to documents ids metadatas documents_for kind_of].
      repeat split; try apply ids_of_distinct; [now rewrite E|].
      now rewrite length_map, length_seq.
Qed.

Lemma step_of_adds (text : str) (md : metadata) (c : collection) :
  step_adds filename text md c (step_of filename create add text md c).
Proof.
  destruct c.
  - apply add_chunks_adds.
  - apply (@add_fragments_adds text md voice_phrases
             (extract_voice_phrases text md) eq_refl).
  - apply (@add_fragments_adds text md data_metrics
             (extract_data_metrics text md) eq_refl).
  - apply (@add_fragments_adds text md participant_voices
             (extract_participant_voices text md) eq_refl).
  - apply (@add_fragments_adds text md codesign_examples
             (extract_codesign_language text md) eq_refl).
  - apply (@add_fragments_adds text md program_descriptions
             (extract_program_descriptions text md) eq_refl).
Qed.

Lemma in_turn_adds (text : str) (md : metadata) (cs : list collection) :
  forall l, exists news,
    fst (in_turn (map (fun c => (c, step_of filename create add text md c)) cs) l)
    = l ++ concat news
    /\ Forall2 (fun c new =>
                  new = [] \/ exists call, new = [call]
                                           /\ complete_call filename text md c call)
               cs news
    /\ (forall cnts,
          snd (in_turn (map (fun c => (c, step_of filename create add text md c)) cs) l)
          = Returned cnts ->
          cnts = map (fun c => (c, length (documents_for text md c))) cs
          /\ Forall2 (fun c new => new = [] <-> documents_for text md c = []) cs news).
Proof.
  induction cs as [|c cs IH]; intros l.
  - exists []. simpl. rewrite app_nil_r. split; [reflexivity|]. split; [constructor|].
    intros cnts H. injection H as <-. split; [reflexivity | constructor].
  - cbn [map in_turn]. unfold and_then, ret.
    destruct (step_of_adds text md c l) as (new & Hlog & Hcall & Hret).
    destruct (step_of filename create add text md c l) as [l1 [n|]];
      cbn [fst snd] in Hlog, Hret; subst l1.
    + destruct (IH (l ++ new)) as (news & Hlog' & Hcalls & Hret').
      destruct (Hret n eq_refl) as [-> Hnone].
      exists (new :: news).
      match type of Hlog' with fst ?r = _ =>
        remember r as res eqn:Eres; clear Eres
      end.
      destruct res as [l2 [cnts|]]; cbn [fst snd] in *; subst l2.
      * split; [now rewrite <- app_assoc|]. split; [now constructor|].
        intros cnts' H. injection H as <-.
        destruct (Hret' cnts eq_refl) as [-> Hnones]. split; [reflexivity|].
        now constructor.
      * split; [now rewrite <- app_assoc|]. split; [now constructor|]. discriminate.
    + exists (new :: map (fun _ => []) cs). cbn [fst snd concat].
      assert (Hnil : concat (map (fun _ : collection => @nil (add_call embedding metadata)) cs)
                     = []) by (clear; induction cs; simpl; auto).
      rewrite Hnil, app_nil_r. split; [reflexivity|]. split; [|discriminate].
      constructor; [exact Hcall|]. clear. induction cs; simpl; constructor; auto.
Qed.

Lemma add_document_enhanced_in_turn (text : str) (md : metadata)
    (l : log embedding metadata) :
  add_document_enhanced filename create add text md l
  = in_turn (map (fun c => (c, step_of filename create add text md c)) all_collections) l.
Proof.
  unfold add_document_enhanced, all_collections. cbn [map in_turn step_of].
  unfold and_then, ret.
  repeat match goal with
         | |- context [match ?m ?s with (_, _) => _ end] =>
             lazymatch m with
             | add_chunks _ _ _ _ _ => idtac
             | add_fragments _ _ _ _ _ _ _ => idtac
             end;
             destruct (m s) as [? [?|]]; try reflexivity
         end.
Qed.




End IngestionProofs.

(** ** Rebuild of the database *)

Section YearProofs.

Import Re RebuildDatabase RebuildSpec ExtractionSpec.







End YearProofs.

Section RebuildProofs.

Import Llm EnhancedVectorStore Embeddings Ingestion IngestionSpec RebuildDatabase RebuildSpec.

Variable embedding : Type.
Variable create : list str -> option (list embedding).
Variable add : add_call embedding file_metadata -> bool.

Lemma docs_in_app (a b : log embedding file_metadata) :
  docs_in (a ++ b) = docs_in a + docs_in b.
Proof. unfold docs_in. now rewrite map_app, list_sum_app. Qed.

Lemma docs_in_calls (filename : file_metadata -> option str) (text : str)
    (md : file_metadata) (cs : list collection)
    (news : list (log embedding file_metadata)) :
  Forall2 (fun c new =>
             new = [] \/ exists call, new = [call]
                                      /\ complete_call filename text md c call) cs news ->
  Forall2 (fun c new => new = [] <-> documents_for text md c = []) cs news ->
  docs_in (concat news)
  = sum_counts (map (fun c => (c, length (documents_for text md c))) cs).
Proof.
  induction 1 as [|c new cs news Hcall _ IH]; intros Hnone; [reflexivity|].
  inversion Hnone as [|? ? ? ? Hn Hrest]; subst.
  cbn [concat map]. rewrite docs_in_app, (IH Hrest).
  unfold sum_counts. cbn [map snd list_sum]. f_equal.
  destruct Hcall as [->|(call & -> & Hc)].
  - assert (Hd : documents_for text md c = []) by now apply Hn. now rewrite Hd.
  - destruct Hc as (_ & Hdocs & _). unfold docs_in. cbn. now rewrite Hdocs, Nat.add_0_r.
Qed.

Lemma add_document_enhanced_counts (filename : file_metadata -> option str)
    (text : str) (md : file_metadata) (s : store embedding) :
  exists new,
    fst (add_document_enhanced filename create add text md s) = s ++ new
    /\ forall counts,
         snd (add_document_enhanced filename create add text md s) = Returned counts ->
         sum_counts counts = docs_in new.
Proof.
  rewrite add_document_enhanced_in_turn.
  destruct (@in_turn_adds embedding file_metadata filename create add text md
              all_collections s) as (news & Hlog & Hcalls & Hret).
  exists (concat news). split; [exact Hlog|].
  intros counts H. destruct (Hret counts H) as [-> Hnone].
  symmetry. now apply docs_in_calls with (filename := filename).
Qed.

(** What the loop over the files keeps true. *)
Lemma process_file_counts (f : grant_file) (s : store embedding) (p : progress) :
  let st := process_file create add (s, p) f in
  successful (snd st) + failed (snd st) = S (successful p + failed p)
  /\ failed p <= failed (snd st)
  /\ exists new,
       fst st = s ++ new
       /\ total_items (snd st) <= total_items p + docs_in new
       /\ (failed (snd st) = failed p ->
           total_items (snd st) = total_items p + docs_in new).
Proof.
  cbv zeta. unfold process_file.
  assert (Hfail : forall new : log embedding file_metadata,
            successful (one_more_failed p) + failed (one_more_failed p)
            = S (successful p + failed p)
            /\ failed p <= failed (one_more_failed p)
            /\ exists new', s ++ new = s ++ new'
                 /\ total_items (one_more_failed p) <= total_items p + docs_in new'
                 /\ (failed (one_more_failed p) = failed p ->
                     total_items (one_more_failed p) = total_items p + docs_in new')).
  { intros new. cbn [one_more_failed successful failed total_items].
    split; [lia|]. split; [lia|]. exists new. split; [reflexivity|]. split; lia. }
  destruct (f_read f) as [text|].
  - destruct (negb (nonempty (strip text))).
    + cbn [fst snd]. pose proof (Hfail []) as H0. rewrite app_nil_r in H0. exact H0.
    + destruct (add_document_enhanced_counts (fun md => Some (md_filename md)) text
                  (metadata_of f) s) as (new & Hlog & Hret).
      destruct (add_document_enhanced _ create add text (metadata_of f) s)
        as [s' [counts|]]; cbn [fst snd] in *; subst s'.
      * cbn [successful failed total_items]. split; [lia|]. split; [lia|].
        exists new. rewrite (Hret counts eq_refl). split; [reflexivity|]. split; lia.
      * apply Hfail.
  - cbn [fst snd]. pose proof (Hfail []) as H0. rewrite app_nil_r in H0. exact H0.
Qed.

Lemma process_files_count (files : list grant_file) :
  forall (s : store embedding) (p : progress),
    let st := fold_left (process_file create add) files (s, p) in
    successful (snd st) + failed (snd st) = successful p + failed p + length files
    /\ failed p <= failed (snd st)
    /\ exists new,
         fst st = s ++ new
         /\ total_items (snd st) <= total_items p + docs_in new
         /\ (failed (snd st) = failed p ->
             total_items (snd st) = total_items p + docs_in new).
Proof.
  induction files as [|f files IH]; intros s p; cbv zeta; cbn [fold_left length].
  - cbn [fst snd]. split; [lia|]. split; [lia|]. exists []. rewrite app_nil_r.
    cbn. split; [reflexivity|]. split; lia.
  - destruct (process_file_counts f s p) as (Hn & Hf & new1 & Hlog1 & Hle1 & Heq1).
    destruct (process_file create add (s, p) f) as [s1 p1]. cbn [fst snd] in *. subst s1.
    destruct (IH (s ++ new1) p1) as (Hn' & Hf' & new2 & Hlog2 & Hle2 & Heq2).
    split; [lia|]. split; [lia|]. exists (new1 ++ new2).
    rewrite Hlog2, <- app_assoc, docs_in_app. split; [reflexivity|]. split; [lia|].
    intros H. rewrite Heq2 by lia. rewrite Heq1 by lia. lia.
Qed.

(** X21. [rebuild_database] returns before its loop and leaves the store
    as it was when the clearing is asked for and the answer typed, in any
    case, is not [yes].  With that answer the store is emptied first: when
    the directory is missing or holds no file the function returns before
    its loop with the store empty.  Without the clearing, a directory that
    is missing or holds no file leaves the store as it was.  In every other
    case the loop runs: every file is counted once, as successful or as
    failed, whatever goes wrong with it; the store, emptied first when the
    clearing was asked for, only grows; and the total of items reported is
    at most the number of texts added to the store, and equal to it when no
    file failed (a file that fails midway leaves what it had added). *)
Theorem rebuild_database_counts_every_file (clear_existing : bool) (confirmation : str)
    (directory : option (list grant_file)) (s : store embedding) :
  let run := rebuild_database create add clear_existing confirmation directory s in
  let confirmed := lower confirmation = py "yes" in
  let no_file := directory = None \/ directory = Some [] in
  (clear_existing = true -> ~ confirmed -> run = (s, None))
  /\ (clear_existing = true -> confirmed -> no_file -> run = ([], None))
  /\ (clear_existing = false -> no_file -> run = (s, None))
  /\ (forall files,
        directory = Some files -> files <> [] ->
        (clear_existing = true -> confirmed) ->
        exists p new,
          run = ((if clear_existing then [] else s) ++ new, Some p)
          /\ successful p + failed p = length files
          /\ total_items p <= docs_in new
          /\ (failed p = 0 -> total_items p = docs_in new)).
Proof.
  cbv zeta. unfold rebuild_database. split; [|split; [|split]].
  - intros -> Hno. cbn [andb].
    destruct (str_eqb (lower confirmation) (py "yes")) eqn:E; [|reflexivity].
    apply str_eqb_eq in E. contradiction.
  - intros -> Hyes [->| ->]; cbn [andb];
      rewrite (proj2 (@str_eqb_eq (lower confirmation) (py "yes")) Hyes); reflexivity.
  - intros -> [->| ->]; reflexivity.
  - intros files -> Hfiles Hyes.
    assert (Hgo : clear_existing
                  && negb (str_eqb (lower confirmation) (py "yes")) = false).
    { destruct clear_existing; [|reflexivity]. cbn [andb].
      now rewrite (proj2 (@str_eqb_eq (lower confirmation) (py "yes")) (Hyes eq_refl)). }
    rewrite Hgo. destruct files as [|f files]; [contradiction|].
    pose proof (process_files_count (f :: files) (if clear_existing then [] else s)
                  {| total_items := 0; successful := 0; failed := 0 |}) as H.
    cbv zeta in H.
    destruct (fold_left _ (f :: files) _) as [s' p]. cbn [fst snd] in *.
    destruct H as (Hn & _ & new & Hlog & Hle & Heq).
    exists p, new. subst s'. split; [reflexivity|]. split; [exact Hn|].
    split; [exact Hle|]. intros H0. now apply Heq.
Qed.

End RebuildProofs.

(** ** The context given to the language model *)

Section PromptProofs.

Import EnhancedVectorStore Ingestion PromptContext PromptSpec ExtractionSpec.

Variables (metadata distance : Type).
Variables (filename category_of program_of : metadata -> option str).

Lemma join_part (sep x : str) (parts : list str) :
  In x parts -> substring x (join sep parts).
Proof.
  induction parts as [|p parts IH]; [intros []|]. intros [->|Hin].
  - destruct parts as [|q parts]; [apply substring_refl|].
    exists [], (sep ++ join sep (q :: parts)). reflexivity.
  - specialize (IH Hin). destruct parts as [|q parts]; [destruct Hin|].
    change (join sep (p :: q :: parts)) with (p ++ sep ++ join sep (q :: parts)).
    destruct IH as (u & v & Hj). rewrite Hj.
    exists (p ++ sep ++ u), v. now rewrite <- !app_assoc.
Qed.

Lemma join_nil (sep : str) (parts : list str) :
  sep <> [] -> join sep parts = [] -> parts = [] \/ parts = [[]].
Proof.
  intros Hsep. destruct parts as [|p [|q parts]]; cbn [join]; intros H.
  - now left.
  - right. now rewrite H.
  - apply app_eq_nil in H as [_ H]. apply app_eq_nil in H as [H _]. contradiction.
Qed.

Lemma block_line {A : Type} (items : list A) (heading x : str) (lines : list str) :
  items <> [] -> In x lines -> In x (block items heading lines).
Proof. destruct items; [congruence|]. intros _ H. now right. Qed.

Lemma in_enumerate1 {A : Type} (items : list A) (item : A) :
  In item items -> exists i, In (i, item) (enumerate1 items).
Proof.
  unfold enumerate1. generalize 1 as start.
  induction items as [|a items IH]; intros start; [intros []|].
  intros [->|Hin]; cbn [length seq combine].
  - exists start. now left.
  - destruct (IH (S start) Hin) as [i Hi]. exists i. now right.
Qed.

(** X22. The context that [format_retrieval_for_prompt] builds holds the
    text of every hit of the six lists of the retrieval, whole and
    unchanged; and it is the empty string exactly when the six lists are
    empty. *)
Theorem prompt_context_holds_every_retrieved_text (r : results metadata distance) :
  (forall item, In item (all_hits r) ->
     substring (h_text item)
       (format_retrieval_for_prompt filename category_of program_of r))
  /\ (format_retrieval_for_prompt filename category_of program_of r = []
      <-> all_hits r = []).
Proof.
  split.
  - intros item Hin. unfold format_retrieval_for_prompt. cbv zeta.
    assert (Hline : exists line,
              substring (h_text item) line
              /\ In line
                   (block (content r)
                      (py "=== SIMILAR GRANT CONTENT (for structure and detail) ===")
                      (flat_map
                         (fun entry : nat * hit metadata distance =>
                            let (i, item) := entry in
                            let source := get (filename (h_metadata item)) (py "Unknown") in
                            [ newline :: py "Example " ++ decimal i ++ py " (from "
                                ++ source ++ py "):";
                              h_text item ])
                         (enumerate1 (content r)))
                    ++ block (voice r)
                      (newline :: newline ::
                       py "=== AUTHENTIC CAMBIO LABS PHRASES (use these exact patterns) ===")
                      (map (fun item =>
                              py "- " ++ h_text item ++ py " ["
                              ++ get (category_of (h_metadata item)) [] ++ py "]")
                           (voice r))
                    ++ block (data r)
                      (newline :: newline ::
                       py "=== SPECIFIC DATA POINTS (use these exact numbers) ===")
                      (map (fun item => py "- " ++ h_text item) (data r))
                    ++ block (quotes r)
                      (newline :: newline ::
                       py "=== PARTICIPANT VOICES (consider including) ===")
                      (map (fun item => py "- " ++ dquote :: h_text item ++ [dquote])
                           (quotes r))
                    ++ block (codesign r)
                      (newline :: newline ::
                       py "=== CO-DESIGN LANGUAGE (MUST INCLUDE SIMILAR PHRASING) ===")
                      (map (fun item => py "- " ++ h_text item) (codesign r))
                    ++ block (programs r)
                      (newline :: newline ::
                       py "=== PROGRAM DESCRIPTIONS (for accurate details) ===")
                      (map (fun item =>
                              newline :: py "[" ++ get (program_of (h_metadata item)) []
                              ++ py "]: " ++ h_text item)
                           (programs r)))).
    { unfold all_hits in Hin. rewrite !in_app_iff in Hin.
      destruct Hin as [H|[H|[H|[H|[H|H]]]]].
      - exists (h_text item). split; [apply substring_refl|].
        apply in_or_app. left.
        apply block_line; [intros E; rewrite E in H; destruct H|].
        destruct (in_enumerate1 _ _ H) as [i Hi].
        apply in_flat_map. exists (i, item). split; [exact Hi|]. right. now left.
      - eexists. split; [|apply in_or_app; right; apply in_or_app; left;
                          apply block_line; [intros E; rewrite E in H; destruct H|];
                          apply in_map_iff; exists item; split; [reflexivity|exact H]].
        exists (py "- "), (py " [" ++ get (category_of (h_metadata item)) [] ++ py "]").
        reflexivity.
      - eexists. split; [|apply in_or_app; right; apply in_or_app; right;
                          apply in_or_app; left;
                          apply block_line; [intros E; rewrite E in H; destruct H|];
                          apply in_map_iff; exists item; split; [reflexivity|exact H]].
        exists (py "- "), []. now rewrite app_nil_r.
      - eexists. split; [|apply in_or_app; right; apply in_or_app; right;
                          apply in_or_app; right; apply in_or_app; left;
                          apply block_line; [intros E; rewrite E in H; destruct H|];
                          apply in_map_iff; exists item; split; [reflexivity|exact H]].
        exists (py "- " ++ [dquote]), [dquote]. now rewrite <- app_assoc.
      - eexists. split; [|apply in_or_app; right; apply in_or_app; right;
                          apply in_or_app; right; apply in_or_app; right;
                          apply in_or_app; left;
                          apply block_line; [intros E; rewrite E in H; destruct H|];
                          apply in_map_iff; exists item; split; [reflexivity|exact H]].
        exists (py "- "), []. now rewrite app_nil_r.
      - eexists. split; [|apply in_or_app; right; apply in_or_app; right;
                          apply in_or_app; right; apply in_or_app; right;
                          apply in_or_app; right;
                          apply block_line; [intros E; rewrite E in H; destruct H|];
                          apply in_map_iff; exists item; split; [reflexivity|exact H]].
        exists (newline :: py "[" ++ get (program_of (h_metadata item)) [] ++ py "]: "), [].
        rewrite app_nil_r. cbn [app]. now rewrite <- !app_assoc. }
    destruct Hline as (line & Hsub & Hin').
    eapply substring_trans; [exact Hsub | now apply join_part].
  - unfold format_retrieval_for_prompt, all_hits. cbv zeta. split.
    + intros H. apply join_nil in H; [|discriminate].
      destruct (content r); [|destruct H as [H|H]; discriminate H].
      destruct (voice r); [|destruct H as [H|H]; discriminate H].
      destruct (data r); [|destruct H as [H|H]; discriminate H].
      destruct (quotes r); [|destruct H as [H|H]; discriminate H].
      destruct (codesign r); [|destruct H as [H|H]; discriminate H].
      destruct (programs r); [|destruct H as [H|H]; discriminate H].
      reflexivity.
    + intros H. apply app_eq_nil in H as [-> H]. apply app_eq_nil in H as [-> H].
      apply app_eq_nil in H as [-> H]. apply app_eq_nil in H as [-> H].
      apply app_eq_nil in H as [-> ->]. reflexivity.
Qed.

End PromptProofs.

(** ** Section names *)

Section SectionNameProofs.

Import VoiceGuidelines VoiceBonusSpec EnhancedVectorStore.

Lemma retrieval_ignores_section_case (embedding metadata distance : Type)
    (embed_text : str -> option embedding)
    (query : collection -> embedding -> nat -> option (raw_results metadata distance))
    (q section_name : str) (n_content n_voice n_data n_quotes n_codesign n_programs : nat) :
  retrieve_multi_layer embed_text query q (lower section_name)
    n_content n_voice n_data n_quotes n_codesign n_programs
  = retrieve_multi_layer embed_text query q section_name
      n_content n_voice n_data n_quotes n_codesign n_programs.
Proof. unfold retrieve_multi_layer. now rewrite lower_idempotent. Qed.

(** X23. The validator and the retrieval read the section name in lower
    case only: two names that differ in the case of their letters get the
    same evaluation of every text, and the same retrieval for every query
    and every database. *)
Theorem section_names_are_read_in_lower_case (name1 name2 : str) :
  lower name1 = lower name2 ->
  (forall text, calculate_voice_score text name1 = calculate_voice_score text name2)
  /\ (forall (embedding metadata distance : Type)
             (embed_text : str -> option embedding)
             (query : collection -> embedding -> nat
                      -> option (raw_results metadata distance))
             (q : str) (n_content n_voice n_data n_quotes n_codesign n_programs : nat),
        retrieve_multi_layer embed_text query q name1
          n_content n_voice n_data n_quotes n_codesign n_programs
        = retrieve_multi_layer embed_text query q name2
            n_content n_voice n_data n_quotes n_codesign n_programs).
Proof.
  intros H. split.
  - intros text. rewrite <- (voice_score_ignores_section_case text name1),
      <- (voice_score_ignores_section_case text name2). now rewrite H.
  - intros. rewrite <- (retrieval_ignores_section_case embed_text query q name1),
      <- (retrieval_ignores_section_case embed_text query q name2). now rewrite H.
Qed.

Lemma section_names_are_read_in_lower_case_witness :
  calculate_voice_score plain_methodology (py "METHODOLOGY")
  = calculate_voice_score plain_methodology (py "Methodology").
Proof.
  apply (@section_names_are_read_in_lower_case (py "METHODOLOGY") (py "Methodology")).
  reflexivity.
Defined.

End SectionNameProofs.

(** ** Specificity check: the vague quantifiers *)

Section FixedLengthScan.

Import Re SpecificitySpec.

(** A pattern whose match at an offset is decided by a test on the text
    from there on and the character before, and has a fixed length; two
    matches never overlap. *)
Variables (ic : bool) (r : regex) (test : str -> option ascii -> bool) (n : nat).

Hypothesis match_at_test :
  forall rest pos prev,
    match_at ic r rest pos prev
    = if test rest prev
      then Some {| m_start := pos; m_end := pos + n; m_caps := [] |}
      else None.

Hypothesis no_overlap :
  forall rest prev, test rest prev = true ->
    forall j, 1 <= j < n -> test (skipn j rest) (prev_at rest prev j) = false.

Lemma prev_at_cons (c : ascii) (rest : str) (prev : option ascii) (k : nat) :
  prev_at (c :: rest) prev (S k) = prev_at rest (Some c) k.
Proof. destruct k; reflexivity. Qed.

Lemma scan_fixed_sound (rest : str) :
  forall (pos : nat) (prev : option ascii) (skip : nat) (mt : rmatch),
    In mt (scan ic r rest pos prev skip) ->
    exists k, mt = {| m_start := pos + k; m_end := pos + k + n; m_caps := [] |}
              /\ test (skipn k rest) (prev_at rest prev k) = true.
Proof.
  induction rest as [|c rest IH]; intros pos prev skip mt; cbn [scan].
  - rewrite match_at_test. destruct skip; [|intros []].
    destruct (test [] prev) eqn:E; [|intros []].
    intros [<-|[]]. exists 0. rewrite Nat.add_0_r. now split.
  - destruct skip as [|skip].
    + rewrite match_at_test. destruct (test (c :: rest) prev) eqn:E.
      * intros [<-|Hin].
        -- exists 0. rewrite Nat.add_0_r. now split.
        -- apply IH in Hin as (k & -> & Hk). exists (S k).
           rewrite prev_at_cons. split; [|exact Hk]. f_equal; lia.
      * intros Hin. apply IH in Hin as (k & -> & Hk). exists (S k).
        rewrite prev_at_cons. split; [|exact Hk]. f_equal; lia.
    + intros Hin. apply IH in Hin as (k & -> & Hk). exists (S k).
      rewrite prev_at_cons. split; [|exact Hk]. f_equal; lia.
Qed.

Lemma scan_fixed_complete (rest : str) :
  forall (pos : nat) (prev : option ascii) (skip k : nat),
    (forall j, j < skip -> test (skipn j rest) (prev_at rest prev j) = false) ->
    k <= length rest ->
    test (skipn k rest) (prev_at rest prev k) = true ->
    In {| m_start := pos + k; m_end := pos + k + n; m_caps := [] |}
       (scan ic r rest pos prev skip).
Proof.
  induction rest as [|c rest IH]; intros pos prev skip k Hskip Hk Htest; cbn [scan].
  - assert (k = 0) by (simpl in Hk; lia). subst k. rewrite match_at_test.
    destruct skip; [|rewrite (Hskip 0) in Htest by lia; discriminate].
    cbn [skipn prev_at] in Htest. rewrite Htest, Nat.add_0_r. now left.
  - destruct skip as [|skip].
    + rewrite match_at_test. destruct k as [|k].
      * cbn [skipn prev_at] in Htest. rewrite Htest, Nat.add_0_r. now left.
      * rewrite prev_at_cons in Htest. cbn [skipn] in Htest.
        replace (pos + S k) with (S pos + k) by lia.
        destruct (test (c :: rest) prev) eqn:E.
        -- right. apply IH; [|simpl in Hk; lia|exact Htest].
           intros j Hj. cbn [m_end] in Hj.
           rewrite <- prev_at_cons with (prev := prev).
           apply (@no_overlap _ _ E (S j)). lia.
        -- apply IH; [intros j Hj; lia|simpl in Hk; lia|exact Htest].
    + destruct k as [|k]; [rewrite (Hskip 0) in Htest by lia; discriminate|].
      rewrite prev_at_cons in Htest. cbn [skipn] in Htest.
      replace (pos + S k) with (S pos + k) by lia.
      apply IH; [|simpl in Hk; lia|exact Htest].
      intros j Hj. rewrite <- prev_at_cons with (prev := prev).
      apply (Hskip (S j)). lia.
Qed.

End FixedLengthScan.

Section SpecificityProofs.

Import Re VoiceGuidelines SpecificitySpec.

Lemma lower_letter_fixed (c : ascii) : is_lower c = true -> lower_char c = c.
Proof. destruct c as [[] [] [] [] [] [] [] []]; intros H; first [reflexivity | discriminate H]. Qed.

Lemma letter_is_word (c : ascii) : is_lower (lower_char c) = true -> is_word c = true.
Proof. destruct c as [[] [] [] [] [] [] [] []]; intros H; first [reflexivity | discriminate H]. Qed.

Lemma ci_prefix_lower (w rest : str) :
  ci_prefix w rest = true <-> lower (firstn (length w) rest) = w.
Proof.
  revert rest. induction w as [|c w IH]; intros rest; cbn [ci_prefix length firstn].
  - split; reflexivity.
  - destruct rest as [|c' rest]; [split; discriminate|].
    cbn [lower map]. rewrite andb_true_iff, IH, Ascii.eqb_eq. split.
    + intros [-> Hw]. unfold lower in Hw. now rewrite Hw.
    + intros H. injection H as Hc Hw. now split.
Qed.

Lemma ci_prefix_words (w rest : str) :
  Forall (fun c => is_lower c = true) w ->
  ci_prefix w rest = true ->
  forall i, i < length w -> is_word_opt (nth_error rest i) = true.
Proof.
  intros Hw. revert rest. induction Hw as [|c w Hc _ IH]; intros rest Hp i Hi;
    [simpl in Hi; lia|].
  destruct rest as [|c' rest]; [discriminate|]. cbn [ci_prefix] in Hp.
  apply andb_true_iff in Hp as [He Hp]. apply Ascii.eqb_eq in He.
  destruct i as [|i]; cbn [nth_error is_word_opt].
  - apply letter_is_word. now rewrite He.
  - apply IH; [exact Hp | simpl in Hi; lia].
Qed.

Lemma hd_error_skipn {A : Type} (l : list A) (k : nat) :
  hd_error (skipn k l) = nth_error l k.
Proof. revert l. induction k; intros [|a l]; cbn; auto. Qed.

(** A literal word in lowercase letters, under [re.IGNORECASE]. *)
Lemma lit_list_match (R : Type) (w : str) :
  w <> [] ->
  Forall (fun c => is_lower c = true) w ->
  forall (rest : str) (pos : nat) (prev : option ascii) (caps : captures)
         (k : str -> nat -> option ascii -> captures -> option R),
    m true (lit_list w) rest pos prev caps k
    = if ci_prefix w rest
      then k (skipn (length w) rest) (pos + length w)
             (nth_error rest (length w - 1)) caps
      else None.
Proof.
  intros Hne Hw. induction Hw as [|c w Hc Hw IH]; [congruence|]. clear Hne.
  intros rest pos prev caps k.
  destruct w as [|c2 w].
  - cbn [lit_list m ci_prefix length]. destruct rest as [|c' rest]; [reflexivity|].
    unfold fold_case. rewrite (lower_letter_fixed c Hc), andb_true_r.
    destruct (Ascii.eqb (lower_char c') c); [|reflexivity].
    cbn. now rewrite Nat.add_1_r.
  - change (lit_list (c :: c2 :: w)) with (Cat (Chr c) (lit_list (c2 :: w))).
    cbn [m]. destruct rest as [|c' rest]; [reflexivity|].
    unfold fold_case. rewrite (lower_letter_fixed c Hc).
    change (ci_prefix (c :: c2 :: w) (c' :: rest))
      with (Ascii.eqb (lower_char c') c && ci_prefix (c2 :: w) rest).
    destruct (Ascii.eqb (lower_char c') c); [|reflexivity]. cbn [andb].
    rewrite IH by discriminate.
    destruct (ci_prefix (c2 :: w) rest); [|reflexivity].
    cbn [length skipn Nat.sub nth_error]. rewrite Nat.sub_0_r.
    f_equal. lia.
Qed.

Lemma vague_match_at (w : string) (rest : str) (pos : nat) (prev : option ascii) :
  py w <> [] ->
  Forall (fun c => is_lower c = true) (py w) ->
  match_at true (vague_pattern w) rest pos prev
  = if word_here (py w) rest prev
    then Some {| m_start := pos; m_end := pos + length (py w); m_caps := [] |}
    else None.
Proof.
  intros Hne Hw. unfold match_at, vague_pattern, word_here, lit.
  change (cat [WordB; lit_list (py w); WordB])
    with (Cat WordB (Cat (lit_list (py w)) WordB)).
  cbn [m]. destruct (xorb (is_word_opt prev) (is_word_opt (hd_error rest)));
    [|reflexivity].
  rewrite (@lit_list_match _ (py w) Hne Hw). cbn [andb].
  destruct (ci_prefix (py w) rest); [|reflexivity]. cbn [andb].
  now destruct (xorb _ _).
Qed.

Lemma word_here_no_overlap (w rest : str) (prev : option ascii) :
  Forall (fun c => is_lower c = true) w ->
  word_here w rest prev = true ->
  forall j, 1 <= j < length w -> word_here w (skipn j rest) (prev_at rest prev j) = false.
Proof.
  intros Hw H j Hj. unfold word_here in H.
  apply andb_true_iff in H as [H _]. apply andb_true_iff in H as [_ Hp].
  unfold word_here. destruct j as [|j]; [lia|]. cbn [prev_at].
  rewrite hd_error_skipn.
  rewrite (@ci_prefix_words w rest Hw Hp) by lia.
  rewrite (@ci_prefix_words w rest Hw Hp) by lia.
  reflexivity.
Qed.

Lemma word_here_whole_word (w text : str) (k : nat) :
  w <> [] ->
  Forall (fun c => is_lower c = true) w ->
  word_here w (skipn k text) (prev_at text None k) = true <-> whole_word_at w text k.
Proof.
  intros Hne Hw. unfold word_here, whole_word_at.
  rewrite !andb_true_iff, ci_prefix_lower, !hd_error_skipn.
  assert (Hlen : 0 < length w) by (destruct w; [congruence | simpl; lia]).
  assert (Hnext : nth_error (skipn k text) (length w) = nth_error text (k + length w)).
  { rewrite <- !hd_error_skipn, skipn_skipn. f_equal. f_equal. lia. }
  rewrite Hnext. split.
  - intros [[Hb Hp] Ha].
    pose proof (proj2 (ci_prefix_lower w (skipn k text)) Hp) as Hpre.
    rewrite (@ci_prefix_words w (skipn k text) Hw Hpre) in Ha by lia.
    assert (H0 : is_word_opt (nth_error (skipn k text) 0) = true)
      by (apply (@ci_prefix_words w (skipn k text) Hw Hpre); lia).
    rewrite <- hd_error_skipn, skipn_skipn in H0. cbn [Nat.add] in H0.
    rewrite hd_error_skipn in H0. rewrite H0 in Hb.
    split; [exact Hp|]. split.
    + now destruct (is_word_opt (prev_at text None k)).
    + now destruct (is_word_opt (nth_error text (k + length w))).
  - intros (Hp & Hb & Ha).
    pose proof (proj2 (ci_prefix_lower w (skipn k text)) Hp) as Hpre.
    rewrite (@ci_prefix_words w (skipn k text) Hw Hpre) by lia.
    assert (H0 : is_word_opt (nth_error (skipn k text) 0) = true)
      by (apply (@ci_prefix_words w (skipn k text) Hw Hpre); lia).
    rewrite <- hd_error_skipn, skipn_skipn in H0. cbn [Nat.add] in H0.
    rewrite hd_error_skipn in H0. rewrite H0, Hb, Ha. now repeat split.
Qed.

Lemma vague_words_lowercase (w : string) :
  In w vague_words -> py w <> [] /\ Forall (fun c => is_lower c = true) (py w).
Proof.
  unfold vague_words. intros H.
  repeat (destruct H as [<-|H]; [split; [discriminate | repeat constructor]|]).
  destruct H.
Qed.

(** X24. On an ASCII text, the entries of [check_specificity] for the
    vague quantifiers are exactly the whole-word occurrences of the six
    words, case ignored: for each of the words and each offset, an entry
    with that word and that position is reported if and only if the word
    stands at that offset of the text, in any case, with no word character
    right before or right after it.  (Outside ASCII the word characters and
    the folding of the case of Python are wider than those of this
    embedding, and nothing is stated.) *)
Theorem vague_entries_are_the_whole_words (text : str) (w : string) (k : nat) :
  is_ascii text = true ->
  In w vague_words ->
  ((exists v, In v (vague_matches text) /\ word v = py w /\ v_position v = k)
   <-> whole_word_at (py w) text k).
Proof.
  intros _ Hin. destruct (@vague_words_lowercase w Hin) as [Hne Hlow].
  rewrite <- (@word_here_whole_word (py w) text k Hne Hlow). split.
  - intros (v & Hv & Hword & Hpos). unfold vague_matches in Hv.
    apply in_flat_map in Hv as (w' & Hw' & Hv).
    apply in_map_iff in Hv as (mt & <- & Hmt). cbn [word v_position] in *.
    assert (w' = w).
    { apply (f_equal string_of_list_ascii) in Hword. unfold py in Hword.
      now rewrite !string_of_list_ascii_of_string in Hword. }
    subst w'. unfold finditer in Hmt.
    apply (@scan_fixed_sound true (vague_pattern w) (word_here (py w)) (length (py w))
             (fun rest pos prev => @vague_match_at w rest pos prev Hne Hlow)) in Hmt.
    destruct Hmt as (k' & -> & Htest). cbn [m_start] in Hpos. simpl in Hpos.
    now subst k'.
  - intros Htest.
    assert (Hk : k <= length text).
    { destruct (Nat.le_gt_cases k (length text)) as [H|H]; [exact H|].
      unfold word_here in Htest. rewrite skipn_all2 in Htest by lia.
      apply andb_true_iff in Htest as [Htest _].
      apply andb_true_iff in Htest as [_ Htest].
      destruct (py w); [congruence | discriminate]. }
    exists {| word := py w; v_position := k;
              suggestion := py "Replace with specific data or number";
              v_severity := py "medium" |}.
    split; [|now split]. unfold vague_matches. apply in_flat_map.
    exists w. split; [exact Hin|]. apply in_map_iff.
    exists {| m_start := k; m_end := k + length (py w); m_caps := [] |}.
    split; [reflexivity|]. unfold finditer.
    apply (@scan_fixed_complete true (vague_pattern w) (word_here (py w)) (length (py w))
             (fun rest pos prev => @vague_match_at w rest pos prev Hne Hlow)
             (fun rest prev H j Hj => @word_here_no_overlap (py w) rest prev Hlow H j Hj)
             text 0 None 0 k); [intros j Hj; lia | exact Hk | exact Htest].
Qed.

Lemma vague_entries_are_the_whole_words_witness :
  exists v, In v (vague_matches (py "Many families, not manyfold.")) /\ word v = py "many"
            /\ v_position v = 0.
Proof.
  apply (@vague_entries_are_the_whole_words (py "Many families, not manyfold.")
           "many"%string 0).
  - reflexivity.
  - unfold vague_words. simpl. tauto.
  - unfold whole_word_at. repeat split.
Defined.

End SpecificityProofs.

(** ** Specificity check: the numbers *)

Section NumbersProofs.

Import Re VoiceGuidelines SpecificitySpec NumbersSpec ExtractionSpec.













End NumbersProofs.

(** ** The basic generator *)

Section BasicGeneratorProofs.

Import Llm EnhancedGenerator GeneratorSpec RetrySpec BasicGenerator BasicSpec.

Variable retrieved : nat -> bool.
Variable llm : nat -> Q -> llm_outcome.

Lemma basic_loop_returns (temp : Q) (names : list str) :
  forall (i : nat) (a : basic_application),
    (forall j, i <= j < i + length names -> goes_through retrieved llm temp j = true) ->
    exists a',
      sections_loop retrieved llm names i temp a = Returned a'
      /\ b_sections a'
         = assign_all (combine names
                         (map (fun j => text_of (llm j temp)) (seq i (length names))))
                      (b_sections a)
      /\ b_total_tokens a'
         = (b_total_tokens a
            + fold_right Z.add 0
                (map (fun j => tokens_of (llm j temp)) (seq i (length names))))%Z
      /\ b_sections_generated a' = b_sections_generated a.
Proof.
  induction names as [|name names IH]; intros i a Hall;
    cbn [sections_loop length seq map combine fold_right].
  - exists a. unfold assign_all. cbn. repeat split. lia.
  - pose proof (Hall i ltac:(simpl; lia)) as Hi. unfold goes_through in Hi.
    apply andb_true_iff in Hi as [Hr Hl]. unfold generate_section. rewrite Hr.
    cbn [negb]. destruct (llm i temp) as [content tokens|]; [|discriminate].
    destruct (IH (S i)
                {| b_sections := dict_set name content (b_sections a);
                   b_total_tokens := (b_total_tokens a + tokens)%Z;
                   b_sections_generated := b_sections_generated a |})
      as (a' & Hrun & Hs & Ht & Hg).
    { intros j Hj. apply Hall. simpl. lia. }
    exists a'. split; [exact Hrun|]. cbn [b_sections b_total_tokens b_sections_generated] in *.
    split; [exact Hs|]. split; [rewrite Ht; cbn [text_of tokens_of]; lia | exact Hg].
Qed.

Lemma basic_loop_raises (temp : Q) (names : list str) :
  forall (i : nat) (a : basic_application),
    (exists j, i <= j < i + length names /\ goes_through retrieved llm temp j = false) ->
    sections_loop retrieved llm names i temp a = Raised.
Proof.
  induction names as [|name names IH]; intros i a (j & Hj & Hfail);
    [simpl in Hj; lia|].
  cbn [sections_loop]. unfold generate_section.
  destruct (Nat.eq_dec j i) as [->|Hne].
  - unfold goes_through in Hfail. destruct (retrieved i); [|reflexivity].
    cbn [negb andb] in *. now destruct (llm i temp).
  - destruct (retrieved i); [|reflexivity]. cbn [negb].
    destruct (llm i temp); [|reflexivity].
    apply IH. exists j. split; [simpl in Hj; lia | exact Hfail].
Qed.

Lemma keys_combine {V : Type} (names : list str) (values : list V) :
  length values = length names -> keys (combine names values) = names.
Proof.
  unfold keys. revert values. induction names as [|n ns IH]; intros [|v vs] H;
    simpl in *; try discriminate; try reflexivity.
  f_equal. apply IH. lia.
Qed.

(** X26. [generate_full_application] of the basic generator calls the
    model once for each section, in order and at the temperature given.
    When every call goes through, it returns an application whose total of
    tokens is the sum over the calls, whose count of sections is the length
    of the list of names and whose dictionary has exactly the names of the
    list as keys, each once, with the texts as the model gave them when no
    name is repeated.  When one call does not go through, it raises and no
    application is returned. *)
Theorem basic_application_is_all_or_nothing (sections_arg : list str) (temp : Q) :
  let names := effective_sections sections_arg in
  let n := length names in
  ((forall j, j < n -> goes_through retrieved llm temp j = true) ->
   exists a,
     generate_full_application retrieved llm sections_arg temp = Returned a
     /\ b_total_tokens a
        = fold_right Z.add 0%Z (map (fun j => tokens_of (llm j temp)) (seq 0 n))
     /\ b_sections_generated a = n
     /\ NoDup (keys (b_sections a))
     /\ (forall name, In name (keys (b_sections a)) <-> In name names)
     /\ (NoDup names ->
         b_sections a = combine names (map (fun j => text_of (llm j temp)) (seq 0 n))))
  /\ ((exists j, j < n /\ goes_through retrieved llm temp j = false) ->
      generate_full_application retrieved llm sections_arg temp = Raised).
Proof.
  cbv zeta. unfold generate_full_application. fold (effective_sections sections_arg).
  set (names := effective_sections sections_arg). split.
  - intros Hall.
    destruct (@basic_loop_returns temp names 0
                {| b_sections := []; b_total_tokens := 0;
                   b_sections_generated := length names |})
      as (a & Hrun & Hs & Ht & Hg).
    { intros j Hj. apply Hall. lia. }
    cbn [b_sections b_total_tokens b_sections_generated] in *.
    set (texts := map (fun j => text_of (llm j temp)) (seq 0 (length names))) in *.
    assert (Hkeys : keys (combine names texts) = names).
    { apply keys_combine. unfold texts. now rewrite length_map, length_seq. }
    destruct (@keys_assign_all _ (combine names texts) [] (NoDup_nil _)) as [Hnd Hin].
    exists a. split; [exact Hrun|]. split; [rewrite Ht; lia|]. split; [exact Hg|].
    rewrite Hs. split; [exact Hnd|]. split.
    + intros name. rewrite Hin, Hkeys. simpl. intuition.
    + intros Hn. rewrite assign_all_distinct; [reflexivity|]. simpl. now rewrite Hkeys.
  - intros (j & Hj & Hfail). apply basic_loop_raises. exists j. split; [lia | exact Hfail].
Qed.

End BasicGeneratorProofs.

(** ** Generation controller: acceptance *)

Section AcceptanceProofs.

Import Llm VoiceGuidelines EnhancedGenerator GeneratorSpec RetrySpec.

Variable llm : nat -> Q -> llm_outcome.
Variable name : str.
Variable max_attempts : nat.

Lemma attempt_loop_accepts (remaining : nat) :
  forall (attempt : nat) (st st' : locals),
    attempt + remaining = max_attempts ->
    not_yet_accepted max_attempts attempt st ->
    attempt_loop true true llm name max_attempts remaining attempt st = Returned st' ->
    l_attempts st' = [] \/ accepted_or_exhausted max_attempts (l_attempts st').
Proof.
  induction remaining as [|remaining IH]; intros attempt st st' Hsum [Hlow Hlast].
  - simpl. intros H. injection H as <-.
    destruct (Hlast ltac:(lia)) as [Hnil|(l & a & Hl & Ha)]; [now left|].
    right. exists l, a. rewrite Hl in Hlow. apply Forall_app in Hlow as [Hl0 Ha0].
    split; [exact Hl|]. split; [exact Hl0|]. right. split; [|exact Ha].
    now inversion Ha0.
  - destruct (llm attempt (temperature st)) as [content total_tokens|] eqn:E.
    + rewrite (@attempt_loop_completed true llm name max_attempts remaining attempt st
                 content total_tokens E). cbv zeta.
      set (st2 := record_attempt name st (attempt + 1) content total_tokens).
      assert (Hatt : l_attempts st2
                     = l_attempts st ++ [attempt_of name content total_tokens (attempt + 1)])
        by reflexivity.
      destruct (Z.leb_spec min_voice_score
                  (score (calculate_voice_score (strip content) name))) as [Hok|Hlo];
        cbn [orb negb].
      * intros H. injection H as <-. right. eexists _, _.
        split; [exact Hatt|]. split; [exact Hlow|]. now left.
      * intros H.
        assert (Hnext : not_yet_accepted max_attempts (S attempt) st2).
        { split.
          - rewrite Hatt. apply Forall_app. split; [exact Hlow|].
            constructor; [exact Hlo | constructor].
          - intros Hmax. right. eexists _, _. split; [exact Hatt|].
            cbn [attempt_of EnhancedGenerator.attempt]. lia. }
        destruct (attempt <? max_attempts - 1);
          [apply (IH (S attempt) (warmer st2) st' ltac:(lia) Hnext H)
          | apply (IH (S attempt) st2 st' ltac:(lia) Hnext H)].
    + rewrite (@attempt_loop_failed true llm name max_attempts true remaining attempt st E).
      destruct (Nat.eqb_spec attempt (max_attempts - 1)) as [_|Hne]; [discriminate|].
      intros H. apply (IH (S attempt) st st' ltac:(lia)); [|exact H].
      split; [exact Hlow|]. intros Hmax. lia.
Qed.

(** X27. With validation and the automatic fix on, the attempt recorded
    last in a result of [generate_section] either reached the threshold of
    85, and then its score is the voice score of the result, or it is the
    attempt numbered [max_attempts] and the voice score of the result is
    below 85; every attempt before it scored below 85.  So a section below
    the threshold is returned only after the last attempt allowed. *)
Theorem below_threshold_only_after_the_last_attempt (retrieved : bool) (temp : Q)
    (r : section_result) :
  generate_section true true llm retrieved name temp max_attempts = Returned r ->
  exists l a,
    attempts r = l ++ [a]
    /\ Forall low l
    /\ (((min_voice_score <= a_score a)%Z /\ voice_score r = Some (a_score a))
        \/ (low a /\ attempt a = max_attempts
            /\ exists s, voice_score r = Some s /\ (s < min_voice_score)%Z)).
Proof.
  intros Hgen.
  destruct (generate_section_keeps_best_score _ _ _ _ _ _ Hgen) as [Hbest _].
  revert Hgen. unfold generate_section. destruct retrieved; [|discriminate].
  simpl negb. cbv iota.
  destruct (attempt_loop _ _ _ _ _ _ _ _) as [st|] eqn:E; [|discriminate].
  pose proof (@attempt_loop_ends true llm name max_attempts max_attempts 0 _ st
                (going_on_initially true temp) E) as (_ & _ & _ & Htok).
  apply attempt_loop_accepts in E; [|lia|split; [constructor | now left]].
  destruct (l_attempts st) as [|x xs] eqn:El.
  - destruct (l_tokens_used st); [|discriminate].
    assert (Some z = None) by now apply Htok. discriminate.
  - intros H. injection H as <-. cbn [attempts voice_score] in *.
    destruct E as [E|(l & a & Hl & Hlow & Hlast)]; [discriminate|].
    exists l, a. split; [exact Hl|]. split; [exact Hlow|].
    rewrite Hbest, Hl, best_recorded_app.
    pose proof (low_scores_low_best Hlow) as Hl85.
    destruct Hlast as [Hok|[Ha Hn]].
    + left. split; [exact Hok|]. f_equal. lia.
    + right. split; [exact Ha|]. split; [exact Hn|]. eexists. split; [reflexivity|].
      unfold low in Ha. lia.
Qed.

End AcceptanceProofs.

Section AcceptanceExamples.

Import Llm VoiceGuidelines EnhancedGenerator GeneratorSpec RetrySpec.

Lemma below_threshold_only_after_the_last_attempt_witness :
  exists r l a,
    generate_section true true llm_failing_first true (py "Budget Narrative")
      Settings.TEMPERATURE 3 = Returned r
    /\ attempts r = l ++ [a] /\ Forall low l.
Proof.
  eassert (E : generate_section true true llm_failing_first true (py "Budget Narrative")
                 Settings.TEMPERATURE 3 = Returned _) by (vm_compute; reflexivity).
  destruct (@below_threshold_only_after_the_last_attempt llm_failing_first
              (py "Budget Narrative") 3 true Settings.TEMPERATURE _ E)
    as (l & a & Hl & Hlow & _).
  eexists _, l, a. split; [exact E|]. split; assumption.
Defined.

End AcceptanceExamples.

Section FragmentDictProofs.

Import Re EnhancedVectorStore FragmentDict ExtractionSpec.

Variable object : Type.

Lemma dict_get_set (k k' : str) (v : value object) (d : dict object) :
  dict_get k (EnhancedGenerator.dict_set k' v d)
  = if str_eqb k k' then Some v else dict_get k d.
Proof.
  induction d as [|[k2 v2] d IH]; cbn [EnhancedGenerator.dict_set dict_get];
    [reflexivity|].
  destruct (str_eqb k' k2) eqn:E2; cbn [dict_get].
  - apply str_eqb_eq in E2. subst k2. now destruct (str_eqb k k').
  - rewrite IH. destruct (str_eqb k k2) eqn:E; [|reflexivity].
    destruct (str_eqb k k') eqn:E'; [|reflexivity].
    apply str_eqb_eq in E, E'. subst k2 k'.
    assert (H : str_eqb k k = true) by now apply str_eqb_eq. congruence.
Qed.

(** A key the second dictionary lacks keeps its value. *)
Lemma dict_update_other (k : str) (other : dict object) :
  forall d, ~ In k (dict_keys other) ->
            dict_get k (dict_update d other) = dict_get k d.
Proof.
  unfold dict_update.
  induction other as [|[k0 v0] other IH]; intros d Hk; cbn [fold_left fst snd];
    [reflexivity|].
  cbn [dict_keys map fst] in Hk.
  rewrite IH by (intros H; apply Hk; now right).
  rewrite dict_get_set. destruct (str_eqb k k0) eqn:E; [|reflexivity].
  apply str_eqb_eq in E. exfalso. apply Hk. left. now symmetry.
Qed.

(** A key of the second dictionary has the value that dictionary gives
    it, whatever the first one is. *)
Lemma dict_update_key (k : str) (other : dict object) :
  forall d d', In k (dict_keys other) ->
               dict_get k (dict_update d other) = dict_get k (dict_update d' other).
Proof.
  induction other as [|[k0 v0] other IH]; intros d d' Hk; [destruct Hk|].
  destruct (in_dec (list_eq_dec ascii_dec) k (dict_keys other)) as [Hin|Hout].
  - exact (IH (EnhancedGenerator.dict_set k0 v0 d) (EnhancedGenerator.dict_set k0 v0 d') Hin).
  - destruct Hk as [Hk|Hk]; [|contradiction]. cbn [fst] in Hk. subst k0.
    change (dict_update d ((k, v0) :: other))
      with (dict_update (EnhancedGenerator.dict_set k v0 d) other).
    change (dict_update d' ((k, v0) :: other))
      with (dict_update (EnhancedGenerator.dict_set k v0 d') other).
    rewrite !(@dict_update_other k other _ Hout), !dict_get_set.
    assert (H : str_eqb k k = true) by now apply str_eqb_eq.
    now rewrite H.
Qed.

(** What the dictionary of a fragment has under the keys of the metadata
    and, when the metadata has no such key, under [text]. *)
Lemma as_dict_get (f : fragment (dict object)) :
  carries (meta f) (as_dict f)
  /\ (~ In (py "text") (dict_keys (meta f)) ->
      dict_get (py "text") (as_dict f) = Some (Text (text f))).
Proof.
  split.
  - intros k Hk. unfold as_dict. now apply dict_update_key.
  - intros Hk. unfold as_dict. rewrite (@dict_update_other _ _ _ Hk).
    now destruct (program f).
Qed.

Lemma traceable_as_dict (document : str) (md : dict object)
    (l : list (fragment (dict object))) :
  Forall (traceable document md) l ->
  Forall (fun d => carries md d
                   /\ (~ In (py "text") (dict_keys md) -> text_from document d))
         (map (@as_dict object) l).
Proof.
  intros H. apply Forall_forall. intros d Hd.
  apply in_map_iff in Hd as (f & <- & Hf).
  rewrite Forall_forall in H. destruct (H f Hf) as [Hsub Hmeta].
  destruct (as_dict_get f) as [Hc Ht]. rewrite Hmeta in Hc, Ht.
  split; [exact Hc|]. intros Hk. exists (text f). split; [now apply Ht | exact Hsub].
Qed.

(** X6. For every ASCII document and every metadata, each dictionary the
    voice-phrase, data-metric, participant-quote and program-description
    extractors append has, under every key of the metadata, the value the
    metadata has there; and when [text] is not a key of the metadata, its
    value under [text] is a contiguous part of the document, character for
    character.  (A metadata with the key [text] replaces the extracted
    text, since the metadata is merged last into the dictionary.) *)
Theorem four_extractors_keep_fragments_traceable (document : str) (md : dict object) :
  is_ascii document = true ->
  Forall (fun d => carries md d
                   /\ (~ In (py "text") (dict_keys md) -> text_from document d))
    (map (@as_dict object)
       (extract_voice_phrases document md ++ extract_data_metrics document md
        ++ extract_participant_voices document md
        ++ extract_program_descriptions document md)).
Proof.
  intros _. apply traceable_as_dict.
  apply Forall_app. split; [apply voice_phrases_traceable|].
  apply Forall_app. split; [apply data_metrics_traceable|].
  apply Forall_app. split; [apply participant_voices_traceable|].
  apply program_descriptions_traceable.
Qed.

(** X9. On an ASCII document, [extract_participant_voices] appends every
    dictionary twice, since its two patterns are the same; and when [text]
    is not a key of the metadata, the text of none of them contains
    [http], [www] or [@], in any case.  (A metadata with the key [text]
    replaces the text that was filtered.) *)
Theorem quotations_are_doubled_and_free_of_links (document : str) (md : dict object) :
  is_ascii document = true ->
  exists once,
    map (@as_dict object) (extract_participant_voices document md) = once ++ once
    /\ Forall (fun d => ~ In (py "text") (dict_keys md) -> text_free_of_links d) once.
Proof.
  intros _. destruct (participant_voices_twice document md) as (once & -> & Hall).
  exists (map (@as_dict object) once). split; [apply map_app|].
  apply Forall_forall. intros d Hd. apply in_map_iff in Hd as (f & <- & Hf).
  rewrite Forall_forall in Hall. destruct (Hall f Hf) as (Hfree & _ & Hmeta).
  intros Hk. exists (text f). split; [|exact Hfree].
  destruct (as_dict_get f) as [_ Ht]. apply Ht. now rewrite Hmeta.
Qed.

End FragmentDictProofs.

Section FragmentDictExamples.

Import Re EnhancedVectorStore FragmentDict ExtractionSpec.

Lemma four_extractors_keep_fragments_traceable_witness :
  Forall (fun d => carries sample_metadata d
                   /\ (~ In (py "text") (dict_keys sample_metadata) ->
                       text_from sample_document d))
    (map (@as_dict unit)
       (extract_voice_phrases sample_document sample_metadata
        ++ extract_data_metrics sample_document sample_metadata
        ++ extract_participant_voices sample_document sample_metadata
        ++ extract_program_descriptions sample_document sample_metadata)).
Proof.
  apply (@four_extractors_keep_fragments_traceable unit sample_document sample_metadata).
  vm_compute. reflexivity.
Defined.

Lemma quotations_are_doubled_and_free_of_links_witness :
  exists once,
    map (@as_dict unit) (extract_participant_voices sample_document sample_metadata)
    = once ++ once
    /\ Forall (fun d => ~ In (py "text") (dict_keys sample_metadata) ->
                        text_free_of_links d) once.
Proof.
  apply (@quotations_are_doubled_and_free_of_links unit sample_document sample_metadata).
  vm_compute. reflexivity.
Defined.

End FragmentDictExamples.
